(** * SoFIS moving-map gauge: a shallow embedding of [map-gauge.c]

    The development follows [src/map-gauge.c] and [src/map-math.h]:
    - fixed-width C integers are [Z] with the wrap-around written out;
    - the gauge is a record, each C function a computation in a small
      state-and-log monad (the log records the calls the gauge makes);
    - the collaborators whose code lives elsewhere (SDL, the tile
      providers, the projection of [map-math.c], the allocator) are
      explicit models or parameters, each marked as such. *)

From Stdlib Require Import ZArith Lia QArith Qround Floats.
From Stdlib Require Strings.Byte.
From stdpp Require Import base list list_numbers gmap strings.
Local Open Scope Z_scope.

(** ** Machine integers *)

(** [uint32_t]: arithmetic modulo 2^32. *)
Definition u32 (z : Z) : Z := z mod 2 ^ 32.

(** [int] (32 bits): conversion from a wider or unsigned value keeps the
    low 32 bits in two's complement. *)
Definition s32 (z : Z) : Z := (z + 2 ^ 31) mod 2 ^ 32 - 2 ^ 31.

(** [uintf16_t] and [size_t]: the 64-bit unsigned types of the LP64
    target ([uint_fast16_t] is [unsigned long] there). *)
Definition u64 (z : Z) : Z := z mod 2 ^ 64.

Definition INT_MAX : Z := 2 ^ 31 - 1.
Definition INT_MIN : Z := - 2 ^ 31.

(** ** Constants of map-gauge.c *)

Definition TILE_SIZE : Z := 256.
Definition MANIPULATE_TIMEOUT : Z := 2000.
Definition PIX_LIMIT : Z := 10.

(** ** misc.h *)

(** Modelled from the spec: [MAX] and [clamp] of misc.h (not under src/).
    [MAX] is the usual two-way maximum; [clamp] is the pure clamp the
    spec names, evaluated on the (already converted) operands. *)
Definition MAX (a b : Z) : Z := if a >? b then a else b.

Definition clamp (x lo hi : Z) : Z :=
  if x <? lo then lo else if x >? hi then hi else x.

(** ** map-math.h *)

Definition map_math_size (level : Z) : Z := u32 (Z.shiftl 256 level).

(** The projection pair is declared in map-math.h and implemented in
    map-math.c, which works on doubles.  The gauge only composes the two
    functions, so they are an interface here. *)
Class MapMath := {
  Geo : Type;
  map_math_geo_to_pixel : Geo → Z → bool * (Z * Z);
  map_math_pixel_to_geo : Z → Z → Z → Geo
}.

(** ** SDL rectangles *)

Record SDL_Rect := mkRect { rx : Z; ry : Z; rw : Z; rh : Z }.

Definition SDL_RectEmpty (r : SDL_Rect) : bool :=
  (rw r <=? 0) || (rh r <=? 0).

(** SDL2's [SDL_IntersectRect(A, B, result)]: the library routine the
    gauge calls.  [result] is the rectangle stored at the destination
    before the call; with an empty operand only its size is reset. *)
Definition SDL_IntersectRect (A B result : SDL_Rect) : bool * SDL_Rect :=
  if SDL_RectEmpty A || SDL_RectEmpty B then
    (false, mkRect (rx result) (ry result) 0 0)
  else
    let Amin := rx A in
    let Amax := s32 (Amin + rw A) in
    let Bmin := rx B in
    let Bmax := s32 (Bmin + rw B) in
    let Amin := if Bmin >? Amin then Bmin else Amin in
    let x := Amin in
    let Amax := if Bmax <? Amax then Bmax else Amax in
    let w := s32 (Amax - Amin) in
    let Amin := ry A in
    let Amax := s32 (Amin + rh A) in
    let Bmin := ry B in
    let Bmax := s32 (Bmin + rh B) in
    let Amin := if Bmin >? Amin then Bmin else Amin in
    let y := Amin in
    let Amax := if Bmax <? Amax then Bmax else Amax in
    let h := s32 (Amax - Amin) in
    let r := mkRect x y w h in
    (negb (SDL_RectEmpty r), r).

(** ** Gauge data *)

(** Tile layers are shared objects owned by the providers; the gauge
    holds pointers to them. *)
Definition LayerId := positive.

(** The marker sprite: only the canvas size matters to the gauge. *)
Record GenericLayer := mkLayer { canvas_w : Z; canvas_h : Z }.

Definition generic_layer_w (l : GenericLayer) : Z := canvas_w l.
Definition generic_layer_h (l : GenericLayer) : Z := canvas_h l.

Record MapTileProvider := mkProvider {
  home : string;
  format : string;
  cache_tiles : Z
}.

Record BaseGauge := mkBase { frame_w : Z; frame_h : Z; dirty : bool }.

Record MapGaugeMarker := mkMarker {
  layer : GenericLayer;
  mx : Z;
  my : Z;
  heading : float
}.

Record MapPatch := mkPatch {
  patch_layer : LayerId;
  src : SDL_Rect;
  dst : SDL_Rect
}.

(** [patches] is the heap array (its length is the allocated size),
    [npatches] the number of live entries at its front. *)
Record MapGaugeState := mkState {
  patches : list MapPatch;
  apatches : Z;
  npatches : nat;
  marker_src : SDL_Rect;
  marker_dst : SDL_Rect
}.

Record MapGauge := mkGauge {
  super : BaseGauge;
  level : Z;
  world_x : Z;
  world_y : Z;
  marker : MapGaugeMarker;
  tile_providers : list MapTileProvider;
  roaming : bool;
  last_manipulation : Z;
  state : MapGaugeState
}.

(** Field updates. *)
Definition with_dirty (d : bool) (g : MapGauge) : MapGauge :=
  mkGauge (mkBase (frame_w (super g)) (frame_h (super g)) d)
          (level g) (world_x g) (world_y g) (marker g) (tile_providers g)
          (roaming g) (last_manipulation g) (state g).

Definition with_size (w h : Z) (g : MapGauge) : MapGauge :=
  mkGauge (mkBase w h (dirty (super g)))
          (level g) (world_x g) (world_y g) (marker g) (tile_providers g)
          (roaming g) (last_manipulation g) (state g).

Definition with_level (l : Z) (g : MapGauge) : MapGauge :=
  mkGauge (super g) l (world_x g) (world_y g) (marker g) (tile_providers g)
          (roaming g) (last_manipulation g) (state g).

Definition with_world (x y : Z) (g : MapGauge) : MapGauge :=
  mkGauge (super g) (level g) x y (marker g) (tile_providers g)
          (roaming g) (last_manipulation g) (state g).

Definition with_marker (m : MapGaugeMarker) (g : MapGauge) : MapGauge :=
  mkGauge (super g) (level g) (world_x g) (world_y g) m (tile_providers g)
          (roaming g) (last_manipulation g) (state g).

Definition with_marker_pos (x y : Z) (g : MapGauge) : MapGauge :=
  with_marker (mkMarker (layer (marker g)) x y (heading (marker g))) g.

Definition with_marker_layer (l : GenericLayer) (g : MapGauge) : MapGauge :=
  with_marker (mkMarker l (mx (marker g)) (my (marker g)) (heading (marker g))) g.

Definition with_providers (ps : list MapTileProvider) (g : MapGauge) : MapGauge :=
  mkGauge (super g) (level g) (world_x g) (world_y g) (marker g) ps
          (roaming g) (last_manipulation g) (state g).

Definition with_roaming (r : bool) (g : MapGauge) : MapGauge :=
  mkGauge (super g) (level g) (world_x g) (world_y g) (marker g)
          (tile_providers g) r (last_manipulation g) (state g).

Definition with_last_manipulation (t : Z) (g : MapGauge) : MapGauge :=
  mkGauge (super g) (level g) (world_x g) (world_y g) (marker g)
          (tile_providers g) (roaming g) t (state g).

Definition with_state (s : MapGaugeState) (g : MapGauge) : MapGauge :=
  mkGauge (super g) (level g) (world_x g) (world_y g) (marker g)
          (tile_providers g) (roaming g) (last_manipulation g) s.

Definition with_marker_src (r : SDL_Rect) (g : MapGauge) : MapGauge :=
  with_state (mkState (patches (state g)) (apatches (state g))
                      (npatches (state g)) r (marker_dst (state g))) g.

Definition with_marker_rects (s d : SDL_Rect) (g : MapGauge) : MapGauge :=
  with_state (mkState (patches (state g)) (apatches (state g))
                      (npatches (state g)) s d) g.

Definition with_apatches (n : Z) (g : MapGauge) : MapGauge :=
  with_state (mkState (patches (state g)) n (npatches (state g))
                      (marker_src (state g)) (marker_dst (state g))) g.

Definition with_patches (ps : list MapPatch) (n : nat) (g : MapGauge) : MapGauge :=
  with_state (mkState ps (apatches (state g)) n
                      (marker_src (state g)) (marker_dst (state g))) g.

(** ** base-gauge.h *)

Definition base_gauge_w (g : MapGauge) : Z := frame_w (super g).
Definition base_gauge_h (g : MapGauge) : Z := frame_h (super g).

(** Modelled from the spec: [base_gauge_center_x] and
    [base_gauge_center_y] of base-gauge.h (not under src/), "the
    viewport's center": half the gauge's size, in [int] arithmetic. *)
Definition base_gauge_center_x (g : MapGauge) : Z := Z.quot (base_gauge_w g) 2.
Definition base_gauge_center_y (g : MapGauge) : Z := Z.quot (base_gauge_h g) 2.

(** ** The macros of map-gauge.c *)

Definition map_gauge_marker_left (self : MapGauge) : Z :=
  u32 (mx (marker self) - Z.quot (generic_layer_w (layer (marker self))) 2).

Definition map_gauge_marker_top (self : MapGauge) : Z :=
  u32 (my (marker self) - Z.quot (generic_layer_h (layer (marker self))) 2).

Definition map_gauge_marker_worldbox (self : MapGauge) : SDL_Rect :=
  mkRect (s32 (map_gauge_marker_left self))
         (s32 (map_gauge_marker_top self))
         (generic_layer_w (layer (marker self)))
         (generic_layer_h (layer (marker self))).

Definition map_gauge_viewport (self : MapGauge) : SDL_Rect :=
  mkRect (s32 (world_x self)) (s32 (world_y self))
         (base_gauge_w self) (base_gauge_h self).

(** ** Computations: state passing with a log of calls *)

Inductive Event :=
| CallSetViewport (x y : Z)
| CallCenterOnMarker
| CallRealloc (count : Z)
| TileMissing (tilex tiley level : Z).

Record Out (S A : Type) := mkOut { val : A; st : S; log : list Event }.
Arguments mkOut {S A} _ _ _.
Arguments val {S A} _.
Arguments st {S A} _.
Arguments log {S A} _.

Definition M (S A : Type) : Type := S → Out S A.

Global Instance M_ret {S} : MRet (M S) := λ A a s, mkOut a s [].
Global Instance M_bind {S} : MBind (M S) := λ A B f m s,
  match m s with
  | mkOut a s1 l1 =>
      match f a s1 with
      | mkOut b s2 l2 => mkOut b s2 (l1 ++ l2)
      end
  end.

Definition get {S} : M S S := λ s, mkOut s s [].
Definition put {S} (s : S) : M S unit := λ _, mkOut tt s [].
Definition modify {S} (f : S → S) : M S unit := λ s, mkOut tt (f s) [].
Definition emit {S} (e : Event) : M S unit := λ s, mkOut tt s [e].

(** ** Viewport control *)

Definition map_gauge_set_viewport (x y : Z) (animated : bool) : M MapGauge bool :=
  let x := u32 x in
  let y := u32 y in
  emit (CallSetViewport x y);;
  self ← get;
  let map_lastcoord := u32 (map_math_size (level self) - 1) in
  let x := u32 (clamp x 0 (u32 (map_lastcoord - base_gauge_w self))) in
  let y := u32 (clamp y 0 (u32 (map_lastcoord - base_gauge_h self))) in
  if (x =? world_x self) && (y =? world_y self) then mret false
  else
    let animated := false in
    (if animated : bool then mret tt
     else modify (with_world x y);; modify (with_dirty true));;
    mret true.

Definition map_gauge_move_viewport (dx dy : Z) (animated : bool) : M MapGauge bool :=
  self ← get;
  map_gauge_set_viewport (u32 (world_x self + dx)) (u32 (world_y self + dy)) animated.

Definition map_gauge_center_on_marker (animated : bool) : M MapGauge bool :=
  emit CallCenterOnMarker;;
  self ← get;
  map_gauge_set_viewport
    (u32 (map_gauge_marker_left self - base_gauge_center_x self))
    (u32 (map_gauge_marker_top self - base_gauge_center_y self))
    animated.

(** The fourth test reads [world_x], as the source does. *)
Definition map_gauge_follow_marker : M MapGauge bool :=
  self ← get;
  let '(visible, r) :=
    SDL_IntersectRect (map_gauge_viewport self)
                      (map_gauge_marker_worldbox self)
                      (marker_src (state self)) in
  modify (with_marker_src r);;
  if negb visible then map_gauge_center_on_marker true
  else
    if (map_gauge_marker_left self <=? u32 (world_x self + PIX_LIMIT))
       || (u32 (map_gauge_marker_left self + generic_layer_w (layer (marker self)))
             >=? u32 (u32 (world_x self + base_gauge_w self) - PIX_LIMIT))
       || (map_gauge_marker_top self <=? u32 (world_y self + PIX_LIMIT))
       || (u32 (map_gauge_marker_top self + generic_layer_h (layer (marker self)))
             >=? u32 (u32 (world_x self + base_gauge_h self) - PIX_LIMIT))
    then map_gauge_center_on_marker true
    else mret true.

(** [now] is the value [SDL_GetTicks()] returns during the call. *)
Definition map_gauge_manipulate_viewport (now : Z) (dx dy : Z) (animated : bool)
  : M MapGauge bool :=
  modify (with_last_manipulation (u32 now));;
  modify (with_roaming true);;
  self ← get;
  map_gauge_set_viewport (u32 (world_x self + dx)) (u32 (world_y self + dy)) animated.

Section Projection.
Context `{MapMath}.

Definition map_gauge_set_marker_position (now : Z) (position : Geo)
  : M MapGauge bool :=
  self ← get;
  (if roaming self
      && (u32 (u32 now - last_manipulation self) >? MANIPULATE_TIMEOUT)
   then modify (with_roaming false);;
        map_gauge_center_on_marker true;;
        mret tt
   else mret tt);;
  self ← get;
  let '(rv, (new_x, new_y)) := map_math_geo_to_pixel position (level self) in
  let new_x := u32 new_x in
  let new_y := u32 new_y in
  if negb (new_x =? mx (marker self)) || negb (new_y =? my (marker self)) then
    modify (with_marker_pos new_x new_y);;
    self ← get;
    (if negb (roaming self) then map_gauge_follow_marker;; mret tt
     else mret tt);;
    modify (with_dirty true);;
    mret true
  else mret false.

(** The part of [map_gauge_set_marker_position] below the timeout
    test, on its own: project, and move the marker when its pixel
    changed. *)
Definition place_marker (position : Geo) : M MapGauge bool :=
  self ← get;
  let '(rv, (new_x, new_y)) := map_math_geo_to_pixel position (level self) in
  let new_x := u32 new_x in
  let new_y := u32 new_y in
  if negb (new_x =? mx (marker self)) || negb (new_y =? my (marker self)) then
    modify (with_marker_pos new_x new_y);;
    self ← get;
    (if negb (roaming self) then map_gauge_follow_marker;; mret tt
     else mret tt);;
    modify (with_dirty true);;
    mret true
  else mret false.

Definition map_gauge_set_level (now : Z) (lvl : Z) : M MapGauge bool :=
  self ← get;
  if lvl >? 15 then mret false
  else
    (if negb (lvl =? level self) then
       let geo := map_math_pixel_to_geo (world_x self) (world_y self) (level self) in
       let '(_, (new_x, new_y)) := map_math_geo_to_pixel geo lvl in
       let geo := map_math_pixel_to_geo (mx (marker self)) (my (marker self))
                                        (level self) in
       modify (with_level lvl);;
       map_gauge_set_viewport (u32 new_x) (u32 new_y) false;;
       map_gauge_set_marker_position now geo;;
       mret tt
     else mret tt);;
    mret true.
End Projection.

(** ** Construction *)

(** What the build and the file system fix for [map_gauge_init]: the
    [HAVE_IGN_OACI_MAP] switch, the directories of res-dirs.h, and the
    sprite read by [generic_layer_init_from_file]. *)
Record BuildConfig := mkConfig {
  HAVE_IGN_OACI_MAP : bool;
  MAPS_HOME : string;
  IMG_DIR : string;
  image_file : string → GenericLayer
}.

Definition map_tile_provider_new (home format : string) (cache_tiles : Z)
  : MapTileProvider :=
  mkProvider home format (u64 cache_tiles).

(** [int] arithmetic wraps through [s32]; [cache_tiles] is a [size_t]. *)
Definition map_gauge_init (cfg : BuildConfig) (w h : Z) : M MapGauge bool :=
  let twidth := Z.quot w TILE_SIZE in
  let theight := Z.quot h TILE_SIZE in
  let cache_tiles := u64 (s32 (s32 (MAX twidth 1 * MAX twidth 1) * 4)) in
  (if HAVE_IGN_OACI_MAP cfg then
     modify (λ self, with_providers
       (tile_providers self ++
          [map_tile_provider_new (MAPS_HOME cfg +:+ "/ign-oaci") "jpg"
                                 (u64 (cache_tiles * 2))]) self)
   else
     modify (λ self, with_providers
       (tile_providers self ++
          [map_tile_provider_new (MAPS_HOME cfg +:+ "/osm-aip") "png"
                                 (u64 (cache_tiles * 2))]) self));;
  modify (λ self, with_providers
    (tile_providers self ++
       [map_tile_provider_new (MAPS_HOME cfg +:+ "/osm") "png"
                              (u64 (cache_tiles * 2))]) self);;
  modify (with_marker_layer (image_file cfg (IMG_DIR cfg +:+ "/plane32.png")));;
  modify (with_size w h);;
  mret true.

(** The gauge [map_gauge_new] hands to [map_gauge_init]: [calloc]ed. *)
Definition zero_rect : SDL_Rect := mkRect 0 0 0 0.

Definition calloc_gauge : MapGauge :=
  mkGauge (mkBase 0 0 false) 0 0 0 (mkMarker (mkLayer 0 0) 0 0 0%float) []
          false 0 (mkState [] 0 0%nat zero_rect zero_rect).

(** ** The per-frame update *)

(** The gauge together with the reference counts of the tile layers it
    points to. *)
Record World := mkWorld {
  gauge : MapGauge;
  layer_refs : gmap LayerId nat
}.

(** Modelled from the spec: [generic_layer_ref] and [generic_layer_unref]
    of generic-layer.c (not under src/): a shared count, never negative. *)
Definition generic_layer_ref (l : LayerId) (refs : gmap LayerId nat)
  : gmap LayerId nat :=
  <[l := S (default 0%nat (refs !! l))]> refs.

Definition generic_layer_unref (l : LayerId) (refs : gmap LayerId nat)
  : gmap LayerId nat :=
  <[l := Nat.pred (default 0%nat (refs !! l))]> refs.

(** What the surroundings decide during one update: the answer of each
    tile provider, whether [realloc] succeeds, and the contents of
    memory the code reads before writing it. *)
Record Env := mkEnv {
  map_tile_provider_get_tile : MapTileProvider → Z → Z → Z → option LayerId;
  realloc_ok : Z → bool;
  uninit_patch : MapPatch;
  uninit_layer : option LayerId
}.

(** The loop over the providers: [layer] keeps its last assignment. *)
Fixpoint query_providers (env : Env) (ps : list MapTileProvider)
    (lvl tilex tiley : Z) (layer : option LayerId) : option LayerId :=
  match ps with
  | [] => layer
  | p :: ps' =>
      match map_tile_provider_get_tile env p lvl tilex tiley with
      | Some l => Some l
      | None => query_providers env ps' lvl tilex tiley None
      end
  end.

(** A [for] loop over consecutive indices, threading the locals [a]. *)
Fixpoint for_each {S A} (xs : list Z) (body : Z → A → M S A) (a : A) : M S A :=
  match xs with
  | [] => mret a
  | x :: xs' => a' ← body x a; for_each xs' body a'
  end.

Definition tile_rect (tilex tiley : Z) : SDL_Rect :=
  mkRect (s32 (TILE_SIZE * tilex)) (s32 (TILE_SIZE * tiley)) TILE_SIZE TILE_SIZE.

(** The body of the inner loop for the tile [(tilex, tiley)]. *)
Definition tile_body (env : Env) (viewport : SDL_Rect) (tiley tilex : Z)
    (layer : option LayerId) : M World (option LayerId) :=
  w ← get;
  let self := gauge w in
  let layer := query_providers env (tile_providers self) (level self)
                               tilex tiley layer in
  match layer with
  | None => emit (TileMissing tilex tiley (level self));; mret layer
  | Some l =>
      let tile := tile_rect tilex tiley in
      let n := npatches (state self) in
      let slot := default (uninit_patch env) (patches (state self) !! n) in
      let '(_, r) := SDL_IntersectRect viewport tile (src slot) in
      let s := mkRect (s32 (rx r - rx tile)) (s32 (ry r - ry tile)) (rw r) (rh r) in
      let d := mkRect (s32 (rx r - world_x self)) (s32 (ry r - world_y self))
                      (rw r) (rh r) in
      put (mkWorld (with_patches (<[n := mkPatch l s d]> (patches (state self)))
                                 (S n) self)
                   (generic_layer_ref l (layer_refs w)));;
      mret layer
  end.

Definition unref_all (ps : list MapPatch) (refs : gmap LayerId nat)
  : gmap LayerId nat :=
  foldl (λ refs p, generic_layer_unref (patch_layer p) refs) refs ps.

Definition absent_rect : SDL_Rect := mkRect (-1) (-1) (-1) (-1).

Definition update_marker_patch (viewport : SDL_Rect) (self : MapGauge) : MapGauge :=
  let '(marker_visible, r) :=
    SDL_IntersectRect viewport (map_gauge_marker_worldbox self)
                      (marker_src (state self)) in
  if marker_visible then
    with_marker_rects
      (mkRect (s32 (rx r - map_gauge_marker_left self))
              (s32 (ry r - map_gauge_marker_top self)) (rw r) (rh r))
      (mkRect (s32 (rx r - world_x self)) (s32 (ry r - world_y self))
              (rw r) (rh r))
      self
  else with_marker_rects absent_rect absent_rect self.

(** The locals of [map_gauge_update_state] that fix the tile range. *)
Definition tl_tile_x (self : MapGauge) : Z := u64 (world_x self / TILE_SIZE).
Definition tl_tile_y (self : MapGauge) : Z := u64 (world_y self / TILE_SIZE).
Definition lastx (self : MapGauge) : Z :=
  u32 (u32 (world_x self + base_gauge_w self) - 1).
Definition lasty (self : MapGauge) : Z :=
  u32 (u32 (world_y self + base_gauge_h self) - 1).
Definition br_tile_x (self : MapGauge) : Z := u64 (lastx self / TILE_SIZE).
Definition br_tile_y (self : MapGauge) : Z := u64 (lasty self / TILE_SIZE).
Definition x_tile_span (self : MapGauge) : Z :=
  u64 (u64 (br_tile_x self - tl_tile_x self) + 1).
Definition y_tile_span (self : MapGauge) : Z :=
  u64 (u64 (br_tile_y self - tl_tile_y self) + 1).
Definition tile_span (self : MapGauge) : Z :=
  u64 (x_tile_span self * y_tile_span self).

Definition map_gauge_update_state (env : Env) (dt : Z) : M World unit :=
  w ← get;
  let self := gauge w in
  let tl_tile_x := tl_tile_x self in
  let tl_tile_y := tl_tile_y self in
  let br_tile_x := br_tile_x self in
  let br_tile_y := br_tile_y self in
  let tile_span := tile_span self in
  grown ←
    (if tile_span >? apatches (state self) then
       let stmp := apatches (state self) in
       modify (λ w, mkWorld (with_apatches tile_span (gauge w)) (layer_refs w));;
       emit (CallRealloc tile_span);;
       if realloc_ok env tile_span then
         modify (λ w,
           let st := state (gauge w) in
           mkWorld (with_patches
                      (take (Z.to_nat tile_span)
                            (patches st ++
                               replicate (Z.to_nat tile_span) (uninit_patch env)))
                      (npatches st) (gauge w))
                   (layer_refs w));;
         mret true
       else
         modify (λ w, mkWorld (with_apatches stmp (gauge w)) (layer_refs w));;
         mret false
     else mret true);
  if negb grown then mret tt
  else
    modify (λ w,
      let st := state (gauge w) in
      mkWorld (gauge w) (unref_all (take (npatches st) (patches st)) (layer_refs w)));;
    modify (λ w, mkWorld (with_patches (patches (state (gauge w))) 0%nat (gauge w))
                         (layer_refs w));;
    let viewport := map_gauge_viewport self in
    for_each (seqZ tl_tile_y (br_tile_y - tl_tile_y + 1))
      (λ tiley layer,
         for_each (seqZ tl_tile_x (br_tile_x - tl_tile_x + 1))
                  (tile_body env viewport tiley) layer)
      (uninit_layer env);;
    modify (λ w, mkWorld (update_marker_patch viewport (gauge w)) (layer_refs w)).

(** The part of [map_gauge_update_state] below the allocation, on its
    own; [self] is the gauge as the function found it. *)
Definition rebuild_patches (env : Env) (self : MapGauge) : M World unit :=
  modify (λ w,
    let st := state (gauge w) in
    mkWorld (gauge w) (unref_all (take (npatches st) (patches st)) (layer_refs w)));;
  modify (λ w, mkWorld (with_patches (patches (state (gauge w))) 0%nat (gauge w))
                       (layer_refs w));;
  for_each (seqZ (tl_tile_y self) (br_tile_y self - tl_tile_y self + 1))
    (λ tiley layer,
       for_each (seqZ (tl_tile_x self) (br_tile_x self - tl_tile_x self + 1))
                (tile_body env (map_gauge_viewport self) tiley) layer)
    (uninit_layer env);;
  modify (λ w, mkWorld (update_marker_patch (map_gauge_viewport self) (gauge w))
                       (layer_refs w)).

(** The live patches of a frame, in drawing order. *)
Definition live_patches (self : MapGauge) : list MapPatch :=
  take (npatches (state self)) (patches (state self)).

(** ** A reference projection *)

(** Modelled from the spec: [map_math_geo_to_pixel] and
    [map_math_pixel_to_geo] of map-math.c (not under src/).  The spec
    fixes the pair up to its continuous form: the forward map clamps to
    the valid domain and lands in [0, sizeForLevel), the backward map is
    its exact inverse.  A geographic point is named here by its exact
    position in the projected plane, normalised to the unit square. *)
Module SpecProjection.
Definition unit_clip (q : Q) : Q :=
  if Qle_bool q 0 then 0%Q else if Qle_bool 1 q then 1%Q else q.

Definition to_pixel (q : Q) (level : Z) : Z :=
  Z.min (Qfloor (unit_clip q * inject_Z (map_math_size level)))
        (map_math_size level - 1).

Definition geo_to_pixel (p : Q * Q) (level : Z) : bool * (Z * Z) :=
  (true, (to_pixel (fst p) level, to_pixel (snd p) level)).

Definition pixel_to_geo (px py level : Z) : Q * Q :=
  ((inject_Z px / inject_Z (map_math_size level))%Q,
   (inject_Z py / inject_Z (map_math_size level))%Q).

Definition map_math : MapMath :=
  {| Geo := Q * Q;
     map_math_geo_to_pixel := geo_to_pixel;
     map_math_pixel_to_geo := pixel_to_geo |}.
End SpecProjection.

(** ** Vocabulary of the properties *)

(** The origin [map_gauge_set_viewport] settles on for a request [x]
    along an axis of gauge size [extent]. *)
Definition committed (lvl extent x : Z) : Z :=
  u32 (clamp (u32 x) 0 (u32 (u32 (map_math_size lvl - 1) - extent))).

(** The viewport lies inside the world of the current level. *)
Definition origin_in_bounds (self : MapGauge) : Prop :=
  (0 ≤ world_x self ≤ map_math_size (level self) - base_gauge_w self) ∧
  (0 ≤ world_y self ≤ map_math_size (level self) - base_gauge_h self).

(** The gauge is smaller than the world of its level, on both axes. *)
Definition fits_world (self : MapGauge) : Prop :=
  (0 ≤ base_gauge_w self < map_math_size (level self)) ∧
  (0 ≤ base_gauge_h self < map_math_size (level self)).

(** The marker's bounding box, read off the marker's centre without
    wrap-around, and the hysteresis condition in the words of the spec:
    the box keeps more than [PIX_LIMIT] pixels from every viewport edge. *)
Definition box_left (self : MapGauge) : Z :=
  mx (marker self) - Z.quot (generic_layer_w (layer (marker self))) 2.
Definition box_top (self : MapGauge) : Z :=
  my (marker self) - Z.quot (generic_layer_h (layer (marker self))) 2.
Definition box_right (self : MapGauge) : Z :=
  box_left self + generic_layer_w (layer (marker self)).
Definition box_bottom (self : MapGauge) : Z :=
  box_top self + generic_layer_h (layer (marker self)).

Definition clear_of_edges (self : MapGauge) : bool :=
  (world_x self + PIX_LIMIT <? box_left self)
  && (box_right self <? world_x self + base_gauge_w self - PIX_LIMIT)
  && (world_y self + PIX_LIMIT <? box_top self)
  && (box_bottom self <? world_y self + base_gauge_h self - PIX_LIMIT).

Definition box_intersects_viewport (self : MapGauge) : bool :=
  (0 <? generic_layer_w (layer (marker self)))
  && (0 <? generic_layer_h (layer (marker self)))
  && (0 <? base_gauge_w self) && (0 <? base_gauge_h self)
  && (Z.max (world_x self) (box_left self)
        <? Z.min (world_x self + base_gauge_w self) (box_right self))
  && (Z.max (world_y self) (box_top self)
        <? Z.min (world_y self + base_gauge_h self) (box_bottom self)).

(** The destination rectangle the update computes for the tile
    [(tilex, tiley)]: the tile cut to the viewport, in viewport
    coordinates. *)
Definition patch_dst (self : MapGauge) (tilex tiley : Z) : SDL_Rect :=
  let r := (SDL_IntersectRect (map_gauge_viewport self)
                              (tile_rect tilex tiley) zero_rect).2 in
  mkRect (s32 (rx r - world_x self)) (s32 (ry r - world_y self)) (rw r) (rh r).

(** The tiles the two loops visit, in order: rows top to bottom, each
    row left to right. *)
Definition frame_tiles (self : MapGauge) : list (Z * Z) :=
  tiley ← seqZ (tl_tile_y self) (br_tile_y self - tl_tile_y self + 1);
  (λ tilex, (tilex, tiley)) <$>
    seqZ (tl_tile_x self) (br_tile_x self - tl_tile_x self + 1).

(** Every tile of the frame is supplied by some provider. *)
Definition every_tile_hits (env : Env) (self : MapGauge) : Prop :=
  ∀ t, t ∈ frame_tiles self →
    ∃ p, p ∈ tile_providers self ∧
         is_Some (map_tile_provider_get_tile env p (level self) t.1 t.2).

(** The viewport and the tiles under it fit the [int] coordinates of
    [SDL_Rect]: no conversion wraps. *)
Definition viewport_fits_int (self : MapGauge) : Prop :=
  0 < base_gauge_w self ∧ 0 < base_gauge_h self ∧
  0 ≤ world_x self ∧ 0 ≤ world_y self ∧
  world_x self + base_gauge_w self + 255 ≤ INT_MAX ∧
  world_y self + base_gauge_h self + 255 ≤ INT_MAX.

(** The patch array has the size the gauge believes it has. *)
Definition array_sized (self : MapGauge) : Prop :=
  apatches (state self) = Z.of_nat (length (patches (state self))).

(** The destination rectangles of a frame's patches. *)
Definition patch_dsts (self : MapGauge) : list SDL_Rect :=
  dst <$> live_patches self.

(** The viewport in its own coordinates. *)
Definition viewport_local (self : MapGauge) : SDL_Rect :=
  mkRect 0 0 (base_gauge_w self) (base_gauge_h self).

(** Recenters recorded in a log. *)
Definition is_recenter (e : Event) : bool :=
  match e with CallCenterOnMarker => true | _ => false end.

Definition recenters (l : list Event) : nat := length (filter is_recenter l).

(** A pixel lies inside a rectangle. *)
Definition in_rect (r : SDL_Rect) (px py : Z) : Prop :=
  rx r ≤ px < rx r + rw r ∧ ry r ≤ py < ry r + rh r.

(** What scrolling leaves alone: everything but the origin, the dirty
    flag and the per-frame state. *)
Definition same_frame (g g' : MapGauge) : Prop :=
  level g' = level g ∧ marker g' = marker g ∧
  tile_providers g' = tile_providers g ∧ roaming g' = roaming g ∧
  last_manipulation g' = last_manipulation g ∧
  base_gauge_w g' = base_gauge_w g ∧ base_gauge_h g' = base_gauge_h g.


(** Marker updates delivered one after the other, each with the tick
    count [SDL_GetTicks()] shows when it arrives. *)
Fixpoint deliver `{MapMath} (updates : list (Z * Geo)) : M MapGauge unit :=
  match updates with
  | [] => mret tt
  | (now, position) :: rest =>
      map_gauge_set_marker_position now position;; deliver rest
  end.

(** A world pixel of level [from] carried to level [to]: back to
    geographic coordinates, then forward again, as [map_gauge_set_level]
    does for the origin and for the marker. *)
Definition reproject `{MapMath} (x y from to : Z) : Z * Z :=
  let '(_, (new_x, new_y)) :=
    map_math_geo_to_pixel (map_math_pixel_to_geo x y from) to in
  (u32 new_x, u32 new_y).

(** Ticks elapsed at [now] since the last manipulation, as the code
    computes them. *)
Definition elapsed (now : Z) (self : MapGauge) : Z :=
  u32 (u32 now - last_manipulation self).

(** ** Sample gauges *)

Definition plane32 : GenericLayer := mkLayer 32 32.

Definition sample_config : BuildConfig :=
  mkConfig false "maps" "img" (λ _, plane32).

(** The gauge [map_gauge_new(512, 512)] returns: level 0, origin (0,0). *)
Definition new_gauge_512 : MapGauge :=
  st (map_gauge_init sample_config 512 512 calloc_gauge).

(** A 512x512 gauge at level 5, following, its 32x32 marker at [(mx, my)]
    and its origin at [(wx, wy)]. *)
Definition gauge_at (wx wy mx my : Z) : MapGauge :=
  with_level 5 (with_world wx wy (with_marker_pos mx my new_gauge_512)).

(** The spec's example: 512x512 at level 5 with the origin at (100,100). *)
Definition example_gauge : MapGauge := gauge_at 100 100 356 356.

(** Surroundings for the examples: the first provider of a gauge has
    the single tile (1,1), the second one every tile but (2,2);
    [realloc] succeeds. *)
Definition sample_env : Env :=
  mkEnv (λ p lvl tilex tiley,
           if String.eqb (home p) "maps/osm-aip" then
             if (tilex =? 1) && (tiley =? 1) then Some 7%positive else None
           else if (tilex =? 2) && (tiley =? 2) then None else Some 1%positive)
        (λ _, true) (mkPatch 1%positive zero_rect zero_rect) None.

(** Reading fields through the field updates. *)
Ltac fields :=
  cbn [val st log super level world_x world_y marker tile_providers roaming
       last_manipulation state frame_w frame_h dirty layer mx my heading
       patches apatches npatches marker_src marker_dst gauge layer_refs
       with_dirty with_size with_level with_world with_marker with_marker_pos
       with_marker_layer with_providers with_roaming with_last_manipulation
       with_state with_marker_src with_marker_rects with_apatches with_patches
       base_gauge_w base_gauge_h negb andb orb app].

(** ** Rendering, disposal and construction *)

(** The calls [map_gauge_render] makes on the renderer of base-gauge.h:
    a layer blit, the rotated blit of the marker texture, the outline. *)
Inductive DrawCall :=
| BlitLayer (l : LayerId) (s d : SDL_Rect)
| BlitRotatedTexture (s : SDL_Rect) (angle : float) (d : SDL_Rect)
| DrawOutline.

(** [map_gauge_render] reads the gauge and draws; it writes nothing. *)
Definition map_gauge_render (self : MapGauge) (dt : Z) : list DrawCall :=
  ((λ patch, BlitLayer (patch_layer patch) (src patch) (dst patch))
     <$> take (npatches (state self)) (patches (state self)))
  ++ (if rx (marker_src (state self)) >=? 0 then
        [BlitRotatedTexture (marker_src (state self)) (heading (marker self))
                            (marker_dst (state self))]
      else [])
  ++ [DrawOutline].



(** [map_gauge_new]: [calloc], then [map_gauge_init]; [calloc_ok] tells
    whether the allocation succeeds. *)
Definition map_gauge_new (cfg : BuildConfig) (calloc_ok : bool) (w h : Z)
  : option MapGauge :=
  if calloc_ok then
    let r := map_gauge_init cfg w h calloc_gauge in
    if val r then Some (st r) else None
  else None.

(** ** Vocabulary of the frame *)

(** The count a layer has in the store, and the number of patches of a
    list that point to it. *)
Definition refcount (refs : gmap LayerId nat) (l : LayerId) : nat :=
  default 0%nat (refs !! l).

Definition uses (l : LayerId) (ps : list MapPatch) : nat :=
  length (filter (λ p, patch_layer p = l) ps).

(** The layer the provider chain returns for a tile: the first provider,
    in order, that has it. *)
Definition first_hit (env : Env) (ps : list MapTileProvider)
    (lvl tilex tiley : Z) : option LayerId :=
  head (omap (λ p, map_tile_provider_get_tile env p lvl tilex tiley) ps).

(** The patch the update builds for a tile with layer [l]: the tile cut
    to the viewport, in tile coordinates for the source and in viewport
    coordinates for the destination. *)
Definition cut_patch (self : MapGauge) (tilex tiley : Z) (l : LayerId) : MapPatch :=
  let r := (SDL_IntersectRect (map_gauge_viewport self)
                              (tile_rect tilex tiley) zero_rect).2 in
  mkPatch l
    (mkRect (s32 (rx r - rx (tile_rect tilex tiley)))
            (s32 (ry r - ry (tile_rect tilex tiley))) (rw r) (rh r))
    (mkRect (s32 (rx r - world_x self)) (s32 (ry r - world_y self))
            (rw r) (rh r)).

(** The patch of a tile of the frame, if any provider has the tile. *)
Definition frame_patch (env : Env) (self : MapGauge) (t : Z * Z) : option MapPatch :=
  cut_patch self t.1 t.2
    <$> first_hit env (tile_providers self) (level self) t.1 t.2.

(** The tiles of the frame no provider has, in loop order. *)
Definition missing_tiles (env : Env) (self : MapGauge) : list (Z * Z) :=
  filter (λ t, first_hit env (tile_providers self) (level self) t.1 t.2 = None)
         (frame_tiles self).

(** One reference taken per patch of a list, and the diagnostics for a
    list of tiles. *)
Definition take_refs (ps : list MapPatch) (refs : gmap LayerId nat)
  : gmap LayerId nat :=
  foldl (λ refs p, generic_layer_ref (patch_layer p) refs) refs ps.

Definition miss_events (lvl : Z) (ts : list (Z * Z)) : list Event :=
  (λ t, TileMissing t.1 t.2 lvl) <$> ts.

Definition tile_missing (env : Env) (self : MapGauge) (t : Z * Z) : Prop :=
  first_hit env (tile_providers self) (level self) t.1 t.2 = None.


(** The marker's box and the viewport stay clear of wrap-around: both
    have a positive size and lie in the non-negative [int] range, and the
    gauge is at least [PIX_LIMIT] wide. *)
Definition marker_plain (self : MapGauge) : Prop :=
  0 < generic_layer_w (layer (marker self)) ∧
  0 < generic_layer_h (layer (marker self)) ∧
  PIX_LIMIT ≤ base_gauge_w self ∧ 0 < base_gauge_h self ∧
  0 ≤ box_left self ∧ 0 ≤ box_top self ∧
  box_right self ≤ INT_MAX ∧ box_bottom self ≤ INT_MAX ∧
  0 ≤ world_x self ∧ 0 ≤ world_y self ∧
  world_x self + base_gauge_w self ≤ INT_MAX ∧
  world_y self + base_gauge_h self ≤ INT_MAX.

(** The patch array can hold the frame: it has the size the gauge
    believes, and is large enough or can be grown. *)
Definition array_available (env : Env) (self : MapGauge) : Prop :=
  array_sized self ∧
  (tile_span self ≤ apatches (state self) ∨
   realloc_ok env (tile_span self) = true).

(** What [map_gauge_update_state] relies on: a viewport within [int],
    a patch array that can hold the frame and holds the live patches,
    and at least one provider to ask. *)
Definition frame_ready (env : Env) (self : MapGauge) : Prop :=
  viewport_fits_int self ∧ array_available env self ∧
  tile_providers self ≠ [] ∧
  (npatches (state self) ≤ length (patches (state self)))%nat.

(** The patch array [map_gauge_update_state] works on: the old one, or
    the one [realloc] returns, its new slots holding whatever memory
    held. *)
Definition frame_array (env : Env) (self : MapGauge) : list MapPatch :=
  if tile_span self >? apatches (state self) then
    take (Z.to_nat (tile_span self))
         (patches (state self)
            ++ replicate (Z.to_nat (tile_span self)) (uninit_patch env))
  else patches (state self).

(** The marker rectangles [map_gauge_update_state] stores: the part of
    the marker's box inside the viewport, or the absent rectangle. *)
Definition marker_patch (self : MapGauge) : SDL_Rect * SDL_Rect :=
  let '(marker_visible, r) :=
    SDL_IntersectRect (map_gauge_viewport self) (map_gauge_marker_worldbox self)
                      zero_rect in
  if marker_visible then
    (mkRect (s32 (rx r - map_gauge_marker_left self))
            (s32 (ry r - map_gauge_marker_top self)) (rw r) (rh r),
     mkRect (s32 (rx r - world_x self)) (s32 (ry r - world_y self))
            (rw r) (rh r))
  else (absent_rect, absent_rect).

(** The visible part of the marker, as source and destination
    rectangles, read off the coordinates without wrap-around. *)
Definition marker_cut (self : MapGauge) : SDL_Rect * SDL_Rect :=
  let x0 := Z.max (world_x self) (box_left self) in
  let y0 := Z.max (world_y self) (box_top self) in
  let x1 := Z.min (world_x self + base_gauge_w self) (box_right self) in
  let y1 := Z.min (world_y self + base_gauge_h self) (box_bottom self) in
  (mkRect (x0 - box_left self) (y0 - box_top self) (x1 - x0) (y1 - y0),
   mkRect (x0 - world_x self) (y0 - world_y self) (x1 - x0) (y1 - y0)).

(** * The X-Plane data source: a shallow embedding of [xp-data-source.c]

    The file keeps the telemetry in globals and feeds it from UDP
    packets: a 5-byte header [DATA*], then rows of 36 bytes, a 4-byte
    row id and 8 floats each.  A [float] is kept as the 32 bits [memcpy]
    moves; bytes are [Byte.byte]; multi-byte values are little-endian, as
    on the targets the program runs on.  The network, the allocator and
    the base class of data-source.c (not under src/) are parameters. *)
Module XPlane.

(** The bits of a [float]. *)
Definition float32 : Type := Z.

(** ** xp-data-source.h *)

Record Attitude := mkAttitude {
  pitch : float32; roll : float32; heading : float32; sideslip : float32
}.

Record Position := mkPosition {
  latitude : float32; longitude : float32; altitude : float32
}.

Record Airspeed := mkAirspeed {
  indicated_airspeed : float32; true_airspeed : float32;
  vertical : float32; groundspeed : float32
}.

Record Engine := mkEngine {
  rpm : float32; oil_press : float32; oil_temp : float32; egt : float32;
  cht : float32; man_press : float32; fuelflow : float32;
  fuel_press : float32; fuelQuantity : list float32; battery_volts : float32
}.

(** [XPDataSource]: [super.has_fix] and [port]. *)
Record XPDataSource := mkXP { has_fix : bool; port : Z }.

(** ** The globals of xp-data-source.c *)

Record Telemetry := mkTelemetry {
  attitude : Attitude; position : Position;
  airspeed : Airspeed; engine : Engine
}.

Definition RowParser : Type := list float32 → Telemetry → Telemetry.

Record Program := mkProgram {
  lookup_table : list (option RowParser);
  telemetry : Telemetry;
  sockfd : Z
}.

(** The initialisers [= {0}] and [= {NULL}], and [sockfd] at zero. *)
Definition telemetry0 : Telemetry :=
  mkTelemetry (mkAttitude 0 0 0 0) (mkPosition 0 0 0) (mkAirspeed 0 0 0 0)
              (mkEngine 0 0 0 0 0 0 0 0 [0; 0; 0; 0] 0).

Definition program0 : Program :=
  mkProgram (replicate 100 None) telemetry0 0.

Definition with_attitude (a : Attitude) (t : Telemetry) : Telemetry :=
  mkTelemetry a (position t) (airspeed t) (engine t).
Definition with_position (p : Position) (t : Telemetry) : Telemetry :=
  mkTelemetry (attitude t) p (airspeed t) (engine t).
Definition with_airspeed (a : Airspeed) (t : Telemetry) : Telemetry :=
  mkTelemetry (attitude t) (position t) a (engine t).
Definition with_engine (e : Engine) (t : Telemetry) : Telemetry :=
  mkTelemetry (attitude t) (position t) (airspeed t) e.

(** [values[i]], the array having 8 elements. *)
Definition at_ (values : list float32) (i : nat) : float32 :=
  default 0 (values !! i).

(** ** Row parsers *)

Definition parse_attitude : RowParser := λ values t,
  with_attitude (mkAttitude (at_ values 0) (at_ values 1) (at_ values 3)
                            (sideslip (attitude t))) t.

Definition parse_position : RowParser := λ values t,
  with_position (mkPosition (at_ values 0) (at_ values 1) (at_ values 2)) t.

Definition parse_airspeeds : RowParser := λ values t,
  with_airspeed (mkAirspeed (at_ values 0) (at_ values 2)
                            (vertical (airspeed t)) (at_ values 3)) t.

Definition parse_sideslip : RowParser := λ values t,
  with_attitude (mkAttitude (pitch (attitude t)) (roll (attitude t))
                            (heading (attitude t)) (at_ values 7)) t.

Definition set_engine (f : Engine → Engine) (t : Telemetry) : Telemetry :=
  with_engine (f (engine t)) t.

Definition parse_rpm : RowParser := λ values,
  set_engine (λ e, mkEngine (at_ values 0) (oil_press e) (oil_temp e) (egt e)
                            (cht e) (man_press e) (fuelflow e) (fuel_press e)
                            (fuelQuantity e) (battery_volts e)).

Definition parse_fuelflow : RowParser := λ values,
  set_engine (λ e, mkEngine (rpm e) (oil_press e) (oil_temp e) (egt e)
                            (cht e) (man_press e) (at_ values 0) (fuel_press e)
                            (fuelQuantity e) (battery_volts e)).

Definition parse_egt : RowParser := λ values,
  set_engine (λ e, mkEngine (rpm e) (oil_press e) (oil_temp e) (at_ values 0)
                            (cht e) (man_press e) (fuelflow e) (fuel_press e)
                            (fuelQuantity e) (battery_volts e)).

Definition parse_cht : RowParser := λ values,
  set_engine (λ e, mkEngine (rpm e) (oil_press e) (oil_temp e) (egt e)
                            (at_ values 0) (man_press e) (fuelflow e)
                            (fuel_press e) (fuelQuantity e) (battery_volts e)).

Definition parse_oil_press : RowParser := λ values,
  set_engine (λ e, mkEngine (rpm e) (at_ values 0) (oil_temp e) (egt e)
                            (cht e) (man_press e) (fuelflow e) (fuel_press e)
                            (fuelQuantity e) (battery_volts e)).

Definition parse_oil_temp : RowParser := λ values,
  set_engine (λ e, mkEngine (rpm e) (oil_press e) (at_ values 0) (egt e)
                            (cht e) (man_press e) (fuelflow e) (fuel_press e)
                            (fuelQuantity e) (battery_volts e)).

Definition parse_man_press : RowParser := λ values,
  set_engine (λ e, mkEngine (rpm e) (oil_press e) (oil_temp e) (egt e)
                            (cht e) (at_ values 0) (fuelflow e) (fuel_press e)
                            (fuelQuantity e) (battery_volts e)).

Definition parse_fuel_press : RowParser := λ values,
  set_engine (λ e, mkEngine (rpm e) (oil_press e) (oil_temp e) (egt e)
                            (cht e) (man_press e) (fuelflow e) (at_ values 0)
                            (fuelQuantity e) (battery_volts e)).

Definition parse_volts : RowParser := λ values,
  set_engine (λ e, mkEngine (rpm e) (oil_press e) (oil_temp e) (egt e)
                            (cht e) (man_press e) (fuelflow e) (fuel_press e)
                            (fuelQuantity e) (at_ values 0)).

Definition parse_vvi : RowParser := λ values t,
  with_airspeed (mkAirspeed (indicated_airspeed (airspeed t))
                            (true_airspeed (airspeed t)) (at_ values 2)
                            (groundspeed (airspeed t))) t.

(** The loop runs [i] from 3 down to 0. *)
Definition parse_fuel_quantity : RowParser := λ values,
  set_engine (λ e,
    mkEngine (rpm e) (oil_press e) (oil_temp e) (egt e) (cht e) (man_press e)
             (fuelflow e) (fuel_press e)
             (foldl (λ q i, <[i := at_ values i]> q) (fuelQuantity e)
                    [3; 2; 1; 0]%nat)
             (battery_volts e)).

Definition initialize_lookup_table (p : Program) : Program :=
  mkProgram
    (<[62%nat := Some parse_fuel_quantity]>
     (<[54%nat := Some parse_volts]>
     (<[51%nat := Some parse_fuel_press]>
     (<[50%nat := Some parse_oil_temp]>
     (<[49%nat := Some parse_oil_press]>
     (<[48%nat := Some parse_cht]>
     (<[47%nat := Some parse_egt]>
     (<[45%nat := Some parse_fuelflow]>
     (<[43%nat := Some parse_man_press]>
     (<[37%nat := Some parse_rpm]>
     (<[20%nat := Some parse_position]>
     (<[18%nat := Some parse_sideslip]>
     (<[17%nat := Some parse_attitude]>
     (<[4%nat := Some parse_vvi]>
     (<[3%nat := Some parse_airspeeds]> (lookup_table p))))))))))))))))
    (telemetry p) (sockfd p).

(** ** The surroundings *)

(** A [float] expression handed to the base class: the value of a stored
    [float], a quotient, a sum, a converted [int]. *)
Inductive FloatExpr :=
| FBits (bits : float32)
| FInt (n : Z)
| FDiv (a b : FloatExpr)
| FAdd (a b : FloatExpr).

(** The calls the file makes on libc and on data-source.c. *)
Inductive Call :=
| CallPerror (msg : string)
| CallPrintfListening (port : Z)
| CallPrintfUnsupported (row_id : Z)
| CallClose (fd : Z)
| CallFree
| SetLocation (latitude longitude altitude : FloatExpr)
| SetDynamics (airspeed vertical_speed slip_rad : FloatExpr)
| SetAttitude (roll pitch heading : FloatExpr)
| SetEngineData (rpm fuel_flow oil_temp oil_press cht fuel_px fuel_qty : FloatExpr).

(** What the system answers during [xp_data_source_new2]: whether
    [calloc] and [data_source_init] succeed, and the results of [socket]
    and [bind]. *)
Record Sys := mkSys {
  calloc_ok : bool;
  data_source_init_ok : bool;
  socket_result : Z;
  bind_result : Z
}.

(** What [recvfrom] finds: an error, or a datagram. *)
Inductive Datagram :=
| NoData
| Data (payload : list Byte.byte).

Definition BUFFER_SIZE : nat := 1024.

(** [recvfrom(sockfd, buffer, BUFFER_SIZE, ...)]: the datagram, cut to
    the buffer, overwrites the start of [buffer]; [stack] is what the
    uninitialised array held. *)
Definition recvfrom (stack : list Byte.byte) (d : Datagram) : Z * list Byte.byte :=
  match d with
  | NoData => (-1, stack)
  | Data payload =>
      let got := take BUFFER_SIZE payload in
      (Z.of_nat (length got), got ++ drop (length got) stack)
  end.

Definition uchar (c : Byte.byte) : Z := Z.of_N (Byte.to_N c).

(** [strncmp]: at most [n] characters, stopping after a NUL. *)
Fixpoint strncmp (s1 s2 : list Byte.byte) (n : nat) {struct n} : Z :=
  match n, s1, s2 with
  | S n', c1 :: s1', c2 :: s2' =>
      if uchar c1 =? uchar c2 then
        if uchar c1 =? 0 then 0 else strncmp s1' s2' n'
      else uchar c1 - uchar c2
  | _, _, _ => 0
  end.

(** The literal ["DATA*"], with its NUL. *)
Definition DATA_header : list Byte.byte :=
  [Byte.x44; Byte.x41; Byte.x54; Byte.x41; Byte.x2a; Byte.x00].

(** [memcpy] of 4 bytes at [off] into a 32-bit object. *)
Definition le32 (bs : list Byte.byte) : Z :=
  foldr (λ b acc, uchar b + 256 * acc) 0 bs.

Definition read32 (buffer : list Byte.byte) (off : Z) : Z :=
  le32 (take 4 (drop (Z.to_nat off) buffer)).

(** ** The functions *)

(** One turn of the loop over the rows. *)
Definition row_body (buffer : list Byte.byte) (tbl : list (option RowParser))
    (acc : Telemetry * list Call) (i : Z) : Telemetry * list Call :=
  let row_id := s32 (read32 buffer (5 + i * 36)) in
  let values := (λ k, read32 buffer (5 + i * 36 + 4 + 4 * k)) <$> seqZ 0 8 in
  if (row_id >=? 0) && (row_id <=? 62) then
    match tbl !! Z.to_nat row_id with
    | Some (Some parser) => (parser values acc.1, acc.2)
    | _ => (acc.1, acc.2 ++ [CallPrintfUnsupported row_id])
    end
  else (acc.1, acc.2 ++ [CallPrintfUnsupported row_id]).

(** What the frame hands to the base class once the rows are read. *)
Definition publish (t : Telemetry) : list Call :=
  [SetLocation (FBits (latitude (position t))) (FBits (longitude (position t)))
               (FBits (altitude (position t)));
   SetDynamics (FBits (indicated_airspeed (airspeed t)))
               (FDiv (FBits (vertical (airspeed t))) (FInt 60))
               (FBits (sideslip (attitude t)));
   SetAttitude (FBits (roll (attitude t))) (FBits (pitch (attitude t)))
               (FBits (heading (attitude t)));
   SetEngineData (FBits (rpm (engine t))) (FBits (fuelflow (engine t)))
                 (FBits (oil_temp (engine t))) (FBits (oil_press (engine t)))
                 (FBits (cht (engine t))) (FBits (fuel_press (engine t)))
                 (FAdd (FBits (at_ (fuelQuantity (engine t)) 0))
                       (FBits (at_ (fuelQuantity (engine t)) 1)))].

(** [xp_data_source_frame].  The result is [None] when the function
    stores past the end of [buffer]: with [bytes_received] at
    [BUFFER_SIZE] the terminating NUL goes to [buffer[1024]]. *)
Definition xp_data_source_frame (stack : list Byte.byte) (d : Datagram)
    (dt : Z) (self : XPDataSource) (p : Program)
  : option (bool * XPDataSource * Program * list Call) :=
  let '(bytes_received, buffer) := recvfrom stack d in
  if (bytes_received <? 0) || (bytes_received >? Z.of_nat BUFFER_SIZE) then
    Some (true, self, p, [])
  else if bytes_received =? Z.of_nat BUFFER_SIZE then None
  else
    let buffer := <[Z.to_nat bytes_received := Byte.x00]> buffer in
    if strncmp buffer DATA_header 5 =? 0 then
      let num_rows := Z.quot (s32 (bytes_received - 5)) 36 in
      let '(t, calls) :=
        foldl (row_body buffer (lookup_table p)) (telemetry p, [])
              (seqZ 0 num_rows) in
      Some (true, mkXP true (port self),
            mkProgram (lookup_table p) t (sockfd p),
            calls ++ publish t)
    else Some (true, self, p, []).

(** [xp_data_source_init]; the pointer returned is [self] or NULL.
    Of [data_source_init] (data-source.c, not under src/) only the
    verdict is kept. *)
Definition xp_data_source_init (sys : Sys) (self : XPDataSource) (port : Z)
    (p : Program) : option XPDataSource * Program * list Call :=
  if negb (data_source_init_ok sys) then (None, p, [])
  else
    let p := initialize_lookup_table p in
    let self := mkXP (has_fix self) port in
    let p := mkProgram (lookup_table p) (telemetry p) (socket_result sys) in
    if sockfd p <? 0 then (Some self, p, [CallPerror "Socket creation failed"])
    else if bind_result sys <? 0 then
      (Some self, p, [CallPerror "Bind failed"; CallClose (sockfd p)])
    else (Some self, p, [CallPrintfListening port]).

(** [xp_data_source_new2]: [calloc] zeroes the object. *)
Definition xp_data_source_new2 (sys : Sys) (port : Z) (p : Program)
  : option XPDataSource * Program * list Call :=
  if calloc_ok sys then
    match xp_data_source_init sys (mkXP false 0) port p with
    | (None, p, calls) => (None, p, calls ++ [CallFree])
    | r => r
    end
  else (None, p, []).

Definition xp_data_source_dispose (self : XPDataSource) (p : Program)
  : XPDataSource * Program * list Call :=
  (self, mkProgram (lookup_table p) (telemetry p) (-1), [CallClose (sockfd p)]).

(** ** Vocabulary of the properties *)

(** The bytes of a 32-bit value, and a row as it travels. *)
Definition byte_of (z : Z) : Byte.byte :=
  default Byte.x00 (Byte.of_N (Z.to_N (z mod 256))).

Definition le_bytes (z : Z) : list Byte.byte :=
  [byte_of z; byte_of (z / 2 ^ 8); byte_of (z / 2 ^ 16); byte_of (z / 2 ^ 24)].

(** A row: its id as the [int] read back, and its 8 values. *)
Definition Row : Type := Z * list float32.

Definition encode_row (r : Row) : list Byte.byte :=
  le_bytes (u32 r.1) ++ (r.2 ≫= le_bytes).

Definition well_formed_row (r : Row) : Prop :=
  INT_MIN ≤ r.1 ≤ INT_MAX ∧ length r.2 = 8%nat ∧
  Forall (λ v, 0 ≤ v < 2 ^ 32) r.2.

(** The parser the frame runs for a row id, if any. *)
Definition parser_for (tbl : list (option RowParser)) (row_id : Z)
  : option RowParser :=
  if (row_id >=? 0) && (row_id <=? 62) then
    mjoin (tbl !! Z.to_nat row_id)
  else None.

Definition apply_row (tbl : list (option RowParser)) (t : Telemetry) (r : Row)
  : Telemetry :=
  match parser_for tbl r.1 with Some parser => parser r.2 t | None => t end.

Definition unsupported (tbl : list (option RowParser)) (rows : list Row) : list Z :=
  filter (λ id, parser_for tbl id = None) (fst <$> rows).

(** The complete rows of a datagram, read straight off its bytes. *)
Definition rows_of (payload : list Byte.byte) : list Row :=
  (λ i, (s32 (read32 payload (5 + i * 36)),
         (λ k, read32 payload (5 + i * 36 + 4 + 4 * k)) <$> seqZ 0 8))
    <$> seqZ 0 (Z.quot (Z.of_nat (length payload) - 5) 36).

(** The header on the wire. *)
Definition DATA_prefix : list Byte.byte :=
  [Byte.x44; Byte.x41; Byte.x54; Byte.x41; Byte.x2a].

(** The row ids X-Plane rows are parsed for. *)
Definition parsed_ids : list Z :=
  [3; 4; 17; 18; 20; 37; 43; 45; 47; 48; 49; 50; 51; 54; 62].

End XPlane.

(** ** Laws of the plumbing *)

Section Plumbing.
Context {S : Type}.

Lemma out_eta {A} (r : Out S A) : mkOut (val r) (st r) (log r) = r.
Proof. by destruct r. Qed.

Lemma bind_eq {A B} (m : M S A) (f : A → M S B) (s : S) :
  (m ≫= f) s
  = mkOut (val (f (val (m s)) (st (m s))))
          (st (f (val (m s)) (st (m s))))
          (log (m s) ++ log (f (val (m s)) (st (m s)))).
Proof.
  unfold mbind, M_bind. destruct (m s) as [a s1 l1]. cbn.
  by destruct (f a s1).
Qed.

Lemma bind_get {B} (f : S → M S B) (s : S) : (get ≫= f) s = f s s.
Proof. rewrite bind_eq. cbn. apply out_eta. Qed.

Lemma bind_modify {B} (h : S → S) (f : unit → M S B) (s : S) :
  (modify h ≫= f) s = f tt (h s).
Proof. rewrite bind_eq. cbn. apply out_eta. Qed.

Lemma bind_put {B} (s' : S) (f : unit → M S B) (s : S) :
  (put s' ≫= f) s = f tt s'.
Proof. rewrite bind_eq. cbn. apply out_eta. Qed.

Lemma bind_ret {A B} (a : A) (f : A → M S B) (s : S) : (mret a ≫= f) s = f a s.
Proof. rewrite bind_eq. cbn. apply out_eta. Qed.

Lemma bind_emit {B} (e : Event) (f : unit → M S B) (s : S) :
  (emit e ≫= f) s = mkOut (val (f tt s)) (st (f tt s)) (e :: log (f tt s)).
Proof. by rewrite bind_eq. Qed.

Lemma ret_eq {A} (a : A) (s : S) : (mret a : M S A) s = mkOut a s [].
Proof. reflexivity. Qed.
End Plumbing.

(** ** Machine-integer facts *)

Lemma u32_id z : 0 ≤ z < 2 ^ 32 → u32 z = z.
Proof. intros Hz. unfold u32. apply Z.mod_small. lia. Qed.

Lemma u32_range z : 0 ≤ u32 z < 2 ^ 32.
Proof. unfold u32. apply Z.mod_pos_bound. lia. Qed.

Lemma u32_idem z : u32 (u32 z) = u32 z.
Proof. apply u32_id, u32_range. Qed.

Lemma u64_id z : 0 ≤ z < 2 ^ 64 → u64 z = z.
Proof. intros Hz. unfold u64. apply Z.mod_small. lia. Qed.

Lemma s32_id z : - 2 ^ 31 ≤ z < 2 ^ 31 → s32 z = z.
Proof. intros Hz. unfold s32. rewrite Z.mod_small; lia. Qed.

Lemma MAX_max a b : MAX a b = Z.max a b.
Proof. unfold MAX. destruct (Z.gtb_spec a b); lia. Qed.

Lemma clamp_bounds x lo hi : lo ≤ hi → lo ≤ clamp x lo hi ≤ hi.
Proof.
  intros Hle. unfold clamp.
  destruct (Z.ltb_spec x lo); [lia |].
  destruct (Z.gtb_spec x hi); lia.
Qed.

Lemma map_math_size_pow lvl : 0 ≤ lvl ≤ 15 → map_math_size lvl = 256 * 2 ^ lvl.
Proof.
  intros Hl. unfold map_math_size. rewrite Z.shiftl_mul_pow2 by lia.
  apply u32_id. split; [lia |].
  assert (2 ^ lvl ≤ 2 ^ 15) by (apply Z.pow_le_mono_r; lia). lia.
Qed.

Lemma map_math_size_bounds lvl : 0 ≤ lvl ≤ 15 → 256 ≤ map_math_size lvl ≤ 2 ^ 23.
Proof.
  intros Hl. rewrite map_math_size_pow by done.
  assert (2 ^ 0 ≤ 2 ^ lvl) by (apply Z.pow_le_mono_r; lia).
  assert (2 ^ lvl ≤ 2 ^ 15) by (apply Z.pow_le_mono_r; lia). lia.
Qed.

(** ** [map_gauge_set_viewport] *)

(** The function in one equation: the clamped request is compared with
    the current origin and committed when it differs. *)
Lemma set_viewport_eq x y animated g :
  map_gauge_set_viewport x y animated g
  = if (committed (level g) (base_gauge_w g) x =? world_x g)
       && (committed (level g) (base_gauge_h g) y =? world_y g)
    then mkOut false g [CallSetViewport (u32 x) (u32 y)]
    else mkOut true
           (with_dirty true
              (with_world (committed (level g) (base_gauge_w g) x)
                          (committed (level g) (base_gauge_h g) y) g))
           [CallSetViewport (u32 x) (u32 y)].
Proof.
  unfold map_gauge_set_viewport, committed. cbv zeta.
  rewrite bind_emit, bind_get.
  destruct (_ && _); [done |].
  by rewrite bind_eq, bind_modify.
Qed.

Lemma set_viewport_world_x x y animated g :
  world_x (st (map_gauge_set_viewport x y animated g))
  = committed (level g) (base_gauge_w g) x.
Proof.
  rewrite set_viewport_eq.
  destruct (_ =? world_x g) eqn:Ex; [| done].
  destruct (_ =? world_y g) eqn:Ey; [| done].
  symmetry. by apply Z.eqb_eq.
Qed.

Lemma set_viewport_world_y x y animated g :
  world_y (st (map_gauge_set_viewport x y animated g))
  = committed (level g) (base_gauge_h g) y.
Proof.
  rewrite set_viewport_eq.
  destruct (_ =? world_x g) eqn:Ex; [| done].
  destruct (_ =? world_y g) eqn:Ey; [| done].
  symmetry. by apply Z.eqb_eq.
Qed.

Lemma same_frame_refl g : same_frame g g.
Proof. by repeat split. Qed.

Lemma same_frame_trans g1 g2 g3 :
  same_frame g1 g2 → same_frame g2 g3 → same_frame g1 g3.
Proof. unfold same_frame. intros H1 H2. destruct_and!. repeat split; congruence. Qed.

Lemma set_viewport_frame x y animated g :
  same_frame g (st (map_gauge_set_viewport x y animated g)).
Proof. rewrite set_viewport_eq. by destruct (_ && _). Qed.


Lemma committed_in_bounds lvl extent x :
  0 ≤ lvl ≤ 15 → 0 ≤ extent < map_math_size lvl →
  0 ≤ committed lvl extent x ≤ map_math_size lvl - 1 - extent.
Proof.
  intros Hl He. pose proof (map_math_size_bounds lvl Hl) as Hs.
  unfold committed.
  rewrite (u32_id (map_math_size lvl - 1)) by lia.
  rewrite (u32_id (map_math_size lvl - 1 - extent)) by lia.
  pose proof (clamp_bounds (u32 x) 0 (map_math_size lvl - 1 - extent)) as Hc.
  rewrite u32_id; lia.
Qed.

Lemma set_viewport_in_bounds x y animated g :
  0 ≤ level g ≤ 15 → fits_world g →
  origin_in_bounds (st (map_gauge_set_viewport x y animated g)).
Proof.
  intros Hl [Hw Hh].
  destruct (set_viewport_frame x y animated g) as (El & _ & _ & _ & _ & Ew & Eh).
  unfold origin_in_bounds.
  rewrite set_viewport_world_x, set_viewport_world_y, El, Ew, Eh.
  pose proof (committed_in_bounds (level g) (base_gauge_w g) x Hl Hw).
  pose proof (committed_in_bounds (level g) (base_gauge_h g) y Hl Hh).
  lia.
Qed.

(** The three callers hand their target to [map_gauge_set_viewport]. *)
Lemma move_viewport_eq dx dy animated g :
  map_gauge_move_viewport dx dy animated g
  = map_gauge_set_viewport (u32 (world_x g + dx)) (u32 (world_y g + dy))
                           animated g.
Proof. unfold map_gauge_move_viewport. by rewrite bind_get. Qed.

Lemma manipulate_viewport_eq now dx dy animated g :
  map_gauge_manipulate_viewport now dx dy animated g
  = map_gauge_set_viewport (u32 (world_x g + dx)) (u32 (world_y g + dy))
      animated (with_roaming true (with_last_manipulation (u32 now) g)).
Proof.
  unfold map_gauge_manipulate_viewport.
  by rewrite !bind_modify, bind_get.
Qed.

Lemma center_on_marker_eq animated g :
  map_gauge_center_on_marker animated g
  = mkOut (val (map_gauge_set_viewport
                  (map_gauge_marker_left g - base_gauge_center_x g)
                  (map_gauge_marker_top g - base_gauge_center_y g) animated g))
          (st (map_gauge_set_viewport
                 (map_gauge_marker_left g - base_gauge_center_x g)
                 (map_gauge_marker_top g - base_gauge_center_y g) animated g))
          [CallCenterOnMarker;
           CallSetViewport (u32 (map_gauge_marker_left g - base_gauge_center_x g))
                           (u32 (map_gauge_marker_top g - base_gauge_center_y g))].
Proof.
  unfold map_gauge_center_on_marker.
  rewrite bind_emit, bind_get, !set_viewport_eq.
  unfold committed. rewrite !u32_idem.
  by destruct (_ && _).
Qed.

Lemma center_on_marker_log animated g :
  log (map_gauge_center_on_marker animated g)
  = [CallCenterOnMarker;
     CallSetViewport (u32 (map_gauge_marker_left g - base_gauge_center_x g))
                     (u32 (map_gauge_marker_top g - base_gauge_center_y g))].
Proof. by rewrite center_on_marker_eq. Qed.

(** ** C9: the [animated] flag *)

(** C9: whatever its [animated] argument, [map_gauge_set_viewport] is an
    instantaneous jump: when the clamped target differs from the origin
    the call returns true with the origin already on the target and the
    dirty flag raised, otherwise it returns false and leaves the gauge as
    it is; either way the origin is on the clamped target when the call
    returns, and nothing is left for later.  The flag is overwritten with
    [false] before it is read, so the runs with the flag on and off are
    equal: same return value, same state, same log. *)
Theorem set_viewport_ignores_animated (x y : Z) (a b : bool) (g : MapGauge) :
  map_gauge_set_viewport x y a g = map_gauge_set_viewport x y b g ∧
  map_gauge_set_viewport x y a g
  = (let tx := committed (level g) (base_gauge_w g) x in
     let ty := committed (level g) (base_gauge_h g) y in
     if (tx =? world_x g) && (ty =? world_y g)
     then mkOut false g [CallSetViewport (u32 x) (u32 y)]
     else mkOut true (with_dirty true (with_world tx ty g))
                [CallSetViewport (u32 x) (u32 y)]) ∧
  (world_x (st (map_gauge_set_viewport x y a g)),
   world_y (st (map_gauge_set_viewport x y a g)))
  = (committed (level g) (base_gauge_w g) x,
     committed (level g) (base_gauge_h g) y).
Proof.
  split; [by rewrite !set_viewport_eq |]. split; [by rewrite set_viewport_eq |].
  by rewrite set_viewport_world_x, set_viewport_world_y.
Qed.

(** ** C4: the committed origin *)

(** C4, as stated, fails on the gauge [map_gauge_new(512, 512)] returns:
    at level 0 the world is 256 pixels wide, the interval
    [0, 256 - 512] is empty, and a successful [map_gauge_set_viewport]
    commits the origin (10, 10). *)
Lemma set_viewport_wider_than_world :
  val (map_gauge_set_viewport 10 10 false new_gauge_512) = true ∧
  world_x (st (map_gauge_set_viewport 10 10 false new_gauge_512)) = 10 ∧
  ¬ origin_in_bounds (st (map_gauge_set_viewport 10 10 false new_gauge_512)).
Proof.
  split; [reflexivity |]. split; [reflexivity |].
  unfold origin_in_bounds. vm_compute. intros [[_ H] _]. by apply H.
Qed.

(** C4 (amended): when the gauge is smaller than the world of its level,
    the origin left by [map_gauge_set_viewport], and so by
    [map_gauge_move_viewport], [map_gauge_manipulate_viewport] and
    [map_gauge_center_on_marker], lies in
    [0, sizeForLevel(level) - width] x [0, sizeForLevel(level) - height],
    for every request and every level in [0, 15]. *)
Theorem viewport_origin_in_bounds (g : MapGauge) (x y dx dy now : Z) (animated : bool) :
  0 ≤ level g ≤ 15 → fits_world g →
  origin_in_bounds (st (map_gauge_set_viewport x y animated g)) ∧
  origin_in_bounds (st (map_gauge_move_viewport dx dy animated g)) ∧
  origin_in_bounds (st (map_gauge_manipulate_viewport now dx dy animated g)) ∧
  origin_in_bounds (st (map_gauge_center_on_marker animated g)).
Proof.
  intros Hl Hfit. split; [| split; [| split]].
  - by apply set_viewport_in_bounds.
  - rewrite move_viewport_eq. by apply set_viewport_in_bounds.
  - rewrite manipulate_viewport_eq. by apply set_viewport_in_bounds.
  - rewrite center_on_marker_eq. cbn [st]. by apply set_viewport_in_bounds.
Qed.

Lemma viewport_origin_in_bounds_witness :
  origin_in_bounds (st (map_gauge_set_viewport 9000 (-3) true (gauge_at 0 0 1000 1000))) ∧
  origin_in_bounds (st (map_gauge_move_viewport (-5) 7 true (gauge_at 0 0 1000 1000))) ∧
  origin_in_bounds (st (map_gauge_manipulate_viewport 42 (-5) 7 true (gauge_at 0 0 1000 1000))) ∧
  origin_in_bounds (st (map_gauge_center_on_marker true (gauge_at 0 0 1000 1000))).
Proof.
  apply (viewport_origin_in_bounds (gauge_at 0 0 1000 1000) 9000 (-3) (-5) 7 42 true).
  - vm_compute. split; discriminate.
  - vm_compute. repeat split; discriminate.
Defined.

(** ** C2: the target of [map_gauge_center_on_marker] *)

(** C2, on the code: for a 512x512 gauge whose 32x32 marker sits at
    (1000, 1000), centring the marker's centre asks for the origin
    (1000 - 256, 1000 - 256) = (744, 744); the code asks
    [map_gauge_set_viewport] for (728, 728) and commits it, so the
    marker's centre lands 16 pixels right of and below the viewport's. *)
Theorem center_on_marker_targets_box_corner :
  let g := gauge_at 0 0 1000 1000 in
  let r := map_gauge_center_on_marker true g in
  log r = [CallCenterOnMarker; CallSetViewport 728 728] ∧
  (world_x (st r), world_y (st r)) = (728, 728) ∧
  (mx (marker g) - Z.quot (base_gauge_w g) 2,
   my (marker g) - Z.quot (base_gauge_h g) 2) = (744, 744) ∧
  mx (marker (st r)) - world_x (st r) = Z.quot (base_gauge_w g) 2 + 16.
Proof. vm_compute. done. Qed.

(** ** C7: rejected and idle level requests *)

Section SetLevel.
Context `{MapMath}.

(** C7: [map_gauge_set_level] with a level above 15 returns failure and
    leaves the whole gauge as it was; with the level the gauge already
    shows (a valid one) it returns success and changes nothing.  In
    both cases no call is made. *)
Theorem set_level_rejects_or_idles (g : MapGauge) (now lvl : Z) :
  (15 < lvl →
     val (map_gauge_set_level now lvl g) = false ∧
     st (map_gauge_set_level now lvl g) = g ∧
     log (map_gauge_set_level now lvl g) = []) ∧
  (lvl = level g → lvl ≤ 15 →
     val (map_gauge_set_level now lvl g) = true ∧
     st (map_gauge_set_level now lvl g) = g ∧
     log (map_gauge_set_level now lvl g) = []).
Proof.
  unfold map_gauge_set_level. rewrite bind_get. split.
  - intros Hl.
    replace (lvl >? 15) with true by (symmetry; apply Z.gtb_lt; lia).
    done.
  - intros -> Hl.
    replace (level g >? 15) with false
      by (symmetry; rewrite Z.gtb_ltb; apply Z.ltb_ge; lia).
    rewrite Z.eqb_refl. cbn [negb]. by rewrite bind_ret.
Qed.
End SetLevel.

Lemma set_level_rejects_or_idles_witness :
  let g := gauge_at 0 0 1000 1000 in
  (15 < 16 ∧
     val (map_gauge_set_level (H := SpecProjection.map_math) 7 16 g) = false ∧
     st (map_gauge_set_level (H := SpecProjection.map_math) 7 16 g) = g ∧
     log (map_gauge_set_level (H := SpecProjection.map_math) 7 16 g) = []) ∧
  (5 = level g ∧ 5 ≤ 15 ∧
     val (map_gauge_set_level (H := SpecProjection.map_math) 7 5 g) = true ∧
     st (map_gauge_set_level (H := SpecProjection.map_math) 7 5 g) = g ∧
     log (map_gauge_set_level (H := SpecProjection.map_math) 7 5 g) = []).
Proof.
  intros g. split.
  - split; [lia |].
    apply (set_level_rejects_or_idles (H := SpecProjection.map_math) g 7 16). lia.
  - split; [reflexivity |]. split; [lia |].
    apply (set_level_rejects_or_idles (H := SpecProjection.map_math) g 7 5);
      [reflexivity | lia].
Defined.

(** ** C10: the size of the tile caches *)

(** The providers [map_gauge_init] appends, with the capacity as the
    code computes it. *)
Lemma init_providers cfg w h g :
  let cap := u64 (u64 (s32 (s32 (MAX (Z.quot w TILE_SIZE) 1
                                  * MAX (Z.quot w TILE_SIZE) 1) * 4)) * 2) in
  tile_providers (st (map_gauge_init cfg w h g))
  = (tile_providers g
       ++ [map_tile_provider_new
             (MAPS_HOME cfg +:+ (if HAVE_IGN_OACI_MAP cfg then "/ign-oaci" else "/osm-aip"))
             (if HAVE_IGN_OACI_MAP cfg then "jpg" else "png") cap])
      ++ [map_tile_provider_new (MAPS_HOME cfg +:+ "/osm") "png" cap].
Proof.
  unfold map_gauge_init. cbv zeta.
  destruct (HAVE_IGN_OACI_MAP cfg); by rewrite !bind_modify.
Qed.

(** C10, as stated, fails for a very wide gauge.  At [w = 8388608] the
    width spans 32768 tiles; the [int] product [32768 * 32768 * 4] is
    2^32 and wraps to 0, so both caches get capacity 0: neither
    [8 * 32768^2] nor at least 8. *)
Lemma init_cache_capacity_wraps :
  let g := st (map_gauge_init sample_config 8388608 512 calloc_gauge) in
  Z.max (Z.quot 8388608 256) 1 = 32768 ∧
  ¬ (4 * Z.max (Z.quot 8388608 256) 1 ^ 2 ≤ INT_MAX) ∧
  cache_tiles <$> tile_providers g = [0; 0] ∧
  cache_tiles <$> tile_providers g
  ≠ [8 * Z.max (Z.quot 8388608 256) 1 ^ 2; 8 * Z.max (Z.quot 8388608 256) 1 ^ 2] ∧
  ¬ Forall (λ c, 8 ≤ c) (cache_tiles <$> tile_providers g).
Proof.
  cbv zeta. split; [reflexivity |]. split; [vm_compute; intros E; by apply E |].
  split; [vm_compute; reflexivity |]. split; [vm_compute; discriminate |].
  intros E. apply Forall_cons in E as [E _]. vm_compute in E. by apply E.
Qed.

(** C10 (amended): for a gauge whose width keeps the [int] product in
    range, [4 * max(w / 256, 1)^2 <= INT_MAX], [map_gauge_init] gives
    both tile providers a cache of [8 * max(w / 256, 1)^2] entries; the
    figure is at least 8 and the gauge's height plays no part in it. *)
Theorem init_cache_capacity (cfg : BuildConfig) (w h h' : Z) (g : MapGauge) :
  4 * Z.max (Z.quot w 256) 1 ^ 2 ≤ INT_MAX →
  cache_tiles <$> tile_providers (st (map_gauge_init cfg w h g))
  = (cache_tiles <$> tile_providers g)
      ++ [8 * Z.max (Z.quot w 256) 1 ^ 2; 8 * Z.max (Z.quot w 256) 1 ^ 2] ∧
  8 ≤ 8 * Z.max (Z.quot w 256) 1 ^ 2 ∧
  tile_providers (st (map_gauge_init cfg w h' g))
  = tile_providers (st (map_gauge_init cfg w h g)).
Proof.
  intros Hov. unfold INT_MAX in Hov.
  rewrite !init_providers. cbv zeta. unfold TILE_SIZE. rewrite MAX_max.
  set (t := Z.max (Z.quot w 256) 1) in *.
  assert (Ht : 1 ≤ t) by (unfold t; lia).
  assert (Ht2 : 1 ≤ t * t) by nia.
  replace (t ^ 2) with (t * t) in * by lia.
  split; [| split; [lia | reflexivity]].
  rewrite (s32_id (t * t)) by lia.
  rewrite (s32_id (t * t * 4)) by lia.
  rewrite (u64_id (t * t * 4)) by lia.
  rewrite (u64_id (t * t * 4 * 2)) by lia.
  unfold map_tile_provider_new.
  rewrite (u64_id (t * t * 4 * 2)) by lia.
  replace (8 * (t * t)) with (t * t * 4 * 2) by lia.
  rewrite !fmap_app. cbn. by rewrite <- app_assoc.
Qed.

Lemma init_cache_capacity_witness :
  cache_tiles <$> tile_providers (st (map_gauge_init sample_config 100 512 calloc_gauge))
  = (cache_tiles <$> tile_providers calloc_gauge)
      ++ [8 * Z.max (Z.quot 100 256) 1 ^ 2; 8 * Z.max (Z.quot 100 256) 1 ^ 2] ∧
  8 ≤ 8 * Z.max (Z.quot 100 256) 1 ^ 2 ∧
  tile_providers (st (map_gauge_init sample_config 100 64 calloc_gauge))
  = tile_providers (st (map_gauge_init sample_config 100 512 calloc_gauge)).
Proof.
  apply (init_cache_capacity sample_config 100 512 64 calloc_gauge).
  vm_compute. discriminate.
Defined.

(** ** C1: the hysteresis test of [map_gauge_follow_marker] *)

(** C1, on the code: the test for the bottom edge adds the gauge's
    height to [world_x], not to [world_y].  With the origin at
    (744, 2000) and the marker's box well inside the viewport, more than
    10 pixels from all four edges, the function recenters and moves the
    origin; with the origin at (2000, 744) and the box touching the
    bottom edge it recenters nothing. *)
Theorem follow_marker_bottom_edge_reads_world_x :
  let g := gauge_at 744 2000 1000 2256 in
  let r := map_gauge_follow_marker g in
  let g' := gauge_at 2000 744 2256 1240 in
  let r' := map_gauge_follow_marker g' in
  (roaming g = false ∧ box_intersects_viewport g = true ∧ clear_of_edges g = true ∧
   log r = [CallCenterOnMarker; CallSetViewport 728 1984] ∧
   (world_x (st r), world_y (st r)) = (728, 1984)) ∧
  (roaming g' = false ∧ box_intersects_viewport g' = true ∧
   box_bottom g' = world_y g' + base_gauge_h g' ∧ clear_of_edges g' = false ∧
   log r' = [] ∧ (world_x (st r'), world_y (st r')) = (2000, 744)).
Proof. vm_compute. done. Qed.

(** ** [map_gauge_center_on_marker] and [map_gauge_follow_marker] *)

Lemma center_on_marker_frame animated g :
  same_frame g (st (map_gauge_center_on_marker animated g)).
Proof. rewrite center_on_marker_eq. apply set_viewport_frame. Qed.

Lemma with_marker_src_frame r g : same_frame g (with_marker_src r g).
Proof. by repeat split. Qed.

(** [map_gauge_follow_marker] stores the visible part of the marker and
    then either stops or recenters. *)
Lemma follow_marker_cases g :
  ∃ r, map_gauge_follow_marker g = mkOut true (with_marker_src r g) [] ∨
       map_gauge_follow_marker g
       = map_gauge_center_on_marker true (with_marker_src r g).
Proof.
  unfold map_gauge_follow_marker. rewrite bind_get.
  destruct (SDL_IntersectRect _ _ _) as [visible r]. exists r.
  rewrite bind_modify.
  destruct (negb visible); [by right |].
  destruct (_ || _); [by right | by left].
Qed.

Lemma follow_marker_frame g : same_frame g (st (map_gauge_follow_marker g)).
Proof.
  destruct (follow_marker_cases g) as [r [-> | ->]].
  - apply with_marker_src_frame.
  - eapply same_frame_trans; [apply (with_marker_src_frame r) |].
    apply center_on_marker_frame.
Qed.

Lemma recenters_center_on_marker animated g :
  recenters (log (map_gauge_center_on_marker animated g)) = 1%nat.
Proof. by rewrite center_on_marker_log. Qed.

Lemma follow_marker_recenters g :
  (recenters (log (map_gauge_follow_marker g)) ≤ 1)%nat.
Proof.
  destruct (follow_marker_cases g) as [r [-> | ->]].
  - cbn. lia.
  - by rewrite recenters_center_on_marker.
Qed.

Lemma recenters_app l1 l2 : recenters (l1 ++ l2) = (recenters l1 + recenters l2)%nat.
Proof. unfold recenters. by rewrite filter_app, length_app. Qed.

(** ** C5: the roaming timeout *)

Section Roaming.
Context `{MapMath}.

Lemma set_marker_position_eq now position g :
  map_gauge_set_marker_position now position g
  = if roaming g && (elapsed now g >? MANIPULATE_TIMEOUT)
    then
      let c := map_gauge_center_on_marker true (with_roaming false g) in
      let p := place_marker position (st c) in
      mkOut (val p) (st p) (log c ++ log p)
    else place_marker position g.
Proof.
  change (map_gauge_set_marker_position now position)
    with (self ← get;
          (if roaming self && (elapsed now self >? MANIPULATE_TIMEOUT)
           then modify (with_roaming false);;
                map_gauge_center_on_marker true;;
                mret tt
           else mret tt);;
          place_marker position).
  rewrite bind_get.
  destruct (_ && _); [| by rewrite bind_ret].
  assert (Hm : (modify (with_roaming false);;
                map_gauge_center_on_marker true;; mret tt) g
               = mkOut tt (st (map_gauge_center_on_marker true (with_roaming false g)))
                       (log (map_gauge_center_on_marker true (with_roaming false g)))).
  { rewrite bind_modify, bind_eq. cbn [val st log]. by rewrite app_nil_r. }
  rewrite bind_eq, Hm. done.
Qed.

Lemma place_marker_roaming position g :
  roaming g = true →
  let r := place_marker position g in
  roaming (st r) = true ∧ last_manipulation (st r) = last_manipulation g ∧
  world_x (st r) = world_x g ∧ world_y (st r) = world_y g ∧ log r = [].
Proof.
  intros Hr. cbv zeta. unfold place_marker. rewrite bind_get.
  destruct (map_math_geo_to_pixel position (level g)) as [rv [new_x new_y]].
  destruct (_ || _); [| done].
  rewrite bind_modify, bind_get. fields. rewrite Hr. cbn [negb].
  by rewrite bind_ret, bind_modify.
Qed.

Lemma place_marker_following position g :
  roaming g = false →
  let r := place_marker position g in
  roaming (st r) = false ∧ (recenters (log r) ≤ 1)%nat.
Proof.
  intros Hr. cbv zeta. unfold place_marker. rewrite bind_get.
  destruct (map_math_geo_to_pixel position (level g)) as [rv [new_x new_y]].
  destruct (_ || _); [| split; [done | cbn; lia]].
  rewrite bind_modify, bind_get. fields. rewrite Hr. cbn [negb].
  rewrite bind_eq, bind_modify. cbn [val st log].
  rewrite (bind_eq map_gauge_follow_marker). cbn [val st log].
  set (g1 := with_marker_pos _ _ g).
  destruct (follow_marker_frame g1) as (_ & _ & _ & Er & _).
  rewrite !ret_eq. fields. rewrite !app_nil_r. split.
  - by rewrite Er.
  - apply follow_marker_recenters.
Qed.

Lemma marker_update_while_roaming g now position :
  roaming g = true → elapsed now g ≤ MANIPULATE_TIMEOUT →
  let r := map_gauge_set_marker_position now position g in
  roaming (st r) = true ∧ last_manipulation (st r) = last_manipulation g ∧
  world_x (st r) = world_x g ∧ world_y (st r) = world_y g ∧ log r = [].
Proof.
  intros Hr He. cbv zeta. rewrite set_marker_position_eq, Hr.
  replace (elapsed now g >? MANIPULATE_TIMEOUT) with false
    by (symmetry; rewrite Z.gtb_ltb; apply Z.ltb_ge; lia).
  by apply place_marker_roaming.
Qed.

Lemma deliver_while_roaming updates : ∀ g,
  roaming g = true →
  Forall (λ u, elapsed u.1 g ≤ MANIPULATE_TIMEOUT) updates →
  let r := deliver updates g in
  roaming (st r) = true ∧ last_manipulation (st r) = last_manipulation g ∧
  world_x (st r) = world_x g ∧ world_y (st r) = world_y g ∧ log r = [].
Proof.
  induction updates as [| [now position] rest IH]; intros g Hr Hall; [done |].
  apply Forall_cons in Hall as [Hnow Hrest]. cbv zeta.
  cbn [deliver]. rewrite bind_eq. fields.
  destruct (marker_update_while_roaming g now position Hr Hnow)
    as (Hr1 & Hl1 & Hx1 & Hy1 & Hlog1).
  set (g1 := st (map_gauge_set_marker_position now position g)) in *.
  destruct (IH g1 Hr1) as (Hr2 & Hl2 & Hx2 & Hy2 & Hlog2).
  { eapply Forall_impl; [exact Hrest |]. intros u Hu. cbv beta in *.
    unfold elapsed in *. by rewrite Hl1. }
  rewrite Hlog1, Hlog2. repeat split; congruence.
Qed.

Lemma marker_update_after_timeout g now position :
  roaming g = true → MANIPULATE_TIMEOUT < elapsed now g →
  let r := map_gauge_set_marker_position now position g in
  roaming (st r) = false ∧ head (log r) = Some CallCenterOnMarker ∧
  (1 ≤ recenters (log r) ≤ 2)%nat.
Proof.
  intros Hr He. cbv zeta. rewrite set_marker_position_eq, Hr.
  replace (elapsed now g >? MANIPULATE_TIMEOUT) with true
    by (symmetry; apply Z.gtb_lt; lia).
  cbn [andb]. cbv zeta. cbn [val st log].
  set (c := map_gauge_center_on_marker true (with_roaming false g)).
  assert (Hc : roaming (st c) = false).
  { unfold c.
    by destruct (center_on_marker_frame true (with_roaming false g))
      as (_ & _ & _ & -> & _). }
  destruct (place_marker_following position (st c) Hc) as [Hp Hn].
  split; [done |]. split.
  - unfold c. by rewrite center_on_marker_log.
  - rewrite recenters_app. subst c.
    rewrite recenters_center_on_marker. lia.
Qed.

(** C5 (amended): after [map_gauge_manipulate_viewport] the gauge roams;
    marker updates that find at most 2000 ms elapsed keep it roaming,
    recenter nothing and leave the origin alone; the first update that
    finds more than 2000 ms elapsed switches to following and recenters
    at once, and the follow step of that same update recenters at most
    once more. *)
Theorem roaming_timeout (g : MapGauge) (t0 dx dy : Z) (animated : bool)
    (updates : list (Z * Geo)) (now : Z) (position : Geo) :
  let g1 := st (map_gauge_manipulate_viewport t0 dx dy animated g) in
  Forall (λ u, elapsed u.1 g1 ≤ MANIPULATE_TIMEOUT) updates →
  let r := deliver updates g1 in
  let r' := map_gauge_set_marker_position now position (st r) in
  (roaming g1 = true ∧ last_manipulation g1 = u32 t0) ∧
  (roaming (st r) = true ∧ recenters (log r) = 0%nat ∧
   world_x (st r) = world_x g1 ∧ world_y (st r) = world_y g1) ∧
  (MANIPULATE_TIMEOUT < elapsed now g1 →
   roaming (st r') = false ∧ head (log r') = Some CallCenterOnMarker ∧
   (1 ≤ recenters (log r') ≤ 2)%nat).
Proof.
  intros g1 Hall r r'.
  assert (Hg1 : roaming g1 = true ∧ last_manipulation g1 = u32 t0).
  { unfold g1. rewrite manipulate_viewport_eq.
    by destruct (set_viewport_frame (u32 (world_x g + dx)) (u32 (world_y g + dy))
                   animated (with_roaming true (with_last_manipulation (u32 t0) g)))
      as (_ & _ & _ & -> & -> & _). }
  destruct Hg1 as [Hr1 Hl1].
  destruct (deliver_while_roaming updates g1 Hr1 Hall) as (Hr & Hl & Hx & Hy & Hlog).
  fold r in Hr, Hl, Hx, Hy, Hlog.
  split; [done |]. split.
  - rewrite Hlog. done.
  - intros He. apply marker_update_after_timeout; [done |].
    unfold elapsed in *. by rewrite Hl.
Qed.
End Roaming.

Lemma roaming_timeout_witness :
  let g := gauge_at 728 728 1000 1000 in
  let M := SpecProjection.map_math in
  let updates := [(1500, ((1 # 8)%Q, (1 # 8)%Q)); (3000, ((1 # 4)%Q, (1 # 8)%Q))] in
  let g1 := st (map_gauge_manipulate_viewport 1000 5 5 false g) in
  let r := deliver (H := M) updates g1 in
  let r' := map_gauge_set_marker_position (H := M) 3001 ((1 # 2)%Q, (1 # 2)%Q) (st r) in
  Forall (λ u, elapsed u.1 g1 ≤ MANIPULATE_TIMEOUT) updates ∧
  MANIPULATE_TIMEOUT < elapsed 3001 g1 ∧
  (roaming g1 = true ∧ last_manipulation g1 = u32 1000) ∧
  (roaming (st r) = true ∧ recenters (log r) = 0%nat ∧
   world_x (st r) = world_x g1 ∧ world_y (st r) = world_y g1) ∧
  (roaming (st r') = false ∧ head (log r') = Some CallCenterOnMarker ∧
   (1 ≤ recenters (log r') ≤ 2)%nat).
Proof.
  intros g M updates g1 r r'.
  assert (Hall : Forall (λ u, elapsed u.1 g1 ≤ MANIPULATE_TIMEOUT) updates)
    by (repeat constructor; vm_compute; discriminate).
  assert (He : MANIPULATE_TIMEOUT < elapsed 3001 g1) by (vm_compute; reflexivity).
  destruct (roaming_timeout (H := M) g 1000 5 5 false updates 3001
              ((1 # 2)%Q, (1 # 2)%Q) Hall) as (A & B & C).
  split; [exact Hall |]. split; [exact He |]. split; [exact A |].
  split; [exact B | exact (C He)].
Defined.

(** C5, as stated, fails at the boundary: a marker update that finds
    exactly 2000 ms elapsed leaves the gauge roaming and recenters
    nothing, because the code asks for more than [MANIPULATE_TIMEOUT].
    And past the timeout one update can recenter twice: once for the
    timeout, once more when the follow step finds the moved marker
    outside the viewport. *)
Lemma marker_update_at_2000_ms_keeps_roaming :
  let M := SpecProjection.map_math in
  let g1 := st (map_gauge_manipulate_viewport 1000 5 5 false
                  (gauge_at 728 728 1000 1000)) in
  let r := map_gauge_set_marker_position (H := M) 3000 ((1 # 4)%Q, (1 # 8)%Q) g1 in
  let r' := map_gauge_set_marker_position (H := M) 3001 ((1 # 2)%Q, (1 # 2)%Q) g1 in
  (roaming g1 = true ∧ elapsed 3000 g1 = 2000 ∧
   roaming (st r) = true ∧ recenters (log r) = 0%nat) ∧
  (elapsed 3001 g1 = 2001 ∧ roaming (st r') = false ∧
   recenters (log r') = 2%nat).
Proof. vm_compute. done. Qed.

(** ** C6: the anchors of a level change *)

Lemma committed_id lvl extent x :
  0 ≤ lvl ≤ 15 → 0 ≤ extent → 0 ≤ x ≤ map_math_size lvl - 1 - extent →
  committed lvl extent x = x.
Proof.
  intros Hl He Hx. pose proof (map_math_size_bounds lvl Hl) as Hs.
  unfold committed.
  rewrite (u32_id (map_math_size lvl - 1)) by lia.
  rewrite (u32_id (map_math_size lvl - 1 - extent)) by lia.
  rewrite (u32_id x) by lia.
  unfold clamp.
  destruct (Z.ltb_spec x 0); [lia |].
  destruct (Z.gtb_spec x (map_math_size lvl - 1 - extent)); [lia |].
  apply u32_id. lia.
Qed.

Section LevelChange.
Context `{MapMath}.

(** Wherever it starts, [place_marker] leaves the marker on the pixel
    the projection gives, at the level it found. *)
Lemma place_marker_marker position g :
  let r := place_marker position g in
  level (st r) = level g ∧
  (mx (marker (st r)), my (marker (st r)))
  = (u32 (map_math_geo_to_pixel position (level g)).2.1,
     u32 (map_math_geo_to_pixel position (level g)).2.2).
Proof.
  cbv zeta. unfold place_marker. rewrite bind_get.
  destruct (map_math_geo_to_pixel position (level g)) as [rv [new_x new_y]].
  cbn [fst snd].
  destruct (negb (u32 new_x =? mx (marker g))) eqn:Ex.
  2: destruct (negb (u32 new_y =? my (marker g))) eqn:Ey.
  3: { apply negb_false_iff, Z.eqb_eq in Ex. apply negb_false_iff, Z.eqb_eq in Ey.
       cbn [orb]. rewrite ret_eq. fields. by rewrite Ex, Ey. }
  all: cbn [orb]; rewrite bind_modify, bind_get;
    set (g1 := with_marker_pos (u32 new_x) (u32 new_y) g);
    rewrite bind_eq, bind_modify, ret_eq; fields.
  all: destruct (negb (roaming g1)); [rewrite bind_eq | ]; rewrite !ret_eq; fields.
  all: try (destruct (follow_marker_frame g1) as (-> & -> & _)); done.
Qed.

Lemma set_marker_position_marker now position g :
  let r := map_gauge_set_marker_position now position g in
  level (st r) = level g ∧
  (mx (marker (st r)), my (marker (st r)))
  = (u32 (map_math_geo_to_pixel position (level g)).2.1,
     u32 (map_math_geo_to_pixel position (level g)).2.2).
Proof.
  cbv zeta. rewrite set_marker_position_eq.
  destruct (_ && _); [| apply place_marker_marker].
  cbv zeta. fields.
  set (c := map_gauge_center_on_marker true (with_roaming false g)).
  destruct (place_marker_marker position (st c)) as [-> ->].
  unfold c.
  by destruct (center_on_marker_frame true (with_roaming false g)) as (-> & _).
Qed.

(** A level change in one equation. *)
Lemma set_level_eq now lvl g :
  lvl ≤ 15 → lvl ≠ level g →
  let o := reproject (world_x g) (world_y g) (level g) lvl in
  let v := map_gauge_set_viewport o.1 o.2 false (with_level lvl g) in
  let p := map_gauge_set_marker_position now
             (map_math_pixel_to_geo (mx (marker g)) (my (marker g)) (level g))
             (st v) in
  map_gauge_set_level now lvl g = mkOut true (st p) (log v ++ log p).
Proof.
  intros Hl Hne. cbv zeta. unfold map_gauge_set_level, reproject.
  rewrite bind_get.
  replace (lvl >? 15) with false
    by (symmetry; rewrite Z.gtb_ltb; apply Z.ltb_ge; lia).
  replace (lvl =? level g) with false by (symmetry; apply Z.eqb_neq; done).
  cbn [negb].
  destruct (map_math_geo_to_pixel _ lvl) as [rv [new_x new_y]]. cbn [fst snd].
  rewrite bind_eq. rewrite bind_modify, bind_eq, bind_eq. fields.
  rewrite !ret_eq. fields. by rewrite !app_nil_r.
Qed.





End LevelChange.



(** A following gauge keeps the anchor when the marker update finds
    nothing to do: zooming from level 5 to level 6 with the origin at
    (728, 728) and the marker at (800, 800), the marker lands on
    (1600, 1600), well inside the viewport at (1456, 1456), and the
    origin stays on the re-projected pixel. *)
Lemma set_level_following_keeps_anchor :
  let M := SpecProjection.map_math in
  let g := gauge_at 728 728 800 800 in
  let r := map_gauge_set_level (H := M) 0 6 g in
  roaming g = false ∧ level g = 5 ∧ recenters (log r) = 0%nat ∧
  reproject (H := M) (world_x g) (world_y g) (level g) 6 = (1456, 1456) ∧
  (world_x (st r), world_y (st r)) = (1456, 1456) ∧
  (mx (marker (st r)), my (marker (st r))) = (1600, 1600).
Proof. vm_compute. repeat split; done. Qed.

(** A gauge wider than the new world is not brought inside it: the
    512-pixel gauge, roaming with its origin at (7000, 7000) on level 5,
    ends at (218, 218) on level 0, where the world is 256 pixels wide;
    the unsigned bound [255 - 512] wraps and nothing is cut down. *)
Lemma set_level_wider_than_world :
  let M := SpecProjection.map_math in
  let g := st (map_gauge_manipulate_viewport 1000 5 5 false
                 (gauge_at 6995 6995 1000 1000)) in
  let r := map_gauge_set_level (H := M) 1500 0 g in
  (roaming g, world_x g, world_y g, level g, base_gauge_w g)
  = (true, 7000, 7000, 5, 512) ∧
  map_math_size 0 = 256 ∧ recenters (log r) = 0%nat ∧
  (world_x (st r), world_y (st r)) = (218, 218) ∧
  ¬ (world_x (st r) + base_gauge_w g ≤ map_math_size 0).
Proof.
  vm_compute. split; [done |]. split; [done |]. split; [done |]. split; [done |].
  intros E. by apply E.
Qed.

(** ** C8: a failed growth of the patch array *)

Lemma with_apatches_restore n (g : MapGauge) :
  with_apatches (apatches (state g)) (with_apatches n g) = g.
Proof. destruct g as [? ? ? ? ? ? ? ? []]. done. Qed.

(** When the frame needs more patches than are allocated, the update
    starts by asking [realloc] for [tile_span] entries. *)
Lemma update_state_asks_realloc env dt w :
  apatches (state (gauge w)) < tile_span (gauge w) →
  head (log (map_gauge_update_state env dt w))
  = Some (CallRealloc (tile_span (gauge w))).
Proof.
  intros Hspan. unfold map_gauge_update_state. rewrite bind_get. cbv zeta.
  replace (tile_span (gauge w) >? _) with true by (symmetry; apply Z.gtb_lt; lia).
  rewrite bind_eq. rewrite bind_modify, bind_emit. done.
Qed.

(** C8: when the patch array must grow and [realloc] fails,
    [map_gauge_update_state] returns with the world exactly as it found
    it: patch array, patch count, reference counts and the restored
    allocated size; the only trace is the [realloc] request.  Whatever
    the next frame brings, its update asks for the same growth again. *)
Theorem update_state_realloc_failure (env : Env) (dt : Z) (w : World) :
  apatches (state (gauge w)) < tile_span (gauge w) →
  realloc_ok env (tile_span (gauge w)) = false →
  let r := map_gauge_update_state env dt w in
  st r = w ∧
  log r = [CallRealloc (tile_span (gauge w))] ∧
  (patches (state (gauge (st r))) = patches (state (gauge w)) ∧
   npatches (state (gauge (st r))) = npatches (state (gauge w)) ∧
   layer_refs (st r) = layer_refs w ∧
   apatches (state (gauge (st r))) = apatches (state (gauge w))) ∧
  (∀ env' dt',
     head (log (map_gauge_update_state env' dt' (st r)))
     = Some (CallRealloc (tile_span (gauge w)))).
Proof.
  intros Hspan Hfail. cbv zeta.
  assert (Hst : st (map_gauge_update_state env dt w) = w ∧
                log (map_gauge_update_state env dt w)
                = [CallRealloc (tile_span (gauge w))]).
  { unfold map_gauge_update_state. rewrite bind_get. cbv zeta.
    replace (tile_span (gauge w) >? _) with true by (symmetry; apply Z.gtb_lt; lia).
    rewrite bind_eq. rewrite bind_modify, bind_emit, Hfail, bind_modify, !ret_eq.
    fields. rewrite ret_eq. fields.
    split; [| done].
    destruct w as [g refs]. fields. f_equal.
    apply (with_apatches_restore (tile_span g) g). }
  destruct Hst as [-> ->]. split; [done |]. split; [done |]. split; [done |].
  intros env' dt'. by apply update_state_asks_realloc.
Qed.

Lemma update_state_realloc_failure_witness :
  let env := mkEnv (λ _ _ _ _, Some 1%positive) (λ _, false)
                   (mkPatch 1%positive zero_rect zero_rect) None in
  let w := mkWorld (gauge_at 100 100 356 356) ∅ in
  let r := map_gauge_update_state env 16 w in
  (apatches (state (gauge w)) < tile_span (gauge w) ∧
   realloc_ok env (tile_span (gauge w)) = false) ∧
  st r = w ∧
  log r = [CallRealloc (tile_span (gauge w))] ∧
  (patches (state (gauge (st r))) = patches (state (gauge w)) ∧
   npatches (state (gauge (st r))) = npatches (state (gauge w)) ∧
   layer_refs (st r) = layer_refs w ∧
   apatches (state (gauge (st r))) = apatches (state (gauge w))) ∧
  (∀ env' dt',
     head (log (map_gauge_update_state env' dt' (st r)))
     = Some (CallRealloc (tile_span (gauge w)))).
Proof.
  intros env w r.
  assert (H1 : apatches (state (gauge w)) < tile_span (gauge w))
    by (vm_compute; reflexivity).
  assert (H2 : realloc_ok env (tile_span (gauge w)) = false) by reflexivity.
  split; [exact (conj H1 H2) |].
  exact (update_state_realloc_failure env 16 w H1 H2).
Defined.

(** ** C3: the patches of a frame *)

Lemma query_providers_hit env ps lvl tx ty layer :
  (∃ p, p ∈ ps ∧ is_Some (map_tile_provider_get_tile env p lvl tx ty)) →
  is_Some (query_providers env ps lvl tx ty layer).
Proof.
  intros (p & Hp & Hhit). revert layer.
  induction ps as [| q ps IH]; intros layer; [by apply elem_of_nil in Hp |].
  cbn [query_providers].
  destruct (map_tile_provider_get_tile env q lvl tx ty) as [l |] eqn:Eq; [done |].
  apply elem_of_cons in Hp as [-> | Hp].
  - rewrite Eq in Hhit. by destruct Hhit.
  - by apply IH.
Qed.

(** With two non-empty operands the rectangle stored at the destination
    beforehand plays no part. *)
Lemma intersect_ignores_slot A B r r' :
  SDL_RectEmpty A = false → SDL_RectEmpty B = false →
  SDL_IntersectRect A B r = SDL_IntersectRect A B r'.
Proof. intros HA HB. unfold SDL_IntersectRect. by rewrite HA, HB. Qed.

(** One turn of the inner loop: a miss is reported and changes nothing,
    a hit writes the next slot and takes a reference. *)
Lemma tile_body_cases env vp ty tx layer g arr n refs :
  let w := mkWorld (with_patches arr n g) refs in
  tile_body env vp ty tx layer w
    = mkOut None w [TileMissing tx ty (level g)] ∨
  ∃ l s d,
    query_providers env (tile_providers g) (level g) tx ty layer = Some l ∧
    (SDL_RectEmpty vp = false →
     d = mkRect (s32 (rx (SDL_IntersectRect vp (tile_rect tx ty) zero_rect).2 - world_x g))
                (s32 (ry (SDL_IntersectRect vp (tile_rect tx ty) zero_rect).2 - world_y g))
                (rw (SDL_IntersectRect vp (tile_rect tx ty) zero_rect).2)
                (rh (SDL_IntersectRect vp (tile_rect tx ty) zero_rect).2)) ∧
    tile_body env vp ty tx layer w
    = mkOut (Some l)
            (mkWorld (with_patches (<[n := mkPatch l s d]> arr) (S n) g)
                     (generic_layer_ref l refs)) [].
Proof.
  cbv zeta. unfold tile_body. rewrite bind_get. fields.
  destruct (query_providers _ _ _ _ _ _) as [l |] eqn:Eq.
  - right.
    set (slot := src (default (uninit_patch env) (arr !! n))).
    destruct (SDL_IntersectRect vp (tile_rect tx ty) slot) as [vis r] eqn:Er.
    eexists l, _, _. split; [done |]. split.
    + intros Hvp.
      rewrite (intersect_ignores_slot vp (tile_rect tx ty) zero_rect slot) by done.
      rewrite Er. reflexivity.
    + by rewrite bind_put, ret_eq.
  - left. by rewrite bind_emit, ret_eq.
Qed.

(** The inner loop over a row.  Whatever the providers answer, the
    count grows by at most one per tile. *)
Lemma row_loop_bound env vp ty g xs : ∀ layer arr n refs,
  ∃ layer' arr' n' refs' lg,
    for_each xs (tile_body env vp ty) layer (mkWorld (with_patches arr n g) refs)
    = mkOut layer' (mkWorld (with_patches arr' n' g) refs') lg ∧
    (n ≤ n' ≤ n + length xs)%nat.
Proof.
  induction xs as [| x xs IH]; intros layer arr n refs.
  - exists layer, arr, n, refs, []. split; [done | cbn; lia].
  - cbn [for_each]. rewrite bind_eq.
    destruct (tile_body_cases env vp ty x layer g arr n refs) as [-> | (l & s & d & _ & _ & ->)];
      fields.
    + destruct (IH None arr n refs) as (layer' & arr' & n' & refs' & lg & -> & Hn).
      eexists _, _, _, _, _. split; [done | cbn [length]; lia].
    + destruct (IH (Some l) (<[n := mkPatch l s d]> arr) (S n) (generic_layer_ref l refs))
        as (layer' & arr' & n' & refs' & lg & -> & Hn).
      eexists _, _, _, _, _. split; [done | cbn [length]; lia].
Qed.

(** When every tile of the row hits, each one adds its patch. *)
Lemma row_loop_hits env vp ty g xs : ∀ layer arr n refs,
  SDL_RectEmpty vp = false →
  (∀ tx, tx ∈ xs →
     ∃ p, p ∈ tile_providers g ∧
          is_Some (map_tile_provider_get_tile env p (level g) tx ty)) →
  (n + length xs ≤ length arr)%nat →
  ∃ layer' arr' refs' lg,
    for_each xs (tile_body env vp ty) layer (mkWorld (with_patches arr n g) refs)
    = mkOut layer' (mkWorld (with_patches arr' (n + length xs) g) refs') lg ∧
    length arr' = length arr ∧
    dst <$> take (n + length xs) arr'
    = (dst <$> take n arr)
        ++ ((λ tx,
               mkRect (s32 (rx (SDL_IntersectRect vp (tile_rect tx ty) zero_rect).2 - world_x g))
                      (s32 (ry (SDL_IntersectRect vp (tile_rect tx ty) zero_rect).2 - world_y g))
                      (rw (SDL_IntersectRect vp (tile_rect tx ty) zero_rect).2)
                      (rh (SDL_IntersectRect vp (tile_rect tx ty) zero_rect).2)) <$> xs).
Proof.
  induction xs as [| x xs IH]; intros layer arr n refs Hvp Hhit Hlen.
  - exists layer, arr, refs, []. cbn [length fmap list_fmap for_each].
    rewrite Nat.add_0_r, app_nil_r. done.
  - cbn [for_each]. rewrite bind_eq. cbn [length] in Hlen.
    destruct (tile_body_cases env vp ty x layer g arr n refs)
      as [Hmiss | (l & s & d & _ & Hd & ->)].
    { exfalso. unfold tile_body in Hmiss. rewrite bind_get in Hmiss. fields.
      cbn [gauge tile_providers level] in Hmiss.
      destruct (query_providers_hit env (tile_providers g) (level g) x ty layer)
        as [l Hl]; [apply Hhit; by left |].
      change (tile_providers (with_patches arr n g)) with (tile_providers g) in Hmiss.
      change (level (with_patches arr n g)) with (level g) in Hmiss.
      rewrite Hl in Hmiss.
      destruct (SDL_IntersectRect vp (tile_rect x ty) _) as [vis r].
      rewrite bind_put, ret_eq in Hmiss. discriminate. }
    fields.
    destruct (IH (Some l) (<[n := mkPatch l s d]> arr) (S n) (generic_layer_ref l refs))
      as (layer' & arr' & refs' & lg & -> & Hlen' & Hdst); [done | | |].
    { intros tx Htx. apply Hhit. by right. }
    { rewrite length_insert. lia. }
    rewrite length_insert in Hlen'.
    exists layer', arr', refs', ([] ++ lg).
    replace (n + length (x :: xs))%nat with (S n + length xs)%nat by (cbn [length]; lia).
    split; [done |]. split; [done |].
    rewrite Hdst.
    rewrite (take_S_r _ n (mkPatch l s d))
      by (apply list_lookup_insert_eq; lia).
    rewrite take_insert_ge by lia.
    rewrite fmap_app, <- app_assoc. cbn [fmap list_fmap app dst].
    by rewrite (Hd Hvp).
Qed.

(** The outer loop over the rows. *)
Lemma frame_loop_bound env vp g xs ys : ∀ layer arr n refs,
  ∃ layer' arr' n' refs' lg,
    for_each ys (λ ty layer, for_each xs (tile_body env vp ty) layer) layer
             (mkWorld (with_patches arr n g) refs)
    = mkOut layer' (mkWorld (with_patches arr' n' g) refs') lg ∧
    (n ≤ n' ≤ n + length ys * length xs)%nat.
Proof.
  induction ys as [| y ys IH]; intros layer arr n refs.
  - exists layer, arr, n, refs, []. split; [done | cbn; lia].
  - cbn [for_each]. rewrite bind_eq.
    destruct (row_loop_bound env vp y g xs layer arr n refs)
      as (layer1 & arr1 & n1 & refs1 & lg1 & -> & Hn1). fields.
    destruct (IH layer1 arr1 n1 refs1) as (layer' & arr' & n' & refs' & lg & -> & Hn).
    eexists _, _, _, _, _. split; [done | cbn [length]; lia].
Qed.

Lemma frame_loop_hits env vp g xs ys : ∀ layer arr n refs,
  SDL_RectEmpty vp = false →
  (∀ tx ty, tx ∈ xs → ty ∈ ys →
     ∃ p, p ∈ tile_providers g ∧
          is_Some (map_tile_provider_get_tile env p (level g) tx ty)) →
  (n + length ys * length xs ≤ length arr)%nat →
  ∃ layer' arr' refs' lg,
    for_each ys (λ ty layer, for_each xs (tile_body env vp ty) layer) layer
             (mkWorld (with_patches arr n g) refs)
    = mkOut layer' (mkWorld (with_patches arr' (n + length ys * length xs) g) refs') lg ∧
    length arr' = length arr ∧
    dst <$> take (n + length ys * length xs) arr'
    = (dst <$> take n arr)
        ++ (ys ≫= λ ty,
              (λ tx,
                 mkRect (s32 (rx (SDL_IntersectRect vp (tile_rect tx ty) zero_rect).2 - world_x g))
                        (s32 (ry (SDL_IntersectRect vp (tile_rect tx ty) zero_rect).2 - world_y g))
                        (rw (SDL_IntersectRect vp (tile_rect tx ty) zero_rect).2)
                        (rh (SDL_IntersectRect vp (tile_rect tx ty) zero_rect).2)) <$> xs).
Proof.
  induction ys as [| y ys IH]; intros layer arr n refs Hvp Hhit Hlen.
  - exists layer, arr, refs, []. cbn [length for_each Nat.mul].
    rewrite Nat.add_0_r. cbn. by rewrite app_nil_r.
  - cbn [for_each]. rewrite bind_eq. cbn [length Nat.mul] in Hlen.
    destruct (row_loop_hits env vp y g xs layer arr n refs)
      as (layer1 & arr1 & refs1 & lg1 & -> & Hlen1 & Hdst1); [done | | lia |].
    { intros tx Htx. apply Hhit; [done | by left]. }
    fields.
    destruct (IH layer1 arr1 (n + length xs)%nat refs1)
      as (layer' & arr' & refs' & lg & -> & Hlen' & Hdst); [done | | lia |].
    { intros tx ty Htx Hty. apply Hhit; [done | by right]. }
    exists layer', arr', refs', (lg1 ++ lg).
    replace (n + length (y :: ys) * length xs)%nat
      with (n + length xs + length ys * length xs)%nat by (cbn [length]; lia).
    split; [done |]. split; [congruence |].
    rewrite Hdst, Hdst1, bind_cons, <- app_assoc. done.
Qed.

(** *** The update in one equation *)

Lemma update_state_eq env dt w :
  map_gauge_update_state env dt w
  = let g := gauge w in
    if tile_span g >? apatches (state g) then
      if realloc_ok env (tile_span g) then
        let w1 := mkWorld
                    (with_patches
                       (take (Z.to_nat (tile_span g))
                             (patches (state g)
                                ++ replicate (Z.to_nat (tile_span g)) (uninit_patch env)))
                       (npatches (state g)) (with_apatches (tile_span g) g))
                    (layer_refs w) in
        mkOut tt (st (rebuild_patches env g w1))
              (CallRealloc (tile_span g) :: log (rebuild_patches env g w1))
      else mkOut tt w [CallRealloc (tile_span g)]
    else rebuild_patches env g w.
Proof.
  cbv zeta.
  change (map_gauge_update_state env dt)
    with (w ← get;
          grown ←
            (if tile_span (gauge w) >? apatches (state (gauge w)) then
               modify (λ w', mkWorld (with_apatches (tile_span (gauge w)) (gauge w'))
                                     (layer_refs w'));;
               emit (CallRealloc (tile_span (gauge w)));;
               if realloc_ok env (tile_span (gauge w)) then
                 modify (λ w',
                   mkWorld (with_patches
                              (take (Z.to_nat (tile_span (gauge w)))
                                    (patches (state (gauge w'))
                                       ++ replicate (Z.to_nat (tile_span (gauge w)))
                                                    (uninit_patch env)))
                              (npatches (state (gauge w'))) (gauge w'))
                           (layer_refs w'));;
                 mret true
               else
                 modify (λ w', mkWorld (with_apatches (apatches (state (gauge w)))
                                                      (gauge w'))
                                       (layer_refs w'));;
                 mret false
             else mret true);
          if negb grown then mret tt else rebuild_patches env (gauge w)).
  rewrite bind_get.
  destruct (tile_span (gauge w) >? apatches (state (gauge w))).
  - rewrite bind_eq. rewrite bind_modify, bind_emit.
    destruct (realloc_ok env (tile_span (gauge w))).
    + rewrite bind_modify, !ret_eq. fields. cbn [negb].
      destruct (rebuild_patches env (gauge w) _) as [[] s l]. done.
    + rewrite bind_modify, !ret_eq. fields. rewrite ret_eq.
      destruct w as [g refs]. fields. do 2 f_equal.
      apply (with_apatches_restore (tile_span g) g).
  - by rewrite bind_ret.
Qed.

Lemma update_marker_patch_live vp g :
  live_patches (update_marker_patch vp g) = live_patches g.
Proof.
  unfold update_marker_patch.
  destruct (SDL_IntersectRect _ _ _) as [[] r]; done.
Qed.

Lemma with_patches_eta (g : MapGauge) :
  with_patches (patches (state g)) (npatches (state g)) g = g.
Proof. destruct g as [? ? ? ? ? ? ? ? []]. done. Qed.

(** Rebuilding never yields more patches than the loops visit tiles. *)
Lemma rebuild_patches_bound env self w :
  (length (live_patches (gauge (st (rebuild_patches env self w))))
   ≤ length (seqZ (tl_tile_y self) (br_tile_y self - tl_tile_y self + 1))
     * length (seqZ (tl_tile_x self) (br_tile_x self - tl_tile_x self + 1)))%nat.
Proof.
  unfold rebuild_patches. rewrite !bind_modify, bind_eq. fields.
  set (ys := seqZ (tl_tile_y self) _). set (xs := seqZ (tl_tile_x self) _).
  set (refs := unref_all _ _).
  destruct (frame_loop_bound env (map_gauge_viewport self) (gauge w) xs ys
              (uninit_layer env) (patches (state (gauge w))) 0%nat refs)
    as (layer' & arr' & n' & refs' & lg & -> & Hn).
  fields. unfold modify. fields. rewrite update_marker_patch_live.
  unfold live_patches. fields. rewrite length_take. lia.
Qed.

(** *** The geometry of a frame *)

Lemma tile_range g :
  viewport_fits_int g →
  tl_tile_x g = world_x g / 256 ∧
  br_tile_x g = (world_x g + base_gauge_w g - 1) / 256 ∧
  tl_tile_y g = world_y g / 256 ∧
  br_tile_y g = (world_y g + base_gauge_h g - 1) / 256.
Proof.
  intros (Hw & Hh & Hx & Hy & Hxw & Hyh). unfold INT_MAX in *.
  unfold tl_tile_x, br_tile_x, tl_tile_y, br_tile_y, lastx, lasty, TILE_SIZE.
  rewrite (u32_id (world_x g + base_gauge_w g)) by lia.
  rewrite (u32_id (world_y g + base_gauge_h g)) by lia.
  rewrite (u32_id (world_x g + base_gauge_w g - 1)) by lia.
  rewrite (u32_id (world_y g + base_gauge_h g - 1)) by lia.
  assert (∀ a, 0 ≤ a < 2 ^ 32 → u64 (a / 256) = a / 256) as Hdiv.
  { intros a Ha. apply u64_id.
    pose proof (Z.div_pos a 256). pose proof (Z.div_le_upper_bound a 256 (2 ^ 32)).
    lia. }
  rewrite !Hdiv by lia. done.
Qed.

Lemma tile_span_count g :
  viewport_fits_int g →
  tile_span g
  = (br_tile_x g - tl_tile_x g + 1) * (br_tile_y g - tl_tile_y g + 1) ∧
  0 < br_tile_x g - tl_tile_x g + 1 < 2 ^ 24 ∧
  0 < br_tile_y g - tl_tile_y g + 1 < 2 ^ 24.
Proof.
  intros Hv. destruct (tile_range g Hv) as (Etx & Ebx & Ety & Eby).
  destruct Hv as (Hw & Hh & Hx & Hy & Hxw & Hyh). unfold INT_MAX in *.
  unfold tile_span, x_tile_span, y_tile_span. rewrite Etx, Ebx, Ety, Eby.
  assert (world_x g / 256 ≤ (world_x g + base_gauge_w g - 1) / 256)
    by (apply Z.div_le_mono; lia).
  assert (world_y g / 256 ≤ (world_y g + base_gauge_h g - 1) / 256)
    by (apply Z.div_le_mono; lia).
  assert (0 ≤ world_x g / 256) by (apply Z.div_pos; lia).
  assert (0 ≤ world_y g / 256) by (apply Z.div_pos; lia).
  assert ((world_x g + base_gauge_w g - 1) / 256 < 2 ^ 23)
    by (apply Z.div_lt_upper_bound; lia).
  assert ((world_y g + base_gauge_h g - 1) / 256 < 2 ^ 23)
    by (apply Z.div_lt_upper_bound; lia).
  set (a := (world_x g + base_gauge_w g - 1) / 256 - world_x g / 256) in *.
  set (b := (world_y g + base_gauge_h g - 1) / 256 - world_y g / 256) in *.
  rewrite (u64_id a), (u64_id b), (u64_id (a + 1)), (u64_id (b + 1)) by lia.
  split; [| lia]. apply u64_id. nia.
Qed.

(** Away from overflow [SDL_IntersectRect] of two non-empty rectangles
    is the intersection of the integer intervals on each axis. *)
Lemma intersect_plain A B r :
  0 < rw A → 0 < rh A → 0 < rw B → 0 < rh B →
  0 ≤ rx A → 0 ≤ ry A → 0 ≤ rx B → 0 ≤ ry B →
  rx A + rw A ≤ INT_MAX → ry A + rh A ≤ INT_MAX →
  rx B + rw B ≤ INT_MAX → ry B + rh B ≤ INT_MAX →
  (SDL_IntersectRect A B r).2
  = mkRect (Z.max (rx A) (rx B)) (Z.max (ry A) (ry B))
           (Z.min (rx A + rw A) (rx B + rw B) - Z.max (rx A) (rx B))
           (Z.min (ry A + rh A) (ry B + rh B) - Z.max (ry A) (ry B)).
Proof.
  unfold INT_MAX. intros. unfold SDL_IntersectRect, SDL_RectEmpty.
  replace (rw A <=? 0) with false by (symmetry; apply Z.leb_gt; lia).
  replace (rh A <=? 0) with false by (symmetry; apply Z.leb_gt; lia).
  replace (rw B <=? 0) with false by (symmetry; apply Z.leb_gt; lia).
  replace (rh B <=? 0) with false by (symmetry; apply Z.leb_gt; lia).
  cbn [orb]. cbv zeta. cbn [snd].
  rewrite (s32_id (rx A + rw A)), (s32_id (rx B + rw B)) by lia.
  rewrite (s32_id (ry A + rh A)), (s32_id (ry B + rh B)) by lia.
  destruct (Z.gtb_spec (rx B) (rx A));
    destruct (Z.ltb_spec (rx B + rw B) (rx A + rw A));
    destruct (Z.gtb_spec (ry B) (ry A));
    destruct (Z.ltb_spec (ry B + rh B) (ry A + rh A));
    rewrite !s32_id by lia; f_equal; lia.
Qed.

(** A viewport pixel lies in the destination rectangle of a tile of the
    frame exactly when the world pixel under it lies in that tile. *)
Lemma patch_dst_in g tx ty px py :
  viewport_fits_int g →
  tl_tile_x g ≤ tx ≤ br_tile_x g → tl_tile_y g ≤ ty ≤ br_tile_y g →
  in_rect (patch_dst g tx ty) px py ↔
  in_rect (viewport_local g) px py ∧
  256 * tx ≤ world_x g + px < 256 * tx + 256 ∧
  256 * ty ≤ world_y g + py < 256 * ty + 256.
Proof.
  intros Hv Htx Hty. destruct (tile_range g Hv) as (Etx & Ebx & Ety & Eby).
  rewrite Etx, Ebx in Htx. rewrite Ety, Eby in Hty.
  destruct Hv as (Hw & Hh & Hx & Hy & Hxw & Hyh). unfold INT_MAX in *.
  assert (0 ≤ tx ∧ world_x g < 256 * tx + 256 ∧
          256 * tx ≤ world_x g + base_gauge_w g - 1) as (Htx0 & Htx1 & Htx2).
  { pose proof (Z.div_pos (world_x g) 256).
    pose proof (Z.mul_succ_div_gt (world_x g) 256).
    pose proof (Z.mul_div_le (world_x g + base_gauge_w g - 1) 256). lia. }
  assert (0 ≤ ty ∧ world_y g < 256 * ty + 256 ∧
          256 * ty ≤ world_y g + base_gauge_h g - 1) as (Hty0 & Hty1 & Hty2).
  { pose proof (Z.div_pos (world_y g) 256).
    pose proof (Z.mul_succ_div_gt (world_y g) 256).
    pose proof (Z.mul_div_le (world_y g + base_gauge_h g - 1) 256). lia. }
  clear Htx Hty Etx Ebx Ety Eby.
  unfold patch_dst.
  rewrite intersect_plain; unfold map_gauge_viewport, tile_rect, TILE_SIZE, INT_MAX;
    cbn [rx ry rw rh];
    rewrite ?(s32_id (world_x g)), ?(s32_id (world_y g)),
            ?(s32_id (256 * tx)), ?(s32_id (256 * ty)) by lia; try lia.
  unfold in_rect, viewport_local. cbn [rx ry rw rh].
  rewrite !s32_id by lia. lia.
Qed.

(** *** The patches of a frame whose tiles all hit *)

Lemma fmap_list_bind {A B C} (f : B → C) (h : A → list B) (l : list A) :
  f <$> (l ≫= h) = l ≫= (λ x, f <$> h x).
Proof.
  induction l as [| x l IH]; [done |].
  by rewrite !bind_cons, fmap_app, IH.
Qed.

Lemma frame_tiles_elem g tx ty :
  (tx, ty) ∈ frame_tiles g ↔
  tl_tile_x g ≤ tx ≤ br_tile_x g ∧ tl_tile_y g ≤ ty ≤ br_tile_y g.
Proof.
  unfold frame_tiles. rewrite list_elem_of_bind. split.
  - intros (y & Hin & Hy). apply list_elem_of_fmap in Hin as (x & [= -> ->] & Hx).
    apply elem_of_seqZ in Hx, Hy. lia.
  - intros [Hx Hy]. exists ty. split.
    + apply list_elem_of_fmap. exists tx. split; [done |]. apply elem_of_seqZ. lia.
    + apply elem_of_seqZ. lia.
Qed.

Lemma frame_tiles_NoDup g : NoDup (frame_tiles g).
Proof.
  unfold frame_tiles. apply NoDup_bind.
  - intros y1 y2 t _ _ H1 H2.
    apply list_elem_of_fmap in H1 as (x1 & -> & _).
    apply list_elem_of_fmap in H2 as (x2 & [= _ ->] & _). done.
  - intros y _. apply NoDup_fmap_2; [| apply NoDup_seqZ].
    intros x1 x2 [= ->]. done.
  - apply NoDup_seqZ.
Qed.

Lemma rebuild_patches_hits env g arr n refs :
  viewport_fits_int g → every_tile_hits env g →
  (Z.to_nat (tile_span g) ≤ length arr)%nat →
  patch_dsts (gauge (st (rebuild_patches env g (mkWorld (with_patches arr n g) refs))))
  = (λ t, patch_dst g t.1 t.2) <$> frame_tiles g.
Proof.
  intros Hv Hhit Hlen.
  destruct (tile_span_count g Hv) as (Espan & Hnx & Hny).
  unfold rebuild_patches. rewrite !bind_modify, bind_eq. fields.
  set (ys := seqZ (tl_tile_y g) (br_tile_y g - tl_tile_y g + 1)).
  set (xs := seqZ (tl_tile_x g) (br_tile_x g - tl_tile_x g + 1)).
  set (refs' := unref_all _ _).
  assert (Hcount : (length ys * length xs)%nat = Z.to_nat (tile_span g)).
  { unfold ys, xs. rewrite !length_seqZ, Espan, Z2Nat.inj_mul by lia. lia. }
  change (with_patches arr 0 (with_patches arr n g)) with (with_patches arr 0 g).
  destruct (frame_loop_hits env (map_gauge_viewport g) g xs ys (uninit_layer env)
              arr 0%nat refs')
    as (layer' & arr' & refs'' & lg & -> & Hlen' & Hdst).
  { destruct Hv as (Hw & Hh & _). unfold map_gauge_viewport, SDL_RectEmpty.
    cbn [rw rh]. apply orb_false_iff. split; apply Z.leb_gt; lia. }
  { intros tx ty Htx Hty. apply (Hhit (tx, ty)).
    apply frame_tiles_elem. apply elem_of_seqZ in Htx, Hty. lia. }
  { lia. }
  fields. unfold modify. fields.
  unfold patch_dsts. rewrite update_marker_patch_live.
  unfold live_patches. fields.
  rewrite Hdst, take_0, fmap_nil, app_nil_l.
  unfold frame_tiles. fold xs ys. rewrite fmap_list_bind.
  clear. induction ys as [| y ys IH]; [done |].
  rewrite !bind_cons, IH, <- list_fmap_compose. done.
Qed.

Lemma update_state_patch_dsts env dt w :
  viewport_fits_int (gauge w) → array_sized (gauge w) →
  (tile_span (gauge w) ≤ apatches (state (gauge w)) ∨
   realloc_ok env (tile_span (gauge w)) = true) →
  every_tile_hits env (gauge w) →
  patch_dsts (gauge (st (map_gauge_update_state env dt w)))
  = (λ t, patch_dst (gauge w) t.1 t.2) <$> frame_tiles (gauge w).
Proof.
  intros Hv Hsized Halloc Hhit. destruct w as [g refs]. cbn [gauge] in *.
  destruct (tile_span_count g Hv) as (Espan & Hnx & Hny).
  assert (0 < tile_span g) by (rewrite Espan; nia).
  rewrite update_state_eq. cbv zeta. fields.
  destruct (Z.gtb_spec (tile_span g) (apatches (state g))) as [Hgt | Hle].
  - destruct Halloc as [Hle | ->]; [lia |]. fields.
    set (g1 := with_apatches (tile_span g) g).
    set (arr1 := take _ _).
    change (rebuild_patches env g) with (rebuild_patches env g1).
    change (patch_dst g) with (patch_dst g1).
    change (frame_tiles g) with (frame_tiles g1).
    apply rebuild_patches_hits; [exact Hv | exact Hhit |].
    change (tile_span g1) with (tile_span g). unfold arr1.
    rewrite length_take, length_app, length_replicate. lia.
  - rewrite <- (with_patches_eta g) at 2.
    apply rebuild_patches_hits; [done | done |].
    unfold array_sized in Hsized. lia.
Qed.

(** C3, as stated, fails on its example: the last visible column is
    100 + 512 - 1 = 611, in tile 2, so the frame spans tiles 0..2 on each
    axis, and with every tile supplied the update builds 9 patches. *)
Lemma example_frame_spans_three_tiles :
  let env := mkEnv (λ _ _ _ _, Some 1%positive) (λ _, true)
                   (mkPatch 1%positive zero_rect zero_rect) None in
  let r := map_gauge_update_state env 16 (mkWorld example_gauge ∅) in
  (base_gauge_w example_gauge, base_gauge_h example_gauge, level example_gauge,
   world_x example_gauge, world_y example_gauge) = (512, 512, 5, 100, 100) ∧
  map_math_size (level example_gauge) = 8192 ∧
  ¬ (br_tile_x example_gauge = 1 ∧ br_tile_y example_gauge = 1) ∧
  ¬ (length (live_patches (gauge (st r))) ≤ 4)%nat ∧
  length (live_patches (gauge (st r))) = 9%nat.
Proof.
  vm_compute. split; [done |]. split; [done |]. split; [| split; [lia | done]].
  intros [? _]. done.
Qed.

(** C3 (amended): for the viewport of 512x512 pixels at level 5 with the
    origin at (100, 100) the update spans tiles x in [0,2] and y in [0,2]
    and yields at most 9 patches; and for any viewport of positive size
    whose coordinates stay within [int], in which every tile request
    hits (the patch array available), the destination rectangles built
    by [map_gauge_update_state] cover the viewport rectangle exactly, and
    no two of them overlap. *)
Theorem frame_patches_tile_viewport :
  ((tl_tile_x example_gauge, br_tile_x example_gauge) = (0, 2) ∧
   (tl_tile_y example_gauge, br_tile_y example_gauge) = (0, 2) ∧
   ∀ env dt refs,
     (length (live_patches
                (gauge (st (map_gauge_update_state env dt
                              (mkWorld example_gauge refs))))) ≤ 9)%nat) ∧
  ∀ (env : Env) (dt : Z) (w : World),
    viewport_fits_int (gauge w) → array_sized (gauge w) →
    (tile_span (gauge w) ≤ apatches (state (gauge w)) ∨
     realloc_ok env (tile_span (gauge w)) = true) →
    every_tile_hits env (gauge w) →
    let ds := patch_dsts (gauge (st (map_gauge_update_state env dt w))) in
    (∀ px py, (∃ d, d ∈ ds ∧ in_rect d px py)
              ↔ in_rect (viewport_local (gauge w)) px py) ∧
    (∀ i j a b, i ≠ j → ds !! i = Some a → ds !! j = Some b →
                ∀ px py, ¬ (in_rect a px py ∧ in_rect b px py)).
Proof.
  split.
  { split; [reflexivity |]. split; [reflexivity |].
    intros env dt refs. rewrite update_state_eq. cbv zeta. fields.
    destruct (_ >? _); [destruct (realloc_ok _ _) |]; fields.
    - etrans; [apply rebuild_patches_bound |]. vm_compute. lia.
    - vm_compute. lia.
    - etrans; [apply rebuild_patches_bound |]. vm_compute. lia. }
  intros env dt w Hv Hsized Halloc Hhit ds.
  unfold ds. rewrite (update_state_patch_dsts env dt w Hv Hsized Halloc Hhit).
  set (g := gauge w) in *.
  destruct (tile_range g Hv) as (Etx & Ebx & Ety & Eby).
  split.
  - intros px py. split.
    + intros (d & Hd & Hin).
      apply list_elem_of_fmap in Hd as ([tx ty] & -> & Ht).
      apply frame_tiles_elem in Ht as [Htx Hty].
      by apply (patch_dst_in g tx ty px py Hv Htx Hty) in Hin as [Hin _].
    + intros Hin.
      assert (Hin' := Hin). destruct Hin' as [Hpx Hpy].
      unfold viewport_local in Hpx, Hpy. cbn [rx ry rw rh] in Hpx, Hpy.
      assert (Hv' := Hv). destruct Hv' as (Hw & Hh & Hx & Hy & Hxw & Hyh).
      set (tx := (world_x g + px) / 256). set (ty := (world_y g + py) / 256).
      assert (Htx : tl_tile_x g ≤ tx ≤ br_tile_x g).
      { rewrite Etx, Ebx. unfold tx. split; apply Z.div_le_mono; lia. }
      assert (Hty : tl_tile_y g ≤ ty ≤ br_tile_y g).
      { rewrite Ety, Eby. unfold ty. split; apply Z.div_le_mono; lia. }
      exists (patch_dst g tx ty). split.
      * apply list_elem_of_fmap. exists (tx, ty). split; [done |].
        by apply frame_tiles_elem.
      * apply patch_dst_in; [done | done | done |].
        split; [done |]. unfold tx, ty.
        pose proof (Z.mul_div_le (world_x g + px) 256).
        pose proof (Z.mul_succ_div_gt (world_x g + px) 256).
        pose proof (Z.mul_div_le (world_y g + py) 256).
        pose proof (Z.mul_succ_div_gt (world_y g + py) 256). lia.
  - intros i j a b Hij Ha Hb px py [Hina Hinb].
    apply list_lookup_fmap_Some in Ha as ([tx ty] & -> & Hta).
    apply list_lookup_fmap_Some in Hb as ([tx' ty'] & -> & Htb).
    cbn [fst snd] in *.
    assert (Hea : (tx, ty) ∈ frame_tiles g) by (by eapply list_elem_of_lookup_2).
    assert (Heb : (tx', ty') ∈ frame_tiles g) by (by eapply list_elem_of_lookup_2).
    apply frame_tiles_elem in Hea as [Htx Hty].
    apply frame_tiles_elem in Heb as [Htx' Hty'].
    apply (patch_dst_in g tx ty px py Hv Htx Hty) in Hina as (_ & Hax & Hay).
    apply (patch_dst_in g tx' ty' px py Hv Htx' Hty') in Hinb as (_ & Hbx & Hby).
    assert (tx = tx') by lia. assert (ty = ty') by lia. subst tx' ty'.
    apply Hij. by eapply NoDup_lookup; [apply frame_tiles_NoDup | |].
Qed.

Lemma frame_patches_tile_viewport_witness :
  let env := mkEnv (λ _ _ _ _, Some 1%positive) (λ _, true)
                   (mkPatch 1%positive zero_rect zero_rect) None in
  let w := mkWorld example_gauge ∅ in
  let ds := patch_dsts (gauge (st (map_gauge_update_state env 16 w))) in
  (viewport_fits_int (gauge w) ∧ array_sized (gauge w) ∧
   (tile_span (gauge w) ≤ apatches (state (gauge w)) ∨
    realloc_ok env (tile_span (gauge w)) = true) ∧
   every_tile_hits env (gauge w)) ∧
  (∀ px py, (∃ d, d ∈ ds ∧ in_rect d px py)
            ↔ in_rect (viewport_local (gauge w)) px py) ∧
  (∀ i j a b, i ≠ j → ds !! i = Some a → ds !! j = Some b →
              ∀ px py, ¬ (in_rect a px py ∧ in_rect b px py)).
Proof.
  intros env w ds.
  assert (H1 : viewport_fits_int (gauge w)).
  { vm_compute. repeat split; discriminate. }
  assert (H2 : array_sized (gauge w)) by reflexivity.
  assert (H3 : tile_span (gauge w) ≤ apatches (state (gauge w)) ∨
               realloc_ok env (tile_span (gauge w)) = true) by (right; reflexivity).
  assert (H4 : every_tile_hits env (gauge w)).
  { intros t _. eexists. split; [apply list_elem_of_here |]. by eexists. }
  split; [exact (conj H1 (conj H2 (conj H3 H4))) |].
  exact (proj2 frame_patches_tile_viewport env 16 w H1 H2 H3 H4).
Defined.

(** * Further properties of the gauge *)

(** ** [map_math_size] *)

(** X1: the world size is [256 * 2^level] up to level 23; from level 24
    on the shift leaves the 32 bits and the size is 0. *)
Theorem map_math_size_levels (lvl : Z) :
  0 ≤ lvl ≤ 31 →
  map_math_size lvl = if lvl <=? 23 then 256 * 2 ^ lvl else 0.
Proof.
  intros Hl. unfold map_math_size, u32. rewrite Z.shiftl_mul_pow2 by lia.
  destruct (Z.leb_spec lvl 23).
  - apply Z.mod_small. split; [lia |].
    assert (2 ^ lvl ≤ 2 ^ 23) by (apply Z.pow_le_mono_r; lia). lia.
  - replace lvl with (24 + (lvl - 24)) by lia.
    rewrite Z.pow_add_r by lia.
    replace (256 * (2 ^ 24 * 2 ^ (lvl - 24))) with (2 ^ (lvl - 24) * 2 ^ 32) by lia.
    apply Z.mod_mul. lia.
Qed.

Lemma map_math_size_levels_witness :
  0 ≤ 24 ≤ 31 ∧ map_math_size 24 = (if 24 <=? 23 then 256 * 2 ^ 24 else 0).
Proof. split; [lia |]. apply (map_math_size_levels 24). lia. Defined.

(** ** Scrolling *)

(** X2: [map_gauge_set_viewport] returns false exactly when it leaves the
    gauge as it was, and true exactly when the origin moves; the dirty
    flag is raised by a move and by nothing else. *)
Theorem set_viewport_reports_change (x y : Z) (animated : bool) (g : MapGauge) :
  let r := map_gauge_set_viewport x y animated g in
  (val r = false ↔ st r = g) ∧
  (val r = true ↔ (world_x (st r), world_y (st r)) ≠ (world_x g, world_y g)) ∧
  dirty (super (st r)) = val r || dirty (super g).
Proof.
  cbv zeta. rewrite set_viewport_eq.
  destruct ((_ =? world_x g) && (_ =? world_y g)) eqn:E; fields.
  - split; [done |]. split; [| done]. split; [done |]. intros Hne. by destruct Hne.
  - assert (Hne : (committed (level g) (base_gauge_w g) x,
                   committed (level g) (base_gauge_h g) y)
                  ≠ (world_x g, world_y g)).
    { intros [= Hx Hy]. rewrite Hx, Hy, !Z.eqb_refl in E. done. }
    split; [| by split].
    split; [done |]. intros Hg. exfalso. apply Hne.
    apply (f_equal (λ g', (world_x g', world_y g'))) in Hg. exact Hg.
Qed.

Lemma set_viewport_again x y a b g :
  val (map_gauge_set_viewport x y b (st (map_gauge_set_viewport x y a g))) = false ∧
  st (map_gauge_set_viewport x y b (st (map_gauge_set_viewport x y a g)))
  = st (map_gauge_set_viewport x y a g).
Proof.
  destruct (set_viewport_frame x y a g) as (El & _ & _ & _ & _ & Ew & Eh).
  rewrite (set_viewport_eq x y b), El, Ew, Eh.
  rewrite <- (set_viewport_world_x x y a g), <- (set_viewport_world_y x y a g).
  rewrite !Z.eqb_refl. cbn [andb]. split; reflexivity.
Qed.

Lemma center_on_marker_st a g :
  st (map_gauge_center_on_marker a g)
  = st (map_gauge_set_viewport
          (map_gauge_marker_left g - base_gauge_center_x g)
          (map_gauge_marker_top g - base_gauge_center_y g) a g).
Proof. by rewrite center_on_marker_eq. Qed.

Lemma center_on_marker_val a g :
  val (map_gauge_center_on_marker a g)
  = val (map_gauge_set_viewport
           (map_gauge_marker_left g - base_gauge_center_x g)
           (map_gauge_marker_top g - base_gauge_center_y g) a g).
Proof. by rewrite center_on_marker_eq. Qed.

Lemma center_target_frame g g' :
  same_frame g g' →
  map_gauge_marker_left g' - base_gauge_center_x g'
  = map_gauge_marker_left g - base_gauge_center_x g ∧
  map_gauge_marker_top g' - base_gauge_center_y g'
  = map_gauge_marker_top g - base_gauge_center_y g.
Proof.
  intros (_ & Em & _ & _ & _ & Ew & Eh).
  unfold map_gauge_marker_left, map_gauge_marker_top,
    base_gauge_center_x, base_gauge_center_y.
  by rewrite Em, Ew, Eh.
Qed.

Lemma center_on_marker_again a b g :
  val (map_gauge_center_on_marker b (st (map_gauge_center_on_marker a g))) = false ∧
  st (map_gauge_center_on_marker b (st (map_gauge_center_on_marker a g)))
  = st (map_gauge_center_on_marker a g).
Proof.
  destruct (center_target_frame g (st (map_gauge_center_on_marker a g))
              (center_on_marker_frame a g)) as [Ex Ey].
  rewrite (center_on_marker_val b), (center_on_marker_st b), Ex, Ey.
  rewrite !(center_on_marker_st a g).
  apply set_viewport_again.
Qed.

(** X3: scrolling to the same target twice, or centring on the marker
    twice, does nothing the second time: the call returns false and the
    gauge stays as the first call left it. *)
Theorem scroll_twice_is_once (x y : Z) (a b : bool) (g : MapGauge) :
  (val (map_gauge_set_viewport x y b (st (map_gauge_set_viewport x y a g))) = false ∧
   st (map_gauge_set_viewport x y b (st (map_gauge_set_viewport x y a g)))
   = st (map_gauge_set_viewport x y a g)) ∧
  (val (map_gauge_center_on_marker b (st (map_gauge_center_on_marker a g))) = false ∧
   st (map_gauge_center_on_marker b (st (map_gauge_center_on_marker a g)))
   = st (map_gauge_center_on_marker a g)).
Proof. split; [apply set_viewport_again | apply center_on_marker_again]. Qed.

(** X4: a relative scroll that stays inside the bounds moves the origin
    by exactly the increment, and the opposite scroll brings it back. *)
Theorem move_viewport_round_trip (g : MapGauge) (dx dy : Z) (a b : bool) :
  0 ≤ level g ≤ 15 → fits_world g →
  0 ≤ world_x g ≤ map_math_size (level g) - 1 - base_gauge_w g →
  0 ≤ world_y g ≤ map_math_size (level g) - 1 - base_gauge_h g →
  0 ≤ world_x g + dx ≤ map_math_size (level g) - 1 - base_gauge_w g →
  0 ≤ world_y g + dy ≤ map_math_size (level g) - 1 - base_gauge_h g →
  let r := map_gauge_move_viewport dx dy a g in
  let back := map_gauge_move_viewport (- dx) (- dy) b (st r) in
  (world_x (st r), world_y (st r)) = (world_x g + dx, world_y g + dy) ∧
  (world_x (st back), world_y (st back)) = (world_x g, world_y g).
Proof.
  intros Hl [Hw Hh] Hx Hy Hdx Hdy. cbv zeta.
  pose proof (map_math_size_bounds (level g) Hl) as Hs.
  destruct (set_viewport_frame (u32 (world_x g + dx)) (u32 (world_y g + dy)) a g)
    as (El & _ & _ & _ & _ & Ew & Eh).
  assert (Er : (world_x (st (map_gauge_move_viewport dx dy a g)),
                world_y (st (map_gauge_move_viewport dx dy a g)))
               = (world_x g + dx, world_y g + dy)).
  { rewrite move_viewport_eq, set_viewport_world_x, set_viewport_world_y.
    rewrite !u32_id by lia. by rewrite !committed_id by lia. }
  split; [exact Er |].
  injection Er as Ex Ey.
  rewrite (move_viewport_eq (- dx)), set_viewport_world_x, set_viewport_world_y.
  rewrite Ex, Ey. rewrite move_viewport_eq, El, Ew, Eh.
  replace (world_x g + dx + - dx) with (world_x g) by lia.
  replace (world_y g + dy + - dy) with (world_y g) by lia.
  rewrite !u32_id by lia. by rewrite !committed_id by lia.
Qed.

Lemma move_viewport_round_trip_witness :
  let g := gauge_at 728 728 1000 1000 in
  let r := map_gauge_move_viewport 40 (-28) true g in
  let back := map_gauge_move_viewport (- 40) (- -28) false (st r) in
  (0 ≤ level g ≤ 15 ∧ fits_world g ∧
   0 ≤ world_x g ≤ map_math_size (level g) - 1 - base_gauge_w g ∧
   0 ≤ world_y g ≤ map_math_size (level g) - 1 - base_gauge_h g ∧
   0 ≤ world_x g + 40 ≤ map_math_size (level g) - 1 - base_gauge_w g ∧
   0 ≤ world_y g + -28 ≤ map_math_size (level g) - 1 - base_gauge_h g) ∧
  (world_x (st r), world_y (st r)) = (world_x g + 40, world_y g + -28) ∧
  (world_x (st back), world_y (st back)) = (world_x g, world_y g).
Proof.
  intros g r back.
  assert (H1 : 0 ≤ level g ≤ 15) by (vm_compute; split; discriminate).
  assert (H2 : fits_world g) by (vm_compute; repeat split; discriminate).
  assert (H3 : 0 ≤ world_x g ≤ map_math_size (level g) - 1 - base_gauge_w g)
    by (vm_compute; split; discriminate).
  assert (H4 : 0 ≤ world_y g ≤ map_math_size (level g) - 1 - base_gauge_h g)
    by (vm_compute; split; discriminate).
  assert (H5 : 0 ≤ world_x g + 40 ≤ map_math_size (level g) - 1 - base_gauge_w g)
    by (vm_compute; split; discriminate).
  assert (H6 : 0 ≤ world_y g + -28 ≤ map_math_size (level g) - 1 - base_gauge_h g)
    by (vm_compute; split; discriminate).
  split; [exact (conj H1 (conj H2 (conj H3 (conj H4 (conj H5 H6))))) |].
  exact (move_viewport_round_trip g 40 (-28) true false H1 H2 H3 H4 H5 H6).
Defined.

(** X5: for a gauge smaller than the world, a request is honoured up to
    [sizeForLevel - 1 - extent] on each axis and cut down to that bound
    beyond it; the viewport therefore never reaches the last pixel
    column or row of the world. *)
Theorem set_viewport_saturates (g : MapGauge) (x y : Z) (animated : bool) :
  0 ≤ level g ≤ 15 → fits_world g → 0 ≤ x < 2 ^ 31 → 0 ≤ y < 2 ^ 31 →
  let r := map_gauge_set_viewport x y animated g in
  world_x (st r) = Z.min x (map_math_size (level g) - 1 - base_gauge_w g) ∧
  world_y (st r) = Z.min y (map_math_size (level g) - 1 - base_gauge_h g) ∧
  world_x (st r) + base_gauge_w g < map_math_size (level g) ∧
  world_y (st r) + base_gauge_h g < map_math_size (level g).
Proof.
  intros Hl [Hw Hh] Hx Hy. cbv zeta.
  pose proof (map_math_size_bounds (level g) Hl) as Hs.
  rewrite set_viewport_world_x, set_viewport_world_y.
  assert (Hc : ∀ extent v, 0 ≤ extent < map_math_size (level g) → 0 ≤ v < 2 ^ 31 →
               committed (level g) extent v
               = Z.min v (map_math_size (level g) - 1 - extent)).
  { intros extent v He Hv. unfold committed.
    rewrite (u32_id (map_math_size (level g) - 1)) by lia.
    rewrite (u32_id (map_math_size (level g) - 1 - extent)) by lia.
    rewrite (u32_id v) by lia. unfold clamp.
    destruct (Z.ltb_spec v 0); [lia |].
    destruct (Z.gtb_spec v (map_math_size (level g) - 1 - extent));
      rewrite u32_id; lia. }
  rewrite !Hc by done. lia.
Qed.

Lemma set_viewport_saturates_witness :
  let g := gauge_at 728 728 1000 1000 in
  let r := map_gauge_set_viewport 9000 300 true g in
  (0 ≤ level g ≤ 15 ∧ fits_world g ∧ 0 ≤ 9000 < 2 ^ 31 ∧ 0 ≤ 300 < 2 ^ 31) ∧
  world_x (st r) = Z.min 9000 (map_math_size (level g) - 1 - base_gauge_w g) ∧
  world_y (st r) = Z.min 300 (map_math_size (level g) - 1 - base_gauge_h g) ∧
  world_x (st r) + base_gauge_w g < map_math_size (level g) ∧
  world_y (st r) + base_gauge_h g < map_math_size (level g).
Proof.
  intros g r.
  assert (H1 : 0 ≤ level g ≤ 15) by (vm_compute; split; discriminate).
  assert (H2 : fits_world g) by (vm_compute; repeat split; discriminate).
  assert (H3 : 0 ≤ 9000 < 2 ^ 31) by lia.
  assert (H4 : 0 ≤ 300 < 2 ^ 31) by lia.
  split; [exact (conj H1 (conj H2 (conj H3 H4))) |].
  exact (set_viewport_saturates g 9000 300 true H1 H2 H3 H4).
Defined.

(** [map_gauge_set_level] on a rejected or idle request. *)
Lemma set_level_rejects_or_idles_eq `{MapMath} (g : MapGauge) (now lvl : Z) :
  (15 < lvl → st (map_gauge_set_level now lvl g) = g) ∧
  (lvl = level g → lvl ≤ 15 → st (map_gauge_set_level now lvl g) = g).
Proof.
  unfold map_gauge_set_level. rewrite bind_get. split.
  - intros Hl.
    replace (lvl >? 15) with true by (symmetry; apply Z.gtb_lt; lia).
    done.
  - intros -> Hl.
    replace (level g >? 15) with false
      by (symmetry; rewrite Z.gtb_ltb; apply Z.ltb_ge; lia).
    rewrite Z.eqb_refl. cbn [negb]. by rewrite bind_ret.
Qed.

(** ** The follow/roam mode *)

Section Mode.
Context `{MapMath}.

Lemma place_marker_mode position g :
  roaming (st (place_marker position g)) = roaming g ∧
  last_manipulation (st (place_marker position g)) = last_manipulation g.
Proof.
  unfold place_marker. rewrite bind_get.
  destruct (map_math_geo_to_pixel position (level g)) as [rv [new_x new_y]].
  destruct (_ || _); [| done].
  rewrite bind_modify, bind_get.
  set (g1 := with_marker_pos (u32 new_x) (u32 new_y) g).
  rewrite bind_eq, bind_modify, ret_eq. fields.
  destruct (negb (roaming g1)); [rewrite bind_eq |]; rewrite !ret_eq; fields;
    [| done].
  by destruct (follow_marker_frame g1) as (_ & _ & _ & -> & -> & _).
Qed.

Lemma set_marker_position_mode now position g :
  roaming (st (map_gauge_set_marker_position now position g))
  = roaming g && negb (elapsed now g >? MANIPULATE_TIMEOUT) ∧
  last_manipulation (st (map_gauge_set_marker_position now position g))
  = last_manipulation g.
Proof.
  rewrite set_marker_position_eq.
  destruct (roaming g) eqn:Er; cbn [andb negb].
  - destruct (elapsed now g >? MANIPULATE_TIMEOUT); cbn [negb].
    + cbv zeta. cbn [st].
      set (c := map_gauge_center_on_marker true (with_roaming false g)).
      destruct (place_marker_mode position (st c)) as [-> ->]. unfold c.
      by destruct (center_on_marker_frame true (with_roaming false g))
        as (_ & _ & _ & -> & -> & _).
    + destruct (place_marker_mode position g) as [-> ->]. by rewrite Er.
  - destruct (place_marker_mode position g) as [-> ->]. by rewrite Er.
Qed.

(** X6: the mode of the gauge after each operation.  Scrolling,
    centring and following leave the mode and the manipulation stamp
    alone; a marker update, on its own or at the end of a level change,
    ends roaming when it finds more than 2000 ms elapsed and otherwise
    leaves the mode alone; only [map_gauge_manipulate_viewport] starts
    roaming and stamps the time. *)
Theorem mode_transitions (g : MapGauge) (x y dx dy now lvl : Z) (a : bool)
    (position : Geo) :
  let mode g' := (roaming g', last_manipulation g') in
  mode (st (map_gauge_set_viewport x y a g)) = mode g ∧
  mode (st (map_gauge_move_viewport dx dy a g)) = mode g ∧
  mode (st (map_gauge_center_on_marker a g)) = mode g ∧
  mode (st (map_gauge_follow_marker g)) = mode g ∧
  mode (st (map_gauge_manipulate_viewport now dx dy a g)) = (true, u32 now) ∧
  mode (st (map_gauge_set_marker_position now position g))
  = (roaming g && negb (elapsed now g >? MANIPULATE_TIMEOUT), last_manipulation g) ∧
  mode (st (map_gauge_set_level now lvl g))
  = (roaming g && negb ((lvl <=? 15) && negb (lvl =? level g)
                        && (elapsed now g >? MANIPULATE_TIMEOUT)),
     last_manipulation g).
Proof.
  cbv zeta.
  assert (Hframe : ∀ g g', same_frame g g' →
            (roaming g', last_manipulation g') = (roaming g, last_manipulation g)).
  { intros g1 g2 (_ & _ & _ & -> & -> & _). done. }
  split; [apply Hframe, set_viewport_frame |].
  split; [rewrite move_viewport_eq; apply Hframe, set_viewport_frame |].
  split; [apply Hframe, center_on_marker_frame |].
  split; [apply Hframe, follow_marker_frame |].
  split; [rewrite manipulate_viewport_eq;
          by rewrite (Hframe _ _ (set_viewport_frame _ _ _ _)) |].
  split; [by destruct (set_marker_position_mode now position g) as [-> ->] |].
  destruct (Z.leb_spec lvl 15) as [Hle | Hgt]; cbn [andb].
  2: { destruct (set_level_rejects_or_idles_eq g now lvl) as [Hrej _].
       rewrite (Hrej Hgt). by rewrite andb_true_r. }
  destruct (Z.eqb_spec lvl (level g)) as [-> | Hne]; cbn [andb negb].
  { destruct (set_level_rejects_or_idles_eq g now (level g)) as [_ Hid].
    rewrite (Hid eq_refl Hle). by rewrite andb_true_r. }
  rewrite (set_level_eq now lvl g Hle Hne). cbv zeta. cbn [st].
  set (v := map_gauge_set_viewport _ _ false (with_level lvl g)).
  set (geo := map_math_pixel_to_geo _ _ _).
  destruct (set_marker_position_mode now geo (st v)) as [-> ->].
  unfold elapsed, v.
  by destruct (set_viewport_frame
                 (reproject (world_x g) (world_y g) (level g) lvl).1
                 (reproject (world_x g) (world_y g) (level g) lvl).2
                 false (with_level lvl g)) as (_ & _ & _ & -> & -> & _).
Qed.
End Mode.

(** ** Marker updates *)

Section MarkerUpdate.
Context `{MapMath}.

Lemma place_marker_val position g :
  let r := place_marker position g in
  let px := u32 (map_math_geo_to_pixel position (level g)).2.1 in
  let py := u32 (map_math_geo_to_pixel position (level g)).2.2 in
  val r = negb ((px =? mx (marker g)) && (py =? my (marker g))) ∧
  (val r = false → st r = g ∧ log r = []) ∧
  (val r = true → dirty (super (st r)) = true).
Proof.
  cbv zeta. unfold place_marker. rewrite bind_get.
  destruct (map_math_geo_to_pixel position (level g)) as [rv [new_x new_y]].
  cbn [fst snd]. rewrite negb_andb.
  destruct (_ || _); [| done].
  rewrite bind_modify, bind_get.
  set (g1 := with_marker_pos (u32 new_x) (u32 new_y) g).
  rewrite bind_eq, bind_modify, ret_eq. by fields.
Qed.

(** X7: [map_gauge_set_marker_position] returns true exactly when the
    projected pixel differs from the marker's; the marker ends on the
    projected pixel either way.  A move raises the dirty flag; without
    a move, and unless the roaming timeout fires, the gauge is left as
    it was and nothing is called. *)
Theorem set_marker_position_reports_move (now : Z) (position : Geo) (g : MapGauge) :
  let r := map_gauge_set_marker_position now position g in
  let px := u32 (map_math_geo_to_pixel position (level g)).2.1 in
  let py := u32 (map_math_geo_to_pixel position (level g)).2.2 in
  (val r = true ↔ (px, py) ≠ (mx (marker g), my (marker g))) ∧
  (mx (marker (st r)), my (marker (st r))) = (px, py) ∧
  (val r = true → dirty (super (st r)) = true) ∧
  (val r = false → roaming g && (elapsed now g >? MANIPULATE_TIMEOUT) = false →
   st r = g ∧ log r = []).
Proof.
  cbv zeta.
  destruct (set_marker_position_marker now position g) as [_ Em].
  assert (Hne : ∀ a b c d : Z,
            negb ((a =? c) && (b =? d)) = true ↔ (a, b) ≠ (c, d)).
  { intros a b c d. rewrite negb_true_iff, andb_false_iff, !Z.eqb_neq.
    split; [intros [?|?] [= ? ?]; done |].
    intros Hn. destruct (decide (a = c)) as [-> |]; [right | by left].
    intros ->. by apply Hn. }
  rewrite set_marker_position_eq in *.
  destruct (roaming g && (elapsed now g >? MANIPULATE_TIMEOUT)) eqn:Et.
  - cbv zeta in *. cbn [val st log] in *.
    set (c := map_gauge_center_on_marker true (with_roaming false g)) in *.
    destruct (center_on_marker_frame true (with_roaming false g))
      as (El & Emk & _). fold c in El, Emk.
    destruct (place_marker_val position (st c)) as (Hv & _ & Hd).
    rewrite El, Emk in Hv. fields.
    split; [rewrite Hv; apply Hne |]. split; [exact Em |]. split; [exact Hd |].
    intros _ [=].
  - destruct (place_marker_val position g) as (Hv & Hs & Hd).
    split; [rewrite Hv; apply Hne |]. split; [exact Em |]. split; [exact Hd |].
    intros Hf _. by apply Hs.
Qed.
End MarkerUpdate.

Lemma set_marker_position_reports_move_witness :
  let M := SpecProjection.map_math in
  let g := gauge_at 728 728 1000 1000 in
  let r := map_gauge_set_marker_position (H := M) 77 ((1 # 4)%Q, (1 # 8)%Q) g in
  let r' := map_gauge_set_marker_position (H := M) 77
              ((1000 # 8192)%Q, (1000 # 8192)%Q) g in
  (val r = true ∧ dirty (super (st r)) = true) ∧
  (val r' = false ∧ roaming g && (elapsed 77 g >? MANIPULATE_TIMEOUT) = false ∧
   st r' = g ∧ log r' = []).
Proof.
  intros M g r r'.
  assert (H1 : val r = true) by (vm_compute; reflexivity).
  assert (H2 : val r' = false) by (vm_compute; reflexivity).
  assert (H3 : roaming g && (elapsed 77 g >? MANIPULATE_TIMEOUT) = false)
    by (vm_compute; reflexivity).
  destruct (set_marker_position_reports_move (H := M) 77 ((1 # 4)%Q, (1 # 8)%Q) g)
    as (_ & _ & Hd & _).
  destruct (set_marker_position_reports_move (H := M) 77
              ((1000 # 8192)%Q, (1000 # 8192)%Q) g) as (_ & _ & _ & Hs).
  split; [exact (conj H1 (Hd H1)) |].
  split; [exact H2 |]. split; [exact H3 |]. exact (Hs H2 H3).
Defined.

(** ** The hysteresis of [map_gauge_follow_marker] *)

(** Away from overflow [SDL_IntersectRect] reports an intersection
    exactly when the intervals overlap on both axes. *)
Lemma intersect_visible A B r :
  0 < rw A → 0 < rh A → 0 < rw B → 0 < rh B →
  0 ≤ rx A → 0 ≤ ry A → 0 ≤ rx B → 0 ≤ ry B →
  rx A + rw A ≤ INT_MAX → ry A + rh A ≤ INT_MAX →
  rx B + rw B ≤ INT_MAX → ry B + rh B ≤ INT_MAX →
  (SDL_IntersectRect A B r).1
  = (Z.max (rx A) (rx B) <? Z.min (rx A + rw A) (rx B + rw B))
    && (Z.max (ry A) (ry B) <? Z.min (ry A + rh A) (ry B + rh B)).
Proof.
  intros. pose proof (intersect_plain A B r) as Hr.
  unfold INT_MAX in *. revert Hr.
  unfold SDL_IntersectRect.
  replace (SDL_RectEmpty A) with false
    by (symmetry; unfold SDL_RectEmpty; apply orb_false_iff; split;
        apply Z.leb_gt; lia).
  replace (SDL_RectEmpty B) with false
    by (symmetry; unfold SDL_RectEmpty; apply orb_false_iff; split;
        apply Z.leb_gt; lia).
  cbn [orb]. cbv zeta. cbn [fst snd]. intros Hr. rewrite Hr by lia.
  unfold SDL_RectEmpty. cbn [rw rh].
  rewrite negb_orb, <- !Z.ltb_antisym.
  f_equal; (apply eq_true_iff_eq; rewrite !Z.ltb_lt; lia).
Qed.

(** What [map_gauge_follow_marker] does, in terms of its two tests. *)
Lemma follow_marker_quiet g :
  log (map_gauge_follow_marker g) = [] →
  (SDL_IntersectRect (map_gauge_viewport g) (map_gauge_marker_worldbox g)
                     (marker_src (state g))).1 = true ∧
  (map_gauge_marker_left g <=? u32 (world_x g + PIX_LIMIT)) = false ∧
  (u32 (map_gauge_marker_left g + generic_layer_w (layer (marker g)))
     >=? u32 (u32 (world_x g + base_gauge_w g) - PIX_LIMIT)) = false ∧
  (map_gauge_marker_top g <=? u32 (world_y g + PIX_LIMIT)) = false ∧
  world_x (st (map_gauge_follow_marker g)) = world_x g ∧
  world_y (st (map_gauge_follow_marker g)) = world_y g.
Proof.
  unfold map_gauge_follow_marker. rewrite bind_get.
  destruct (SDL_IntersectRect _ _ _) as [visible r]. cbn [fst].
  rewrite bind_modify.
  assert (Hc : ∀ g', log (map_gauge_center_on_marker true g') ≠ [])
    by (intros g'; by rewrite center_on_marker_log).
  set (t1 := map_gauge_marker_left g <=? _).
  set (t2 := u32 (map_gauge_marker_left g + _) >=? _).
  set (t3 := map_gauge_marker_top g <=? _).
  set (t4 := u32 (map_gauge_marker_top g + _) >=? _).
  destruct visible, t1, t2, t3, t4; cbn [negb orb];
    try (intros Hq; by apply Hc in Hq).
  done.
Qed.

(** X8: away from wrap-around, whenever [map_gauge_follow_marker] does
    not recenter, the origin is unchanged and the marker's box
    intersects the viewport and keeps more than 10 pixels from its left,
    right and top edges; in every other case the function recenters. *)
Theorem follow_marker_quiet_means_clear (g : MapGauge) :
  marker_plain g →
  let r := map_gauge_follow_marker g in
  (log r = [] ∨ head (log r) = Some CallCenterOnMarker) ∧
  (log r = [] →
   (world_x (st r), world_y (st r)) = (world_x g, world_y g) ∧
   box_intersects_viewport g = true ∧
   world_x g + PIX_LIMIT < box_left g ∧
   box_right g < world_x g + base_gauge_w g - PIX_LIMIT ∧
   world_y g + PIX_LIMIT < box_top g).
Proof.
  intros (Hlw & Hlh & Hw & Hh & Hbl & Hbt & Hbr & Hbb & Hx & Hy & Hxw & Hyh).
  cbv zeta. split.
  { destruct (follow_marker_cases g) as [r [-> | ->]]; [by left | right].
    by rewrite center_on_marker_log. }
  intros Hq. destruct (follow_marker_quiet g Hq) as (Hv & E1 & E2 & E3 & Ex & Ey).
  unfold INT_MAX, PIX_LIMIT, box_right, box_bottom, box_left, box_top in *.
  assert (El : map_gauge_marker_left g
               = mx (marker g) - Z.quot (generic_layer_w (layer (marker g))) 2)
    by (apply u32_id; lia).
  assert (Et : map_gauge_marker_top g
               = my (marker g) - Z.quot (generic_layer_h (layer (marker g))) 2)
    by (apply u32_id; lia).
  rewrite El in E1, E2. rewrite Et in E3.
  rewrite (u32_id (world_x g + 10)) in E1 by lia.
  rewrite (u32_id (world_y g + 10)) in E3 by lia.
  rewrite (u32_id (world_x g + base_gauge_w g)) in E2 by lia.
  rewrite (u32_id (world_x g + base_gauge_w g - 10)) in E2 by lia.
  rewrite u32_id in E2 by lia.
  apply Z.leb_gt in E1, E3. rewrite Z.geb_leb in E2. apply Z.leb_gt in E2.
  split; [by rewrite Ex, Ey |]. split; [| lia].
  rewrite intersect_visible in Hv;
    unfold map_gauge_viewport, map_gauge_marker_worldbox, INT_MAX;
    cbn [rx ry rw rh]; rewrite ?El, ?Et, ?s32_id by lia; try lia.
  revert Hv. unfold map_gauge_viewport, map_gauge_marker_worldbox.
  cbn [rx ry rw rh]. rewrite ?El, ?Et, !s32_id by lia.
  intros Hv. apply andb_true_iff in Hv as [Hv1 Hv2].
  unfold box_intersects_viewport, box_right, box_bottom, box_left, box_top.
  rewrite Hv1, Hv2.
  repeat (rewrite (proj2 (Z.ltb_lt _ _)) by lia). done.
Qed.

Lemma follow_marker_quiet_means_clear_witness :
  let g := gauge_at 728 728 1000 1000 in
  let r := map_gauge_follow_marker g in
  (marker_plain g ∧ log r = []) ∧
  (log r = [] ∨ head (log r) = Some CallCenterOnMarker) ∧
  (world_x (st r), world_y (st r)) = (world_x g, world_y g) ∧
  box_intersects_viewport g = true ∧
  world_x g + PIX_LIMIT < box_left g ∧
  box_right g < world_x g + base_gauge_w g - PIX_LIMIT ∧
  world_y g + PIX_LIMIT < box_top g.
Proof.
  intros g r.
  assert (H1 : marker_plain g) by (vm_compute; repeat split; discriminate).
  assert (H2 : log r = []) by (vm_compute; reflexivity).
  destruct (follow_marker_quiet_means_clear g H1) as [A B].
  split; [exact (conj H1 H2) |]. split; [exact A | exact (B H2)].
Defined.

(** ** The provider chain *)

Lemma query_providers_first env ps lvl tx ty layer :
  query_providers env ps lvl tx ty layer
  = match ps with
    | [] => layer
    | _ => first_hit env ps lvl tx ty
    end.
Proof.
  unfold first_hit. destruct ps as [| p ps]; [done |].
  revert p layer. induction ps as [| q ps IH]; intros p layer.
  - cbn. by destruct (map_tile_provider_get_tile env p lvl tx ty).
  - cbn [query_providers omap list_omap].
    destruct (map_tile_provider_get_tile env p lvl tx ty); [done |].
    apply (IH q None).
Qed.

Lemma first_hit_Some env ps lvl tx ty l :
  first_hit env ps lvl tx ty = Some l ↔
  ∃ i p, ps !! i = Some p ∧
         map_tile_provider_get_tile env p lvl tx ty = Some l ∧
         ∀ j q, (j < i)%nat → ps !! j = Some q →
                map_tile_provider_get_tile env q lvl tx ty = None.
Proof.
  unfold first_hit. induction ps as [| p ps IH].
  - split; [done | by intros (i & p & Hp & _)].
  - cbn [omap list_omap].
    destruct (map_tile_provider_get_tile env p lvl tx ty) as [l' |] eqn:Ep.
    + cbn. split.
      * intros [= ->]. exists 0%nat, p. split; [done |]. split; [done |]. lia.
      * intros (i & q & Hq & Hl & Hmiss). destruct i as [| i].
        -- injection Hq as <-. congruence.
        -- specialize (Hmiss 0%nat p). cbn in Hmiss.
           rewrite Hmiss in Ep by (done || lia). done.
    + rewrite IH. split.
      * intros (i & q & Hq & Hl & Hmiss). exists (S i), q.
        split; [done |]. split; [done |].
        intros [| j] q' Hj Hq'; [by injection Hq' as <- |].
        apply (Hmiss j q'); [lia | done].
      * intros (i & q & Hq & Hl & Hmiss). destruct i as [| i].
        { injection Hq as <-. congruence. }
        exists i, q. split; [done |]. split; [done |].
        intros j q' Hj Hq'. apply (Hmiss (S j) q'); [lia | done].
Qed.

Lemma first_hit_None env ps lvl tx ty :
  first_hit env ps lvl tx ty = None ↔
  ∀ p, p ∈ ps → map_tile_provider_get_tile env p lvl tx ty = None.
Proof.
  unfold first_hit. induction ps as [| p ps IH].
  - split; [intros _ p Hp; by apply elem_of_nil in Hp | done].
  - cbn [omap list_omap].
    destruct (map_tile_provider_get_tile env p lvl tx ty) as [l' |] eqn:Ep.
    + split; [done |]. intros Hall. specialize (Hall p (list_elem_of_here _ _)).
      congruence.
    + rewrite IH. split.
      * intros Hall q Hq. apply elem_of_cons in Hq as [-> | Hq]; [done | by apply Hall].
      * intros Hall q Hq. apply Hall. by right.
Qed.

(** X9: the loop over the providers returns the layer of the first
    provider, in order, that has the tile, and nothing when none has it;
    with no provider at all it returns whatever the variable held. *)
Theorem query_providers_priority (env : Env) (ps : list MapTileProvider)
    (lvl tx ty : Z) (layer : option LayerId) :
  (ps = [] ∧ query_providers env ps lvl tx ty layer = layer) ∨
  (ps ≠ [] ∧
   ∀ l, query_providers env ps lvl tx ty layer = Some l ↔
        ∃ i p, ps !! i = Some p ∧
               map_tile_provider_get_tile env p lvl tx ty = Some l ∧
               ∀ j q, (j < i)%nat → ps !! j = Some q →
                      map_tile_provider_get_tile env q lvl tx ty = None).
Proof.
  rewrite query_providers_first. destruct ps as [| p ps]; [by left |].
  right. split; [done |]. intros l. apply first_hit_Some.
Qed.

(** ** The frame, tile by tile *)

Lemma viewport_not_empty g :
  0 < base_gauge_w g → 0 < base_gauge_h g →
  SDL_RectEmpty (map_gauge_viewport g) = false.
Proof.
  intros Hw Hh. unfold map_gauge_viewport, SDL_RectEmpty. cbn [rw rh].
  apply orb_false_iff. split; apply Z.leb_gt; lia.
Qed.

Lemma first_hit_cases env g tx ty :
  (∃ l, first_hit env (tile_providers g) (level g) tx ty = Some l)
  ∨ first_hit env (tile_providers g) (level g) tx ty = None.
Proof. destruct (first_hit env (tile_providers g) (level g) tx ty); eauto. Qed.

Lemma frame_patch_split env g ts :
  (length (omap (frame_patch env g) ts)
   + length (filter (tile_missing env g) ts) = length ts)%nat.
Proof.
  induction ts as [| t ts IH]; [done |].
  rewrite filter_cons. cbn [omap list_omap length].
  destruct (first_hit_cases env g t.1 t.2) as [[l Eh] | Eh].
  - assert (frame_patch env g t = Some (cut_patch g t.1 t.2 l)) as ->
      by (unfold frame_patch; by rewrite Eh).
    rewrite decide_False by (unfold tile_missing; by rewrite Eh).
    cbn [length]. lia.
  - assert (frame_patch env g t = None) as ->
      by (unfold frame_patch; by rewrite Eh).
    rewrite decide_True by (unfold tile_missing; by rewrite Eh).
    cbn [length]. lia.
Qed.

Lemma frame_patch_count env g ts :
  (length (omap (frame_patch env g) ts) ≤ length ts)%nat.
Proof. pose proof (frame_patch_split env g ts). lia. Qed.

(** One turn of the inner loop, when there is a provider and the
    viewport is not empty. *)
Lemma tile_body_exact env g ty tx layer arr n refs :
  SDL_RectEmpty (map_gauge_viewport g) = false → tile_providers g ≠ [] →
  tile_body env (map_gauge_viewport g) ty tx layer
            (mkWorld (with_patches arr n g) refs)
  = match first_hit env (tile_providers g) (level g) tx ty with
    | None => mkOut None (mkWorld (with_patches arr n g) refs)
                    [TileMissing tx ty (level g)]
    | Some l =>
        mkOut (Some l)
              (mkWorld (with_patches (<[n := cut_patch g tx ty l]> arr) (S n) g)
                       (generic_layer_ref l refs)) []
    end.
Proof.
  intros Hvp Hps. unfold tile_body. rewrite bind_get. fields.
  rewrite query_providers_first.
  destruct (tile_providers g) as [| p ps] eqn:Eps; [done |]. rewrite <- Eps.
  destruct (first_hit env (tile_providers g) (level g) tx ty) as [l |].
  - set (slot := src (default (uninit_patch env) (arr !! n))).
    rewrite (intersect_ignores_slot (map_gauge_viewport g) (tile_rect tx ty)
               slot zero_rect) by done.
    unfold cut_patch.
    destruct (SDL_IntersectRect (map_gauge_viewport g) (tile_rect tx ty) zero_rect)
      as [vis r].
    by rewrite bind_put, ret_eq.
  - by rewrite bind_emit, ret_eq.
Qed.

Lemma row_loop_exact env g ty xs : ∀ layer arr n refs,
  SDL_RectEmpty (map_gauge_viewport g) = false → tile_providers g ≠ [] →
  (n + length xs ≤ length arr)%nat →
  let ts := (λ tx, (tx, ty)) <$> xs in
  let news := omap (frame_patch env g) ts in
  ∃ layer' arr',
    for_each xs (tile_body env (map_gauge_viewport g) ty) layer
             (mkWorld (with_patches arr n g) refs)
    = mkOut layer'
            (mkWorld (with_patches arr' (n + length news) g) (take_refs news refs))
            (miss_events (level g) (filter (tile_missing env g) ts)) ∧
    arr' = take n arr ++ news ++ drop (n + length news) arr.
Proof.
  induction xs as [| x xs IH]; intros layer arr n refs Hvp Hps Hlen; cbv zeta.
  - exists layer, arr. cbn [fmap list_fmap omap list_omap length for_each].
    rewrite Nat.add_0_r, app_nil_l, take_drop. done.
  - cbn [for_each fmap list_fmap omap list_omap]. rewrite bind_eq.
    pose proof (tile_body_exact env g ty x layer arr n refs Hvp Hps) as Hb.
    rewrite filter_cons. cbn [length] in Hlen.
    destruct (first_hit_cases env g x ty) as [[l Eh] | Eh];
      rewrite Eh in Hb; rewrite Hb; cbn [val st log].
    + assert (frame_patch env g (x, ty) = Some (cut_patch g x ty l)) as ->
        by (unfold frame_patch; cbn [fst snd]; by rewrite Eh).
      destruct (IH (Some l) (<[n := cut_patch g x ty l]> arr) (S n)
                  (generic_layer_ref l refs) Hvp Hps)
        as (layer' & arr' & -> & Harr); [rewrite length_insert; lia |].
      exists layer', arr'.
      rewrite decide_False by (unfold tile_missing; cbn [fst snd]; by rewrite Eh).
      cbn [length take_refs foldl patch_layer cut_patch].
      replace (n + S (length (omap (frame_patch env g) ((λ tx, (tx, ty)) <$> xs))))%nat
        with (S n + length (omap (frame_patch env g) ((λ tx, (tx, ty)) <$> xs)))%nat
        by lia.
      split; [done |].
      rewrite Harr.
      rewrite (take_S_r _ n (cut_patch g x ty l))
        by (apply list_lookup_insert_eq; lia).
      rewrite take_insert_ge, drop_insert_lt by lia. by rewrite <- app_assoc.
    + assert (frame_patch env g (x, ty) = None) as ->
        by (unfold frame_patch; cbn [fst snd]; by rewrite Eh).
      destruct (IH None arr n refs Hvp Hps)
        as (layer' & arr' & -> & Harr); [lia |].
      exists layer', arr'.
      rewrite decide_True by (unfold tile_missing; cbn [fst snd]; by rewrite Eh).
      split; done.
Qed.

Lemma frame_loop_exact env g xs ys : ∀ layer arr n refs,
  SDL_RectEmpty (map_gauge_viewport g) = false → tile_providers g ≠ [] →
  (n + length ys * length xs ≤ length arr)%nat →
  let ts := ys ≫= λ ty, (λ tx, (tx, ty)) <$> xs in
  let news := omap (frame_patch env g) ts in
  ∃ layer' arr',
    for_each ys (λ ty layer,
                   for_each xs (tile_body env (map_gauge_viewport g) ty) layer)
             layer (mkWorld (with_patches arr n g) refs)
    = mkOut layer'
            (mkWorld (with_patches arr' (n + length news) g) (take_refs news refs))
            (miss_events (level g) (filter (tile_missing env g) ts)) ∧
    arr' = take n arr ++ news ++ drop (n + length news) arr.
Proof.
  induction ys as [| y ys IH]; intros layer arr n refs Hvp Hps Hlen; cbv zeta.
  - exists layer, arr. cbn [mbind list_bind omap list_omap length for_each].
    rewrite Nat.add_0_r, app_nil_l, take_drop. done.
  - cbn [for_each]. rewrite bind_eq, bind_cons, omap_app, filter_app.
    cbn [length Nat.mul] in Hlen.
    destruct (row_loop_exact env g y xs layer arr n refs Hvp Hps)
      as (layer1 & arr1 & -> & Harr1); [lia |].
    cbn [val st log].
    set (news1 := omap (frame_patch env g) ((λ tx, (tx, y)) <$> xs)) in *.
    assert (Hn1 : (length news1 ≤ length xs)%nat).
    { unfold news1. etrans; [apply frame_patch_count |]. by rewrite length_fmap. }
    assert (Hlen1 : length arr1 = length arr).
    { rewrite Harr1, !length_app, length_take, length_drop. lia. }
    destruct (IH layer1 arr1 (n + length news1)%nat (take_refs news1 refs) Hvp Hps)
      as (layer' & arr' & -> & Harr); [lia |].
    exists layer', arr'.
    rewrite length_app, Nat.add_assoc.
    unfold take_refs, miss_events. rewrite foldl_app, fmap_app.
    split; [done |].
    rewrite Harr. rewrite Harr1 at 1 2. rewrite (app_assoc (take n arr) news1).
    rewrite take_app_length' by (rewrite length_app, length_take; lia).
    rewrite drop_app_ge by (rewrite length_app, length_take; lia).
    rewrite drop_drop, length_app, length_take, <- !app_assoc.
    do 3 f_equal. f_equal. lia.
Qed.

(** ** The update in closed form *)

Lemma rebuild_patches_exact env g arr n refs :
  viewport_fits_int g → tile_providers g ≠ [] →
  (Z.to_nat (tile_span g) ≤ length arr)%nat →
  let news := omap (frame_patch env g) (frame_tiles g) in
  rebuild_patches env g (mkWorld (with_patches arr n g) refs)
  = mkOut tt
      (mkWorld (update_marker_patch (map_gauge_viewport g)
                  (with_patches (news ++ drop (length news) arr) (length news) g))
               (take_refs news (unref_all (take n arr) refs)))
      (miss_events (level g) (missing_tiles env g)).
Proof.
  intros Hv Hps Hlen. cbv zeta.
  destruct (tile_span_count g Hv) as (Espan & Hnx & Hny).
  unfold rebuild_patches. rewrite !bind_modify, bind_eq. fields.
  set (ys := seqZ (tl_tile_y g) (br_tile_y g - tl_tile_y g + 1)).
  set (xs := seqZ (tl_tile_x g) (br_tile_x g - tl_tile_x g + 1)).
  set (refs' := unref_all _ _).
  assert (Hcount : (length ys * length xs)%nat = Z.to_nat (tile_span g)).
  { unfold ys, xs. rewrite !length_seqZ, Espan, Z2Nat.inj_mul by lia. lia. }
  change (with_patches arr 0 (with_patches arr n g)) with (with_patches arr 0 g).
  destruct (frame_loop_exact env g xs ys (uninit_layer env) arr 0%nat refs')
    as (layer' & arr' & -> & Harr).
  { destruct Hv as (Hw & Hh & _). by apply viewport_not_empty. }
  { done. }
  { lia. }
  fields. unfold modify. fields.
  rewrite Harr, take_0, app_nil_l, !Nat.add_0_l.
  unfold missing_tiles, frame_tiles. fold xs ys. rewrite app_nil_r. done.
Qed.

Lemma update_state_exact env dt w :
  frame_ready env (gauge w) →
  let g := gauge w in
  let news := omap (frame_patch env g) (frame_tiles g) in
  let grow := tile_span g >? apatches (state g) in
  map_gauge_update_state env dt w
  = mkOut tt
      (mkWorld (update_marker_patch (map_gauge_viewport g)
                  (with_patches (news ++ drop (length news) (frame_array env g))
                                (length news)
                                (if grow then with_apatches (tile_span g) g else g)))
               (take_refs news (unref_all (live_patches g) (layer_refs w))))
      ((if grow then [CallRealloc (tile_span g)] else [])
         ++ miss_events (level g) (missing_tiles env g)).
Proof.
  intros (Hv & (Hsized & Halloc) & Hps & Hn). destruct w as [g refs].
  cbn [gauge layer_refs] in *. cbv zeta.
  destruct (tile_span_count g Hv) as (Espan & Hnx & Hny).
  assert (0 < tile_span g) by (rewrite Espan; nia).
  unfold array_sized in Hsized.
  rewrite update_state_eq. cbv zeta. fields. unfold frame_array, live_patches.
  destruct (Z.gtb_spec (tile_span g) (apatches (state g))) as [Hgt | Hle].
  - destruct Halloc as [Hle | ->]; [lia |]. fields.
    set (g1 := with_apatches (tile_span g) g).
    set (arr1 := take _ _).
    change (rebuild_patches env g) with (rebuild_patches env g1).
    rewrite (rebuild_patches_exact env g1 arr1 (npatches (state g)) refs Hv Hps).
    + cbn [st log].
      assert (take (npatches (state g)) arr1
              = take (npatches (state g)) (patches (state g))) as ->.
      { unfold arr1. rewrite take_take, take_app_le by lia. f_equal. lia. }
      done.
    + change (tile_span g1) with (tile_span g). unfold arr1.
      rewrite length_take, length_app, length_replicate. lia.
  - pose proof (rebuild_patches_exact env g (patches (state g))
                  (npatches (state g)) refs Hv Hps) as Hr.
    rewrite with_patches_eta in Hr. rewrite Hr by lia. done.
Qed.

(** The reference counts, patch by patch. *)
Lemma refcount_ref l l' refs :
  refcount (generic_layer_ref l' refs) l
  = (refcount refs l + if bool_decide (l' = l) then 1 else 0)%nat.
Proof.
  unfold refcount, generic_layer_ref. case_bool_decide as E.
  - subst. rewrite lookup_insert_eq. cbn. lia.
  - rewrite lookup_insert_ne by done. lia.
Qed.

Lemma refcount_unref l l' refs :
  refcount (generic_layer_unref l' refs) l
  = (refcount refs l - if bool_decide (l' = l) then 1 else 0)%nat.
Proof.
  unfold refcount, generic_layer_unref. case_bool_decide as E.
  - subst. rewrite lookup_insert_eq. cbn. lia.
  - rewrite lookup_insert_ne by done. lia.
Qed.

Lemma uses_cons l p ps :
  uses l (p :: ps)
  = ((if bool_decide (patch_layer p = l) then 1 else 0) + uses l ps)%nat.
Proof.
  unfold uses. rewrite filter_cons.
  case_decide; case_bool_decide; done.
Qed.

Lemma refcount_take_refs l ps : ∀ refs,
  refcount (take_refs ps refs) l = (refcount refs l + uses l ps)%nat.
Proof.
  induction ps as [| p ps IH]; intros refs; [cbn; lia |].
  unfold take_refs in *. cbn [foldl]. rewrite IH, refcount_ref, uses_cons. lia.
Qed.

Lemma refcount_unref_all l ps : ∀ refs,
  refcount (unref_all ps refs) l = (refcount refs l - uses l ps)%nat.
Proof.
  induction ps as [| p ps IH]; intros refs; [cbn; lia |].
  unfold unref_all in *. cbn [foldl]. rewrite IH, refcount_unref, uses_cons. lia.
Qed.

(** ** What a frame holds *)



Lemma frame_tiles_length g :
  viewport_fits_int g → Z.of_nat (length (frame_tiles g)) = tile_span g.
Proof.
  intros Hv. destruct (tile_span_count g Hv) as (Espan & Hnx & Hny).
  unfold frame_tiles.
  set (xs := seqZ (tl_tile_x g) (br_tile_x g - tl_tile_x g + 1)).
  set (ys := seqZ (tl_tile_y g) (br_tile_y g - tl_tile_y g + 1)).
  assert (length (ys ≫= λ tiley, (λ tilex, (tilex, tiley)) <$> xs)
          = (length ys * length xs)%nat) as ->.
  { induction ys as [| y ys IH]; [done |].
    rewrite bind_cons, length_app, length_fmap, IH. cbn [length]. lia. }
  unfold xs, ys. rewrite !length_seqZ, Espan. nia.
Qed.

(** X10: with the patch array available and a provider to ask, the live
    patches [map_gauge_update_state] leaves are exactly one per tile of
    the frame that some provider has, in loop order (rows top to bottom,
    left to right in a row), each carrying the layer of the first
    provider that has the tile; every other tile of the frame is reported
    once, in the same order, after the one [realloc] request made when
    the frame outgrows the array. *)
Theorem update_state_builds_frame (env : Env) (dt : Z) (w : World) :
  frame_ready env (gauge w) →
  let g := gauge w in
  let r := map_gauge_update_state env dt w in
  live_patches (gauge (st r)) = omap (frame_patch env g) (frame_tiles g) ∧
  log r = (if tile_span g >? apatches (state g)
           then [CallRealloc (tile_span g)] else [])
          ++ miss_events (level g) (missing_tiles env g).
Proof.
  intros Hr. cbv zeta. rewrite (update_state_exact env dt w Hr). cbv zeta.
  cbn [st log gauge]. split; [| done].
  rewrite update_marker_patch_live. unfold live_patches. fields.
  by rewrite take_app_length.
Qed.

Lemma update_state_builds_frame_witness :
  let w := mkWorld example_gauge ∅ in
  let r := map_gauge_update_state sample_env 16 w in
  frame_ready sample_env (gauge w) ∧
  live_patches (gauge (st r))
  = omap (frame_patch sample_env (gauge w)) (frame_tiles (gauge w)) ∧
  log r = (if tile_span (gauge w) >? apatches (state (gauge w))
           then [CallRealloc (tile_span (gauge w))] else [])
          ++ miss_events (level (gauge w)) (missing_tiles sample_env (gauge w)).
Proof.
  intros w r.
  assert (H1 : frame_ready sample_env (gauge w)).
  { split; [vm_compute; repeat split; discriminate |].
    split; [split; [reflexivity | right; reflexivity] |].
    split; [discriminate | vm_compute; lia]. }
  split; [exact H1 |].
  exact (update_state_builds_frame sample_env 16 w H1).
Defined.



Lemma frame_array_length env g :
  array_sized g → 0 ≤ tile_span g →
  Z.of_nat (length (frame_array env g))
  = Z.max (apatches (state g)) (tile_span g).
Proof.
  unfold array_sized, frame_array. intros Hs Hspan.
  destruct (Z.gtb_spec (tile_span g) (apatches (state g))).
  - rewrite length_take, length_app, length_replicate. lia.
  - lia.
Qed.

(** The marker rectangles do not depend on what the slots held. *)
Lemma update_marker_patch_eq g g0 :
  super g0 = super g → world_x g0 = world_x g → world_y g0 = world_y g →
  marker g0 = marker g →
  update_marker_patch (map_gauge_viewport g) g0
  = with_marker_rects (marker_patch g).1 (marker_patch g).2 g0.
Proof.
  intros Es Ex Ey Em. unfold update_marker_patch, marker_patch.
  assert (map_gauge_marker_worldbox g0 = map_gauge_marker_worldbox g) as ->
    by (unfold map_gauge_marker_worldbox, map_gauge_marker_left,
          map_gauge_marker_top; by rewrite Em).
  assert (map_gauge_marker_left g0 = map_gauge_marker_left g) as ->
    by (unfold map_gauge_marker_left; by rewrite Em).
  assert (map_gauge_marker_top g0 = map_gauge_marker_top g) as ->
    by (unfold map_gauge_marker_top; by rewrite Em).
  rewrite Ex, Ey.
  unfold SDL_IntersectRect.
  destruct (SDL_RectEmpty (map_gauge_viewport g)
            || SDL_RectEmpty (map_gauge_marker_worldbox g)); [done |].
  cbv zeta. by destruct (negb _).
Qed.

Lemma rebuild_patches_shape env g g0 arr n refs :
  super g0 = super g → world_x g0 = world_x g → world_y g0 = world_y g →
  marker g0 = marker g →
  ∃ arr' n',
    gauge (st (rebuild_patches env g (mkWorld (with_patches arr n g0) refs)))
    = with_marker_rects (marker_patch g).1 (marker_patch g).2
                        (with_patches arr' n' g0).
Proof.
  intros Es Ex Ey Em. unfold rebuild_patches.
  rewrite !bind_modify, bind_eq. fields.
  set (refs' := unref_all _ _).
  change (with_patches arr 0 (with_patches arr n g0)) with (with_patches arr 0 g0).
  destruct (frame_loop_bound env (map_gauge_viewport g) g0
              (seqZ (tl_tile_x g) (br_tile_x g - tl_tile_x g + 1))
              (seqZ (tl_tile_y g) (br_tile_y g - tl_tile_y g + 1))
              (uninit_layer env) arr 0%nat refs')
    as (layer' & arr' & n' & refs'' & lg & -> & _).
  fields. unfold modify. fields.
  exists arr', n'. by apply update_marker_patch_eq.
Qed.

(** The gauge after an update, field by field. *)
Lemma update_state_shape env dt w :
  frame_ready env (gauge w) →
  let g := gauge w in
  let news := omap (frame_patch env g) (frame_tiles g) in
  gauge (st (map_gauge_update_state env dt w))
  = mkGauge (super g) (level g) (world_x g) (world_y g) (marker g)
            (tile_providers g) (roaming g) (last_manipulation g)
            (mkState (news ++ drop (length news) (frame_array env g))
                     (Z.max (apatches (state g)) (tile_span g))
                     (length news) (marker_patch g).1 (marker_patch g).2) ∧
  Z.of_nat (length (news ++ drop (length news) (frame_array env g)))
  = Z.max (apatches (state g)) (tile_span g) ∧
  Z.of_nat (length news) ≤ tile_span g ∧ 0 < tile_span g.
Proof.
  intros Hr. cbv zeta. rewrite (update_state_exact env dt w Hr). cbv zeta.
  destruct Hr as (Hv & (Hsized & Halloc) & Hps & Hn).
  destruct (tile_span_count (gauge w) Hv) as (Espan & Hnx & Hny).
  set (g := gauge w) in *. cbn [st gauge].
  set (news := omap (frame_patch env g) (frame_tiles g)).
  assert (Hnews : Z.of_nat (length news) ≤ tile_span g).
  { rewrite <- (frame_tiles_length g Hv).
    pose proof (frame_patch_count env g (frame_tiles g)). fold news in H. lia. }
  assert (Hfarr := frame_array_length env g Hsized ltac:(nia)).
  split; [| split; [| split; [done | nia]]].
  - rewrite (update_marker_patch_eq g)
      by (destruct (tile_span g >? apatches (state g)); done).
    destruct (Z.gtb_spec (tile_span g) (apatches (state g))).
    + rewrite Z.max_r by lia. done.
    + rewrite Z.max_l by lia. done.
  - rewrite length_app, length_drop. lia.
Qed.

Lemma update_state_ready env env' dt w :
  frame_ready env (gauge w) →
  let g' := gauge (st (map_gauge_update_state env dt w)) in
  frame_ready env' g' ∧ tile_span g' ≤ apatches (state g').
Proof.
  intros Hr. cbv zeta.
  destruct (update_state_shape env dt w Hr) as (-> & Hlen & Hnews & Hpos).
  destruct Hr as (Hv & (Hsized & Halloc) & Hps & Hn).
  set (g := gauge w) in *.
  set (news := omap (frame_patch env g) (frame_tiles g)) in *.
  set (arr := news ++ drop (length news) (frame_array env g)) in *.
  set (g' := mkGauge _ _ _ _ _ _ _ _ _).
  assert (Espan : tile_span g' = tile_span g) by done.
  assert (Hfit : tile_span g' ≤ apatches (state g'))
    by (rewrite Espan; unfold g'; fields; lia).
  split; [| done]. split; [exact Hv |]. split; [split |].
  - unfold array_sized, g'. fields. lia.
  - by left.
  - split; [exact Hps |]. unfold g'. fields. unfold arr.
    rewrite length_app. lia.
Qed.

(** X12: an update re-establishes what the next one relies on: the
    viewport is untouched, the array has the size the gauge believes and
    holds the frame without a further [realloc], whatever the providers
    and the allocator do next. *)
Theorem update_state_keeps_ready (env env' : Env) (dt : Z) (w : World) :
  frame_ready env (gauge w) →
  let g' := gauge (st (map_gauge_update_state env dt w)) in
  frame_ready env' g' ∧ tile_span g' ≤ apatches (state g').
Proof. apply update_state_ready. Qed.

Lemma update_state_keeps_ready_witness :
  let w := mkWorld example_gauge ∅ in
  let g' := gauge (st (map_gauge_update_state sample_env 16 w)) in
  frame_ready sample_env (gauge w) ∧
  frame_ready (mkEnv (λ _ _ _ _, None) (λ _, false)
                     (mkPatch 1%positive zero_rect zero_rect) None) g' ∧
  tile_span g' ≤ apatches (state g').
Proof.
  intros w g'.
  assert (H1 : frame_ready sample_env (gauge w)).
  { split; [vm_compute; repeat split; discriminate |].
    split; [split; [reflexivity | right; reflexivity] |].
    split; [discriminate | vm_compute; lia]. }
  split; [exact H1 |].
  exact (update_state_keeps_ready sample_env
           (mkEnv (λ _ _ _ _, None) (λ _, false)
                  (mkPatch 1%positive zero_rect zero_rect) None) 16 w H1).
Defined.

(** X13: whatever the providers return and whether or not [realloc]
    succeeds, [map_gauge_update_state] writes only the per-frame state:
    level, origin, marker, providers, mode, the time of the last
    manipulation and the base gauge with its dirty flag are as before. *)
Theorem update_state_touches_only_state (env : Env) (dt : Z) (w : World) :
  let g := gauge w in
  let g' := gauge (st (map_gauge_update_state env dt w)) in
  super g' = super g ∧ level g' = level g ∧
  (world_x g', world_y g') = (world_x g, world_y g) ∧
  marker g' = marker g ∧ tile_providers g' = tile_providers g ∧
  (roaming g', last_manipulation g') = (roaming g, last_manipulation g).
Proof.
  cbv zeta. destruct w as [g refs]. cbn [gauge].
  rewrite update_state_eq. cbv zeta. fields.
  destruct (tile_span g >? apatches (state g)).
  - destruct (realloc_ok env (tile_span g)); fields; [| done].
    destruct (rebuild_patches_shape env g (with_apatches (tile_span g) g)
                (take (Z.to_nat (tile_span g))
                   (patches (state g)
                      ++ replicate (Z.to_nat (tile_span g)) (uninit_patch env)))
                (npatches (state g)) refs)
      as (arr' & n' & ->); done.
  - pose proof (rebuild_patches_shape env g g (patches (state g))
                  (npatches (state g)) refs) as Hr.
    rewrite with_patches_eta in Hr.
    destruct Hr as (arr' & n' & ->); done.
Qed.

(** ** The patches and the layers they hold *)




(** X15: an update settles the reference counts: every layer loses one
    reference per patch of the old frame that pointed to it (never going
    below zero) and gains one per patch of the new frame. *)
Theorem update_state_balances_refs (env : Env) (dt : Z) (w : World) (l : LayerId) :
  frame_ready env (gauge w) →
  let r := map_gauge_update_state env dt w in
  refcount (layer_refs (st r)) l
  = (refcount (layer_refs w) l - uses l (live_patches (gauge w))
     + uses l (live_patches (gauge (st r))))%nat.
Proof.
  intros Hr. cbv zeta. rewrite (update_state_exact env dt w Hr). cbv zeta.
  cbn [st gauge layer_refs].
  rewrite update_marker_patch_live. unfold live_patches at 3. fields.
  rewrite take_app_length.
  by rewrite refcount_take_refs, refcount_unref_all.
Qed.

Lemma update_state_balances_refs_witness :
  let w := mkWorld example_gauge ∅ in
  let r := map_gauge_update_state sample_env 16 w in
  frame_ready sample_env (gauge w) ∧
  refcount (layer_refs (st r)) 1%positive
  = (refcount (layer_refs w) 1%positive
     - uses 1%positive (live_patches (gauge w))
     + uses 1%positive (live_patches (gauge (st r))))%nat.
Proof.
  intros w r.
  assert (H1 : frame_ready sample_env (gauge w)).
  { split; [vm_compute; repeat split; discriminate |].
    split; [split; [reflexivity | right; reflexivity] |].
    split; [discriminate | vm_compute; lia]. }
  split; [exact H1 |].
  exact (update_state_balances_refs sample_env 16 w 1%positive H1).
Defined.



(** ** The marker patch and the drawing *)

Lemma marker_patch_plain g :
  marker_plain g →
  marker_patch g
  = if box_intersects_viewport g then marker_cut g else (absent_rect, absent_rect).
Proof.
  intros (Hlw & Hlh & Hw & Hh & Hbl & Hbt & Hbr & Hbb & Hx & Hy & Hxw & Hyh).
  unfold INT_MAX, PIX_LIMIT, box_right, box_bottom, box_left, box_top in *.
  assert (El : map_gauge_marker_left g
               = mx (marker g) - Z.quot (generic_layer_w (layer (marker g))) 2)
    by (apply u32_id; lia).
  assert (Et : map_gauge_marker_top g
               = my (marker g) - Z.quot (generic_layer_h (layer (marker g))) 2)
    by (apply u32_id; lia).
  unfold marker_patch.
  rewrite (surjective_pairing (SDL_IntersectRect (map_gauge_viewport g)
                                 (map_gauge_marker_worldbox g) zero_rect)).
  rewrite intersect_visible, intersect_plain;
    unfold map_gauge_viewport, map_gauge_marker_worldbox, INT_MAX;
    cbn [rx ry rw rh]; rewrite ?El, ?Et, ?s32_id by lia; try lia.
  unfold box_intersects_viewport, marker_cut, box_right, box_bottom, box_left,
    box_top.
  rewrite (proj2 (Z.ltb_lt 0 (generic_layer_w (layer (marker g))))) by lia.
  rewrite (proj2 (Z.ltb_lt 0 (generic_layer_h (layer (marker g))))) by lia.
  rewrite (proj2 (Z.ltb_lt 0 (base_gauge_w g))) by lia.
  rewrite (proj2 (Z.ltb_lt 0 (base_gauge_h g))) by lia.
  cbn [andb].
  destruct (Z.ltb_spec
              (Z.max (world_x g)
                 (mx (marker g) - generic_layer_w (layer (marker g)) `quot` 2))
              (Z.min (world_x g + base_gauge_w g)
                 (mx (marker g) - generic_layer_w (layer (marker g)) `quot` 2
                  + generic_layer_w (layer (marker g))))); [| done].
  destruct (Z.ltb_spec
              (Z.max (world_y g)
                 (my (marker g) - generic_layer_h (layer (marker g)) `quot` 2))
              (Z.min (world_y g + base_gauge_h g)
                 (my (marker g) - generic_layer_h (layer (marker g)) `quot` 2
                  + generic_layer_h (layer (marker g))))); [| done].
  cbn [andb]. rewrite ?s32_id by lia. done.
Qed.

(** X17: away from wrap-around, an update that gets its array leaves the
    marker rectangles at the part of the marker's box inside the
    viewport, or at (-1,-1,-1,-1) when the box misses the viewport; and
    [map_gauge_render] then blits the live patches in order, the marker
    exactly when its box meets the viewport, and the outline last. *)
Theorem update_state_marker_patch (env : Env) (dt dt' : Z) (w : World) :
  marker_plain (gauge w) →
  tile_span (gauge w) ≤ apatches (state (gauge w))
  ∨ realloc_ok env (tile_span (gauge w)) = true →
  let g := gauge w in
  let g' := gauge (st (map_gauge_update_state env dt w)) in
  (marker_src (state g'), marker_dst (state g'))
  = (if box_intersects_viewport g then marker_cut g
     else (absent_rect, absent_rect)) ∧
  map_gauge_render g' dt'
  = ((λ p, BlitLayer (patch_layer p) (src p) (dst p)) <$> live_patches g')
    ++ (if box_intersects_viewport g
        then [BlitRotatedTexture (marker_cut g).1 (heading (marker g))
                                 (marker_cut g).2]
        else [])
    ++ [DrawOutline].
Proof.
  intros Hplain Halloc. cbv zeta. destruct w as [g refs]. cbn [gauge] in *.
  assert (Hshape : ∃ arr' n' g0,
    marker g0 = marker g ∧
    gauge (st (map_gauge_update_state env dt (mkWorld g refs)))
    = with_marker_rects (marker_patch g).1 (marker_patch g).2
                        (with_patches arr' n' g0)).
  { rewrite update_state_eq. cbv zeta. fields.
    destruct (Z.gtb_spec (tile_span g) (apatches (state g))).
    - destruct Halloc as [Hle | ->]; [lia |]. fields.
      destruct (rebuild_patches_shape env g (with_apatches (tile_span g) g)
                  (take (Z.to_nat (tile_span g))
                     (patches (state g)
                        ++ replicate (Z.to_nat (tile_span g)) (uninit_patch env)))
                  (npatches (state g)) refs)
        as (arr' & n' & ->); try done.
      by exists arr', n', (with_apatches (tile_span g) g).
    - pose proof (rebuild_patches_shape env g g (patches (state g))
                    (npatches (state g)) refs) as Hr.
      rewrite with_patches_eta in Hr.
      destruct Hr as (arr' & n' & ->); try done.
      by exists arr', n', g. }
  destruct Hshape as (arr' & n' & g0 & Em & ->).
  rewrite (marker_patch_plain g Hplain).
  unfold map_gauge_render, live_patches. fields. rewrite Em.
  destruct (box_intersects_viewport g) eqn:Eb; cbn [fst snd].
  - split; [by destruct (marker_cut g) |].
    unfold marker_cut. cbv zeta. cbn [fst snd rx].
    rewrite (proj2 (Z.geb_le _ _)) by lia. done.
  - done.
Qed.

Lemma update_state_marker_patch_witness :
  let w := mkWorld example_gauge ∅ in
  let g' := gauge (st (map_gauge_update_state sample_env 16 w)) in
  (marker_plain (gauge w) ∧
   (tile_span (gauge w) ≤ apatches (state (gauge w))
    ∨ realloc_ok sample_env (tile_span (gauge w)) = true)) ∧
  (marker_src (state g'), marker_dst (state g'))
  = (if box_intersects_viewport (gauge w) then marker_cut (gauge w)
     else (absent_rect, absent_rect)) ∧
  map_gauge_render g' 16
  = ((λ p, BlitLayer (patch_layer p) (src p) (dst p)) <$> live_patches g')
    ++ (if box_intersects_viewport (gauge w)
        then [BlitRotatedTexture (marker_cut (gauge w)).1
                                 (heading (marker (gauge w)))
                                 (marker_cut (gauge w)).2]
        else [])
    ++ [DrawOutline].
Proof.
  intros w g'.
  assert (H1 : marker_plain (gauge w)) by (vm_compute; repeat split; discriminate).
  assert (H2 : tile_span (gauge w) ≤ apatches (state (gauge w))
               ∨ realloc_ok sample_env (tile_span (gauge w)) = true)
    by (right; reflexivity).
  split; [exact (conj H1 H2) |].
  exact (update_state_marker_patch sample_env 16 16 w H1 H2).
Defined.



(** X19: [map_gauge_new] fails only when [calloc] does.  The gauge it
    returns has the requested size, two providers, level 0, the origin
    at (0,0), follows the marker and holds no patch; drawn before its
    first update it blits no tile but does blit the marker, with empty
    rectangles, since the zeroed source rectangle passes the [x >= 0]
    test. *)
Theorem new_gauge_first_render (cfg : BuildConfig) (ok : bool) (w h dt : Z) :
  let g := st (map_gauge_init cfg w h calloc_gauge) in
  map_gauge_new cfg ok w h = (if ok then Some g else None) ∧
  (base_gauge_w g, base_gauge_h g) = (w, h) ∧
  length (tile_providers g) = 2%nat ∧
  (level g, world_x g, world_y g, roaming g) = (0, 0, 0, false) ∧
  live_patches g = [] ∧
  map_gauge_render g dt
  = [BlitRotatedTexture zero_rect (heading (marker g)) zero_rect; DrawOutline].
Proof.
  cbv zeta. unfold map_gauge_new.
  assert (Ev : val (map_gauge_init cfg w h calloc_gauge) = true).
  { unfold map_gauge_init.
    destruct (HAVE_IGN_OACI_MAP cfg); by rewrite !bind_modify, ret_eq. }
  rewrite Ev. split; [done |].
  unfold map_gauge_init.
  destruct (HAVE_IGN_OACI_MAP cfg); rewrite !bind_modify, ret_eq; done.
Qed.

(** * Further properties of the X-Plane data source *)

Section XPlaneFacts.
Import XPlane.

Lemma uchar_inj c1 c2 : uchar c1 = uchar c2 → c1 = c2.
Proof.
  unfold uchar. intros E. apply N2Z.inj in E.
  assert (Some c1 = Some c2) as [= ->]; [| done].
  by rewrite <- (Byte.of_to_N c1), <- (Byte.of_to_N c2), E.
Qed.

Lemma uchar_range c : 0 ≤ uchar c < 256.
Proof. unfold uchar. pose proof (Byte.to_N_bounded c). lia. Qed.

Lemma uchar_byte_of z : uchar (byte_of z) = z mod 256.
Proof.
  unfold uchar, byte_of.
  pose proof (Z.mod_pos_bound z 256 ltac:(lia)).
  destruct (Byte.of_N (Z.to_N (z mod 256))) as [b |] eqn:E.
  - apply Byte.to_of_N in E. cbn [default id]. rewrite E. lia.
  - apply Byte.of_N_None_iff in E. lia.
Qed.

Lemma le32_le_bytes z : 0 ≤ z < 2 ^ 32 → le32 (le_bytes z) = z.
Proof.
  intros Hz. unfold le32, le_bytes. cbn [foldr]. rewrite !uchar_byte_of.
  change (2 ^ 8) with 256. change (2 ^ 16) with (256 * 256).
  change (2 ^ 24) with (256 * 256 * 256).
  pose proof (Z.div_mod z 256 ltac:(lia)).
  pose proof (Z.div_mod (z / 256) 256 ltac:(lia)).
  pose proof (Z.div_mod (z / 256 / 256) 256 ltac:(lia)).
  rewrite <- !Z.div_div by lia.
  assert (z / 256 / 256 / 256 < 256).
  { rewrite !Z.div_div by lia. apply Z.div_lt_upper_bound; lia. }
  assert (0 ≤ z / 256 / 256 / 256).
  { rewrite !Z.div_div by lia. apply Z.div_pos; lia. }
  rewrite (Z.mod_small (z / 256 / 256 / 256)) by lia. lia.
Qed.

(** The header test on a buffer of at least 5 bytes. *)
Lemma strncmp_header buf :
  (5 ≤ length buf)%nat →
  strncmp buf DATA_header 5 = 0 ↔ take 5 buf = DATA_prefix.
Proof.
  intros Hlen.
  destruct buf as [| c1 [| c2 [| c3 [| c4 [| c5 rest]]]]]; cbn [length] in Hlen;
    try lia.
  unfold DATA_header, DATA_prefix. cbn [strncmp take].
  change (uchar Byte.x44) with 68. change (uchar Byte.x41) with 65.
  change (uchar Byte.x54) with 84. change (uchar Byte.x2a) with 42.
  assert (Hinj : ∀ c b, uchar c = uchar b → c = b) by apply uchar_inj.
  split.
  - destruct (Z.eqb_spec (uchar c1) 68) as [E1 | E1]; [| lia].
    destruct (Z.eqb_spec (uchar c1) 0); [lia |].
    destruct (Z.eqb_spec (uchar c2) 65) as [E2 | E2]; [| lia].
    destruct (Z.eqb_spec (uchar c2) 0); [lia |].
    destruct (Z.eqb_spec (uchar c3) 84) as [E3 | E3]; [| lia].
    destruct (Z.eqb_spec (uchar c3) 0); [lia |].
    destruct (Z.eqb_spec (uchar c4) 65) as [E4 | E4]; [| lia].
    destruct (Z.eqb_spec (uchar c4) 0); [lia |].
    destruct (Z.eqb_spec (uchar c5) 42) as [E5 | E5]; [| lia].
    intros _.
    rewrite (Hinj c1 Byte.x44 E1), (Hinj c2 Byte.x41 E2), (Hinj c3 Byte.x54 E3),
      (Hinj c4 Byte.x41 E4), (Hinj c5 Byte.x2a E5). done.
  - intros [= -> -> -> -> ->]. reflexivity.
Qed.

(** The buffer the frame works on, for a datagram that fits. *)
Lemma header_of_payload stack payload :
  length stack = BUFFER_SIZE → (length payload < BUFFER_SIZE)%nat →
  let buffer := <[length payload := Byte.x00]>
                  (payload ++ drop (length payload) stack) in
  strncmp buffer DATA_header 5 = 0 ↔ take 5 payload = DATA_prefix.
Proof.
  intros Hs Hp. cbv zeta.
  rewrite strncmp_header
    by (rewrite length_insert, length_app, length_drop, Hs; unfold BUFFER_SIZE in *;
        lia).
  destruct (decide (5 ≤ length payload)%nat) as [Hge | Hlt].
  - rewrite take_insert_ge, take_app_le by lia. done.
  - split.
    + intros E. exfalso.
      assert (Hl : (<[length payload := Byte.x00]>
                      (payload ++ drop (length payload) stack)) !! length payload
                   = Some Byte.x00).
      { apply list_lookup_insert_eq. rewrite length_app, length_drop, Hs.
        unfold BUFFER_SIZE in *. lia. }
      rewrite <- (lookup_take_lt _ 5) in Hl by lia. rewrite E in Hl.
      unfold DATA_prefix in Hl.
      destruct (length payload) as [| [| [| [| [| n]]]]]; try done; lia.
    + intros E. apply (f_equal length) in E. rewrite length_take in E.
      unfold DATA_prefix in E. cbn [length] in E. lia.
Qed.

Lemma read32_payload stack payload off :
  0 ≤ off → off + 4 ≤ Z.of_nat (length payload) →
  read32 (<[length payload := Byte.x00]>
            (payload ++ drop (length payload) stack)) off
  = read32 payload off.
Proof.
  intros H0 H4. unfold read32. f_equal.
  rewrite drop_insert_ge by lia. rewrite take_insert_ge by lia.
  rewrite drop_app, take_app_le by (rewrite length_drop; lia). done.
Qed.

Lemma foldl_ext_in {A B} (f g : A → B → A) (l : list B) : ∀ a,
  (∀ a x, x ∈ l → f a x = g a x) → foldl f a l = foldl g a l.
Proof.
  induction l as [| x l IH]; intros a Hfg; [done |]. cbn [foldl].
  rewrite Hfg by apply list_elem_of_here.
  apply IH. intros a' y Hy. apply Hfg. by apply list_elem_of_further.
Qed.

Lemma row_body_parser buffer tbl acc i :
  let row_id := s32 (read32 buffer (5 + i * 36)) in
  let values := (λ k, read32 buffer (5 + i * 36 + 4 + 4 * k)) <$> seqZ 0 8 in
  row_body buffer tbl acc i
  = match parser_for tbl row_id with
    | Some parser => (parser values acc.1, acc.2)
    | None => (acc.1, acc.2 ++ [CallPrintfUnsupported row_id])
    end.
Proof.
  cbv zeta. unfold row_body, parser_for.
  destruct (_ && _); [| done].
  by destruct (tbl !! _) as [[parser |] |].
Qed.

(** The loop over the rows, as a fold over the rows read off the
    payload. *)
Lemma rows_fold tbl payload (ks : list Z) : ∀ t cs,
  let row := λ i, (s32 (read32 payload (5 + i * 36)),
                   (λ k, read32 payload (5 + i * 36 + 4 + 4 * k)) <$> seqZ 0 8) in
  foldl (row_body payload tbl) (t, cs) ks
  = (foldl (apply_row tbl) t (row <$> ks),
     cs ++ (CallPrintfUnsupported <$> unsupported tbl (row <$> ks))).
Proof.
  cbv zeta. induction ks as [| i ks IH]; intros t cs.
  - cbn. by rewrite app_nil_r.
  - cbn [foldl fmap list_fmap]. rewrite row_body_parser. cbn [fst snd].
    unfold unsupported. cbn [fmap list_fmap fst]. rewrite filter_cons.
    unfold apply_row at 2. cbn [fst snd].
    set (row_id := s32 (read32 payload (5 + i * 36))).
    set (values := (λ k, read32 payload (5 + i * 36 + 4 + 4 * k)) <$> seqZ 0 8).
    assert (Hc : (∃ parser, parser_for tbl row_id = Some parser)
                 ∨ parser_for tbl row_id = None)
      by (destruct (parser_for tbl row_id); eauto).
    destruct Hc as [[parser E] | E]; rewrite E.
    + rewrite decide_False by done. by rewrite IH.
    + rewrite decide_True by done.
      rewrite IH. cbn [fmap list_fmap]. by rewrite <- app_assoc.
Qed.

(** The frame on a datagram that fits the buffer and carries the
    header. *)
Lemma frame_decodes stack payload dt self p :
  length stack = BUFFER_SIZE → (length payload < BUFFER_SIZE)%nat →
  take 5 payload = DATA_prefix →
  let rows := rows_of payload in
  let t := foldl (apply_row (lookup_table p)) (telemetry p) rows in
  xp_data_source_frame stack (Data payload) dt self p
  = Some (true, mkXP true (port self),
          mkProgram (lookup_table p) t (sockfd p),
          (CallPrintfUnsupported <$> unsupported (lookup_table p) rows) ++ publish t).
Proof.
  intros Hs Hp Hh. cbv zeta. unfold xp_data_source_frame, recvfrom.
  rewrite take_ge by lia. rewrite Nat2Z.id.
  assert (Hlen5 : (5 ≤ length payload)%nat).
  { apply (f_equal length) in Hh. rewrite length_take in Hh.
    unfold DATA_prefix in Hh. cbn [length] in Hh. lia. }
  unfold BUFFER_SIZE in *.
  replace (Z.of_nat (length payload) <? 0) with false
    by (symmetry; apply Z.ltb_ge; lia).
  replace (Z.of_nat (length payload) >? Z.of_nat 1024) with false
    by (symmetry; rewrite Z.gtb_ltb; apply Z.ltb_ge; lia).
  replace (Z.of_nat (length payload) =? Z.of_nat 1024) with false
    by (symmetry; apply Z.eqb_neq; lia).
  cbn [orb].
  rewrite (proj2 (Z.eqb_eq _ 0))
    by (apply (header_of_payload stack payload); done).
  rewrite (s32_id (Z.of_nat (length payload) - 5)) by lia.
  set (n := Z.quot (Z.of_nat (length payload) - 5) 36).
  assert (Hn : 36 * n ≤ Z.of_nat (length payload) - 5).
  { unfold n. rewrite Z.quot_div_nonneg by lia. apply Z.mul_div_le. lia. }
  rewrite (foldl_ext_in _ (row_body payload (lookup_table p)) (seqZ 0 n)).
  - rewrite rows_fold. cbn [app]. unfold rows_of. fold n. done.
  - intros [t cs] i Hi. apply elem_of_seqZ in Hi.
    unfold row_body.
    rewrite (read32_payload stack payload (5 + i * 36)) by lia.
    assert (Hv : ((λ k, read32 (<[length payload := Byte.x00]>
                     (payload ++ drop (length payload) stack))
                     (5 + i * 36 + 4 + 4 * k)) <$> seqZ 0 8)
                 = ((λ k, read32 payload (5 + i * 36 + 4 + 4 * k)) <$> seqZ 0 8)).
    { apply list_fmap_ext. intros j k Hk. apply lookup_seqZ in Hk.
      apply read32_payload; lia. }
    rewrite Hv. done.
Qed.

Lemma frame_foreign stack d dt self p :
  length stack = BUFFER_SIZE →
  (d = NoData ∨
   ∃ payload, d = Data payload ∧ (length payload < BUFFER_SIZE)%nat ∧
              take 5 payload ≠ DATA_prefix) →
  xp_data_source_frame stack d dt self p = Some (true, self, p, []).
Proof.
  intros Hs [-> | (payload & -> & Hp & Hh)]; [done |].
  unfold xp_data_source_frame, recvfrom.
  rewrite take_ge by lia. rewrite Nat2Z.id.
  unfold BUFFER_SIZE in *.
  replace (Z.of_nat (length payload) <? 0) with false
    by (symmetry; apply Z.ltb_ge; lia).
  replace (Z.of_nat (length payload) >? Z.of_nat 1024) with false
    by (symmetry; rewrite Z.gtb_ltb; apply Z.ltb_ge; lia).
  replace (Z.of_nat (length payload) =? Z.of_nat 1024) with false
    by (symmetry; apply Z.eqb_neq; lia).
  cbn [orb].
  destruct (Z.eqb_spec
              (strncmp (<[length payload := Byte.x00]>
                          (payload ++ drop (length payload) stack))
                       DATA_header 5) 0) as [E | E]; [| done].
  apply (header_of_payload stack payload) in E; done.
Qed.

(** X20: a receive error, or a datagram that does not begin with the
    five bytes [DATA*], changes nothing: the telemetry, the fix flag and
    the globals stay as they are, nothing is published or printed, and
    the frame still reports success.  A datagram shorter than the header
    never passes for one, whatever the buffer held before. *)
Theorem xp_frame_rejects_foreign_packets
    (stack : list Byte.byte) (d : Datagram) (dt : Z)
    (self : XPDataSource) (p : Program) :
  length stack = BUFFER_SIZE →
  (d = NoData ∨
   ∃ payload, d = Data payload ∧ (length payload < BUFFER_SIZE)%nat ∧
              take 5 payload ≠ DATA_prefix) →
  xp_data_source_frame stack d dt self p = Some (true, self, p, []).
Proof. apply frame_foreign. Qed.

Lemma xp_frame_rejects_foreign_packets_witness :
  let stack := replicate 1024 Byte.x44 in
  let d := Data [Byte.x44; Byte.x41; Byte.x54] in
  (length stack = BUFFER_SIZE ∧
   (d = NoData ∨
    ∃ payload, d = Data payload ∧ (length payload < BUFFER_SIZE)%nat ∧
               take 5 payload ≠ DATA_prefix)) ∧
  xp_data_source_frame stack d 16 (mkXP false 49000) program0
  = Some (true, mkXP false 49000, program0, []).
Proof.
  intros stack d.
  assert (H1 : length stack = BUFFER_SIZE) by reflexivity.
  assert (H2 : d = NoData ∨
               ∃ payload, d = Data payload ∧ (length payload < BUFFER_SIZE)%nat ∧
                          take 5 payload ≠ DATA_prefix).
  { right. exists [Byte.x44; Byte.x41; Byte.x54].
    split; [reflexivity |]. split; [vm_compute; lia | discriminate]. }
  split; [exact (conj H1 H2) |].
  exact (xp_frame_rejects_foreign_packets stack d 16 (mkXP false 49000)
           program0 H1 H2).
Defined.


(** X21: the frame reads only what it received: whatever the buffer
    held before the call, the outcome is the same; and the one datagram
    size it cannot handle is 1024 bytes or more, where the terminating
    NUL is stored one past the end of the buffer. *)
Theorem xp_frame_reads_only_received_bytes
    (stack stack' : list Byte.byte) (d : Datagram) (dt : Z)
    (self : XPDataSource) (p : Program) :
  length stack = BUFFER_SIZE → length stack' = BUFFER_SIZE →
  xp_data_source_frame stack d dt self p
  = xp_data_source_frame stack' d dt self p ∧
  (xp_data_source_frame stack d dt self p = None ↔
   ∃ payload, d = Data payload ∧ (BUFFER_SIZE ≤ length payload)%nat).
Proof.
  intros Hs Hs'. destruct d as [| payload].
  { rewrite !frame_foreign by (done || by left).
    split; [done |]. split; [done | intros (? & ? & _); done]. }
  destruct (decide (BUFFER_SIZE ≤ length payload)%nat) as [Hbig | Hfit].
  - assert (Hnone : ∀ stk, xp_data_source_frame stk (Data payload) dt self p = None).
    { intros stk. unfold xp_data_source_frame, recvfrom.
      rewrite length_take, Nat.min_l by done. unfold BUFFER_SIZE. done. }
    rewrite !Hnone. split; [done |]. split; [eauto | done].
  - assert (Hsome : ∀ stk, length stk = BUFFER_SIZE →
      ∃ r, xp_data_source_frame stk (Data payload) dt self p = Some r ∧
           ∀ stk', length stk' = BUFFER_SIZE →
                   xp_data_source_frame stk' (Data payload) dt self p = Some r).
    { intros stk Hstk.
      destruct (@list_eq_dec _ Byte.byte_eq_dec (take 5 payload) DATA_prefix)
        as [Hh | Hh].
      - eexists. split; [apply frame_decodes; (done || lia) |].
        intros stk' Hstk'. apply frame_decodes; (done || lia).
      - eexists. split; [apply frame_foreign; [done |]; right; exists payload;
                         split; [done |]; split; [lia | done] |].
        intros stk' Hstk'. apply frame_foreign; [done |]. right. exists payload.
        split; [done |]. split; [lia | done]. }
    destruct (Hsome stack Hs) as (r & Er & Eall).
    rewrite Er, (Eall stack' Hs'). split; [done |].
    split; [done | intros (? & [= <-] & ?); lia].
Qed.

Lemma xp_frame_reads_only_received_bytes_witness :
  let d := Data [Byte.x44; Byte.x41; Byte.x54; Byte.x41; Byte.x2a; Byte.x07] in
  let stack := replicate 1024 Byte.x00 in
  let stack' := replicate 1024 Byte.xff in
  (length stack = BUFFER_SIZE ∧ length stack' = BUFFER_SIZE) ∧
  xp_data_source_frame stack d 16 (mkXP false 49000) program0
  = xp_data_source_frame stack' d 16 (mkXP false 49000) program0 ∧
  (xp_data_source_frame stack d 16 (mkXP false 49000) program0 = None ↔
   ∃ payload, d = Data payload ∧ (BUFFER_SIZE ≤ length payload)%nat).
Proof.
  intros d stack stack'.
  assert (H1 : length stack = BUFFER_SIZE) by reflexivity.
  assert (H2 : length stack' = BUFFER_SIZE) by reflexivity.
  split; [exact (conj H1 H2) |].
  exact (xp_frame_reads_only_received_bytes stack stack' d 16
           (mkXP false 49000) program0 H1 H2).
Defined.

(** *** Rows on the wire *)

Lemma read32_at pre rest off k :
  Z.to_nat off = (length pre + k)%nat →
  read32 (pre ++ rest) off = le32 (take 4 (drop k rest)).
Proof. intros E. unfold read32. by rewrite E, drop_app_add. Qed.

Lemma encode_row_length r :
  length r.2 = 8%nat → length (encode_row r) = 36%nat.
Proof.
  destruct r as [id vs]. cbn [snd]. intros Hl.
  destruct vs as [| v0 [| v1 [| v2 [| v3 [| v4 [| v5 [| v6 [| v7 [| v8 vs]]]]]]]]];
    try discriminate.
  reflexivity.
Qed.

Lemma encode_rows_length rows :
  Forall well_formed_row rows →
  length (rows ≫= encode_row) = (36 * length rows)%nat.
Proof.
  induction 1 as [| r rows (_ & Hl & _) _ IH]; [done |].
  rewrite bind_cons, length_app, IH, encode_row_length by done.
  cbn [length]. lia.
Qed.

(** Reading back one row. *)
Lemma decode_row pre r rest off :
  well_formed_row r → Z.to_nat off = length pre → 0 ≤ off →
  (s32 (read32 (pre ++ encode_row r ++ rest) off),
   (λ k, read32 (pre ++ encode_row r ++ rest) (off + 4 + 4 * k)) <$> seqZ 0 8)
  = r.
Proof.
  destruct r as [id vs]. intros (Hid & Hl & Hvs) Hoff H0. cbn [fst snd] in *.
  destruct vs as [| v0 [| v1 [| v2 [| v3 [| v4 [| v5 [| v6 [| v7 [| v8 vs]]]]]]]]];
    try discriminate.
  repeat (apply Forall_cons in Hvs as [? Hvs]).
  unfold INT_MIN, INT_MAX in Hid.
  assert (Hu : 0 ≤ u32 id < 2 ^ 32) by (unfold u32; apply Z.mod_pos_bound; lia).
  assert (Hs : s32 (u32 id) = id).
  { unfold s32, u32. rewrite Zplus_mod_idemp_l.
    rewrite Z.mod_small by lia. lia. }
  f_equal.
  - rewrite (read32_at pre _ off 0) by lia.
    unfold encode_row. cbn [fst snd]. rewrite drop_0, <- app_assoc.
    rewrite take_app_length' by reflexivity.
    by rewrite le32_le_bytes.
  - change (seqZ 0 8) with [0; 1; 2; 3; 4; 5; 6; 7]. cbn [fmap list_fmap].
    rewrite (read32_at pre _ (off + 4 + 4 * 0) 4) by lia.
    rewrite (read32_at pre _ (off + 4 + 4 * 1) 8) by lia.
    rewrite (read32_at pre _ (off + 4 + 4 * 2) 12) by lia.
    rewrite (read32_at pre _ (off + 4 + 4 * 3) 16) by lia.
    rewrite (read32_at pre _ (off + 4 + 4 * 4) 20) by lia.
    rewrite (read32_at pre _ (off + 4 + 4 * 5) 24) by lia.
    rewrite (read32_at pre _ (off + 4 + 4 * 6) 28) by lia.
    rewrite (read32_at pre _ (off + 4 + 4 * 7) 32) by lia.
    unfold encode_row. cbn [fst snd mbind list_bind app drop take le_bytes].
    fold (le_bytes v0). fold (le_bytes v1). fold (le_bytes v2).
    fold (le_bytes v3). fold (le_bytes v4). fold (le_bytes v5).
    rewrite take_0.
    fold (le_bytes v6). fold (le_bytes v7).
    by rewrite !le32_le_bytes.
Qed.

Lemma rows_of_encoded rows tail :
  Forall well_formed_row rows → (length tail < 36)%nat →
  rows_of (DATA_prefix ++ (rows ≫= encode_row) ++ tail) = rows.
Proof.
  intros Hwf Htail. unfold rows_of.
  rewrite !length_app, (encode_rows_length rows Hwf).
  change (length DATA_prefix) with 5%nat.
  assert (Hn : Z.quot (Z.of_nat (5 + (36 * length rows + length tail)) - 5) 36
               = Z.of_nat (length rows)).
  { rewrite Z.quot_div_nonneg by lia.
    replace (Z.of_nat (5 + (36 * length rows + length tail)) - 5)
      with (Z.of_nat (length rows) * 36 + Z.of_nat (length tail)) by lia.
    rewrite Z.div_add_l by lia. rewrite Z.div_small by lia. lia. }
  rewrite Hn. apply list_eq. intros i. rewrite list_lookup_fmap.
  destruct (rows !! i) as [r |] eqn:Er.
  - assert (Hi : (i < length rows)%nat) by (by apply lookup_lt_Some in Er).
    rewrite lookup_seqZ_lt by lia. cbn [fmap option_fmap option_map]. f_equal.
    rewrite <- (take_drop_middle rows i r Er).
    rewrite bind_app, bind_cons, <- !app_assoc.
    rewrite (app_assoc DATA_prefix).
    apply decode_row.
    + by apply (Forall_lookup_1 _ _ _ _ Hwf Er).
    + rewrite length_app, encode_rows_length
        by (by apply Forall_take).
      rewrite length_take. change (length DATA_prefix) with 5%nat. lia.
    + lia.
  - apply lookup_ge_None in Er. rewrite lookup_seqZ_ge by lia. done.
Qed.

(** X22: a datagram made of the header, any number of rows and fewer
    than 36 trailing bytes is read back row by row: the telemetry is the
    old one with each row's parser applied in order, each row without a
    parser is reported and otherwise skipped, the trailing bytes are
    ignored, and the four records are then published in the order
    location, dynamics, attitude, engine, with the fix flag set, even
    when the datagram carries no row at all. *)
Theorem xp_frame_round_trip
    (stack tail : list Byte.byte) (rows : list Row) (dt : Z)
    (self : XPDataSource) (p : Program) :
  length stack = BUFFER_SIZE → Forall well_formed_row rows →
  (length tail < 36)%nat → (5 + 36 * length rows + length tail < BUFFER_SIZE)%nat →
  let t := foldl (apply_row (lookup_table p)) (telemetry p) rows in
  xp_data_source_frame stack
    (Data (DATA_prefix ++ (rows ≫= encode_row) ++ tail)) dt self p
  = Some (true, mkXP true (port self),
          mkProgram (lookup_table p) t (sockfd p),
          (CallPrintfUnsupported <$> unsupported (lookup_table p) rows) ++ publish t).
Proof.
  intros Hs Hwf Htail Hfit. cbv zeta.
  rewrite frame_decodes.
  - by rewrite rows_of_encoded.
  - done.
  - rewrite !length_app, encode_rows_length by done.
    change (length DATA_prefix) with 5%nat. lia.
  - done.
Qed.

Lemma xp_frame_round_trip_witness :
  let stack := replicate 1024 Byte.xff in
  let rows := [(20, [1; 2; 3; 4; 5; 6; 7; 8]); (-1, [0; 0; 0; 0; 0; 0; 0; 0])] in
  let p := initialize_lookup_table program0 in
  let t := foldl (apply_row (lookup_table p)) (telemetry p) rows in
  (length stack = BUFFER_SIZE ∧ Forall well_formed_row rows ∧
   (length [Byte.x01] < 36)%nat ∧
   (5 + 36 * length rows + length [Byte.x01] < BUFFER_SIZE)%nat) ∧
  xp_data_source_frame stack
    (Data (DATA_prefix ++ (rows ≫= encode_row) ++ [Byte.x01])) 16
    (mkXP false 49000) p
  = Some (true, mkXP true 49000,
          mkProgram (lookup_table p) t (sockfd p),
          (CallPrintfUnsupported <$> unsupported (lookup_table p) rows) ++ publish t).
Proof.
  intros stack rows p t.
  assert (H1 : length stack = BUFFER_SIZE) by reflexivity.
  assert (H2 : Forall well_formed_row rows).
  { repeat apply Forall_cons_2; try apply Forall_nil_2;
      (split; [vm_compute; split; discriminate |]);
      (split; [reflexivity |]);
      repeat apply Forall_cons_2; try apply Forall_nil_2; lia. }
  assert (H3 : (length [Byte.x01] < 36)%nat) by (vm_compute; lia).
  assert (H4 : (5 + 36 * length rows + length [Byte.x01] < BUFFER_SIZE)%nat)
    by (vm_compute; lia).
  split; [exact (conj H1 (conj H2 (conj H3 H4))) |].
  exact (xp_frame_round_trip stack [Byte.x01] rows 16 (mkXP false 49000) p
           H1 H2 H3 H4).
Defined.

(** *** The position row *)

Lemma table_cases (id : Z) :
  0 ≤ id ≤ 62 → ∃ n : nat, (n ≤ 62)%nat ∧ id = Z.of_nat n.
Proof. intros H. exists (Z.to_nat id). lia. Qed.

Lemma apply_row_position t r :
  let tbl := lookup_table (initialize_lookup_table program0) in
  position (apply_row tbl t r)
  = if r.1 =? 20 then mkPosition (at_ r.2 0) (at_ r.2 1) (at_ r.2 2)
    else position t.
Proof.
  cbv zeta. destruct r as [id vs]. cbn [fst snd].
  unfold apply_row, parser_for. cbn [fst snd].
  destruct (Z.geb_spec id 0) as [H0 | H0]; cbn [andb];
    [| by replace (id =? 20) with false by (symmetry; apply Z.eqb_neq; lia)].
  destruct (Z.leb_spec id 62) as [H62 | H62];
    [| by replace (id =? 20) with false by (symmetry; apply Z.eqb_neq; lia)].
  destruct (table_cases id ltac:(lia)) as (n & Hn & ->).
  do 63 (destruct n as [| n]; [reflexivity |]). lia.
Qed.

Lemma fold_position rows : ∀ t,
  let tbl := lookup_table (initialize_lookup_table program0) in
  position (foldl (apply_row tbl) t rows)
  = match last (filter (λ r, r.1 = 20) rows) with
    | Some r => mkPosition (at_ r.2 0) (at_ r.2 1) (at_ r.2 2)
    | None => position t
    end.
Proof.
  cbv zeta. induction rows as [| r rows IH] using rev_ind; intros t; [done |].
  rewrite foldl_app, filter_app. cbn [foldl]. rewrite apply_row_position.
  rewrite filter_cons, filter_nil.
  destruct (Z.eqb_spec r.1 20) as [E | E].
  - rewrite decide_True by done. by rewrite last_snoc.
  - rewrite decide_False by done. by rewrite app_nil_r, IH.
Qed.

(** X23: with the table [initialize_lookup_table] builds, the location
    a frame publishes is that of the last row with id 20 in the datagram,
    its first three values bit for bit; without such a row the stored
    position is published again, so a first datagram without a position
    row reports a fix at the zeroed position. *)
Theorem xp_last_position_row_wins
    (stack payload : list Byte.byte) (dt : Z) (self : XPDataSource) (p : Program) :
  length stack = BUFFER_SIZE → (length payload < BUFFER_SIZE)%nat →
  take 5 payload = DATA_prefix →
  lookup_table p = lookup_table (initialize_lookup_table program0) →
  let here :=
    match last (filter (λ r, r.1 = 20) (rows_of payload)) with
    | Some r => mkPosition (at_ r.2 0) (at_ r.2 1) (at_ r.2 2)
    | None => position (telemetry p)
    end in
  ∃ self' p' calls rest,
    xp_data_source_frame stack (Data payload) dt self p
    = Some (true, self', p',
            calls ++ SetLocation (FBits (latitude here)) (FBits (longitude here))
                                 (FBits (altitude here)) :: rest) ∧
    has_fix self' = true ∧ position (telemetry p') = here ∧
    Forall (λ c, ∃ row_id, c = CallPrintfUnsupported row_id) calls.
Proof.
  intros Hs Hp Hh Htbl. cbv zeta.
  rewrite (frame_decodes stack payload dt self p Hs Hp Hh). cbv zeta.
  rewrite Htbl.
  set (tbl := lookup_table (initialize_lookup_table program0)).
  set (t := foldl (apply_row tbl) (telemetry p) (rows_of payload)).
  assert (Epos : position t
                 = match last (filter (λ r, r.1 = 20) (rows_of payload)) with
                   | Some r => mkPosition (at_ r.2 0) (at_ r.2 1) (at_ r.2 2)
                   | None => position (telemetry p)
                   end)
    by apply fold_position.
  eexists _, _, _, _. split; [| split; [| split]].
  - unfold publish. rewrite Epos. reflexivity.
  - done.
  - done.
  - apply Forall_fmap, Forall_true. intros id. by exists id.
Qed.

Lemma xp_last_position_row_wins_witness :
  let stack := replicate 1024 Byte.xff in
  let payload := DATA_prefix in
  let p := initialize_lookup_table program0 in
  let here :=
    match last (filter (λ r, r.1 = 20) (rows_of payload)) with
    | Some r => mkPosition (at_ r.2 0) (at_ r.2 1) (at_ r.2 2)
    | None => position (telemetry p)
    end in
  (length stack = BUFFER_SIZE ∧ (length payload < BUFFER_SIZE)%nat ∧
   take 5 payload = DATA_prefix ∧
   lookup_table p = lookup_table (initialize_lookup_table program0)) ∧
  ∃ self' p' calls rest,
    xp_data_source_frame stack (Data payload) 16 (mkXP false 49000) p
    = Some (true, self', p',
            calls ++ SetLocation (FBits (latitude here)) (FBits (longitude here))
                                 (FBits (altitude here)) :: rest) ∧
    has_fix self' = true ∧ position (telemetry p') = here ∧
    Forall (λ c, ∃ row_id, c = CallPrintfUnsupported row_id) calls.
Proof.
  intros stack payload p here.
  assert (H1 : length stack = BUFFER_SIZE) by reflexivity.
  assert (H2 : (length payload < BUFFER_SIZE)%nat) by (vm_compute; lia).
  assert (H3 : take 5 payload = DATA_prefix) by reflexivity.
  assert (H4 : lookup_table p = lookup_table (initialize_lookup_table program0))
    by reflexivity.
  split; [exact (conj H1 (conj H2 (conj H3 H4))) |].
  exact (xp_last_position_row_wins stack payload 16 (mkXP false 49000) p
           H1 H2 H3 H4).
Defined.

(** *** Construction and disposal *)

Lemma parser_for_initialized (id : Z) :
  is_Some (parser_for (lookup_table (initialize_lookup_table program0)) id)
  ↔ id ∈ parsed_ids.
Proof.
  assert (Hin : id ∈ parsed_ids → 0 ≤ id ≤ 62).
  { unfold parsed_ids. intros H.
    repeat (apply elem_of_cons in H as [-> | H]; [lia |]).
    by apply elem_of_nil in H. }
  destruct (decide (0 ≤ id ≤ 62)) as [Hr | Hr].
  - destruct (table_cases id Hr) as (n & Hn & ->).
    do 63 (destruct n as [| n];
           [split; intros H;
            [first [apply (bool_decide_unpack _); vm_compute; exact I
                   | exfalso; destruct H as [f Hf]; vm_compute in Hf;
                     discriminate Hf]
            | first [vm_compute; eexists; reflexivity
                    | exfalso; apply (bool_decide_pack _) in H;
                      vm_compute in H; exact H]] |]).
    lia.
  - split; [| intros H; apply Hin in H; lia].
    unfold parser_for. intros [f Hf]. revert Hf.
    destruct (Z.geb_spec id 0); destruct (Z.leb_spec id 62); cbn [andb];
      try done. lia.
Qed.

(** X24: [xp_data_source_new2] gives up only when [calloc] or
    [data_source_init] does: a failed [socket] or [bind] still yields the
    object, with the port recorded, the telemetry untouched and the
    parsers of exactly the fifteen row ids in place.  After a failed
    [bind] the descriptor is closed but kept in [sockfd], so disposing of
    the object closes it a second time. *)
Theorem xp_new2_outcome (sys : Sys) (port : Z) (p : Program) :
  lookup_table p = lookup_table program0 →
  let '(r, p', calls) := xp_data_source_new2 sys port p in
  (r = None ↔ calloc_ok sys = false ∨ data_source_init_ok sys = false) ∧
  (r = None → p' = p) ∧
  ∀ self, r = Some self →
    self = mkXP false port ∧ telemetry p' = telemetry p ∧
    sockfd p' = socket_result sys ∧
    (∀ id, is_Some (parser_for (lookup_table p') id) ↔ id ∈ parsed_ids) ∧
    (0 ≤ socket_result sys → bind_result sys < 0 →
     calls ++ (xp_data_source_dispose self p').2
     = [CallPerror "Bind failed"; CallClose (socket_result sys);
        CallClose (socket_result sys)]).
Proof.
  intros Htbl. unfold xp_data_source_new2, xp_data_source_init.
  destruct (calloc_ok sys); [| split; [split; [by left | done] | done]].
  destruct (data_source_init_ok sys); cbn [negb];
    [| split; [split; [by right | done] | done]].
  assert (Ht : lookup_table (initialize_lookup_table p)
               = lookup_table (initialize_lookup_table program0))
    by (unfold initialize_lookup_table; cbn [lookup_table]; by rewrite Htbl).
  cbn [sockfd lookup_table telemetry].
  destruct (Z.ltb_spec (socket_result sys) 0) as [Hs | Hs].
  - split; [split; [done | intros [? | ?]; done] |]. split; [done |].
    intros self [= <-]. cbn [telemetry sockfd lookup_table].
    split; [done |]. split; [done |]. split; [done |].
    split; [| lia]. intros id. rewrite Ht. apply parser_for_initialized.
  - destruct (Z.ltb_spec (bind_result sys) 0) as [Hb | Hb].
    + split; [split; [done | intros [? | ?]; done] |]. split; [done |].
      intros self [= <-]. cbn [telemetry sockfd lookup_table].
      split; [done |]. split; [done |]. split; [done |].
      split; [| done]. intros id. rewrite Ht. apply parser_for_initialized.
    + split; [split; [done | intros [? | ?]; done] |]. split; [done |].
      intros self [= <-]. cbn [telemetry sockfd lookup_table].
      split; [done |]. split; [done |]. split; [done |].
      split; [| lia]. intros id. rewrite Ht. apply parser_for_initialized.
Qed.

Lemma xp_new2_outcome_witness :
  let sys := mkSys true true 3 (-1) in
  lookup_table program0 = lookup_table program0 ∧
  let '(r, p', calls) := xp_data_source_new2 sys 49000 program0 in
  (r = None ↔ calloc_ok sys = false ∨ data_source_init_ok sys = false) ∧
  (r = None → p' = program0) ∧
  ∀ self, r = Some self →
    self = mkXP false 49000 ∧ telemetry p' = telemetry program0 ∧
    sockfd p' = socket_result sys ∧
    (∀ id, is_Some (parser_for (lookup_table p') id) ↔ id ∈ parsed_ids) ∧
    (0 ≤ socket_result sys → bind_result sys < 0 →
     calls ++ (xp_data_source_dispose self p').2
     = [CallPerror "Bind failed"; CallClose (socket_result sys);
        CallClose (socket_result sys)]).
Proof.
  intros sys. split; [reflexivity |].
  exact (xp_new2_outcome sys 49000 program0 eq_refl).
Defined.

End XPlaneFacts.
